(** * KubeSight approximate query engine: sketches, samplers, dispatcher

    A shallow embedding of the Go sources of the query engine core:

    - [internal/probabilistic]: HyperLogLog, CountMinSketch, BloomFilter,
      BloomFilterTimeWindow;
    - [internal/sampling]: ReservoirSampler, WeightedReservoirSampler,
      StratifiedSampler, TimeBasedSampler, WindowStats, AnomalyDetector,
      AdaptiveSampler;
    - [pkg/metrics]: MetricPoint, QueryRequest, QueryResult;
    - [internal/engine]: QueryEngine (ProcessMetric, ExecuteQuery, the
      sample filters and the percentile handler).

    Conventions.  Go's fixed-width unsigned integers are values of [Z] with
    the wrap-around written at every arithmetic operation; [float64] is the
    kernel's binary64 [float]; [[]byte] is [list byte]; slices are lists,
    indexed through [index]/[store], which panic out of range as Go does.
    A call that can panic, or block on a lock, returns in [exec].  [make]
    panics as [runtime.makeslice] does, on a size that is negative or beyond
    the allocation limit; an allocation within that limit is taken to
    succeed (exhausting the memory of the machine is a fatal error of the
    runtime, not a panic, and is not represented).  Random
    generators are a cursor over an arbitrary sequence of raw 63-bit draws.
    Every method of the sources brackets its body by Lock/Unlock of the
    receiver's own mutex; in a sequential run from a state where no lock is
    held such a pair cannot block and is not represented.  The places where
    a second lock is taken while the first is held and the two objects may
    be the same, [BloomFilter.Union], [HyperLogLog.Merge] and
    [CountMinSketch.Merge], are modelled on a heap with the lock states
    explicit. *)

From Stdlib Require Import ZArith Lia Bool List String Ascii.
From Stdlib.Strings Require Import Byte.
From Stdlib Require Import Uint63 PrimFloat FloatOps SpecFloat FloatAxioms.
From Stdlib Require Import Sorted Permutation.
From stdpp Require Import base option list gmap strings.

Local Open Scope Z_scope.
Set Warnings "-inexact-float".

(** ** Go runtime: outcomes, integers, slices *)

Module Go.

Inductive panic : Set :=
| IndexOutOfRange
| IntegerDivideByZero
| MakesliceLenOutOfRange   (* "makeslice: len out of range" *)
| MakesliceCapOutOfRange   (* "makeslice: cap out of range" *)
| InvalidArgument
| NilDereference
| UnlockOfUnlocked.

(** The outcome of a call: it returns, it panics, or it blocks forever on a
    lock that is never released. *)
Inductive exec (A : Type) : Type :=
| Ret (a : A)
| Panic (p : panic)
| Blocked.

Arguments Ret {A} a.
Arguments Panic {A} p.
Arguments Blocked {A}.

Definition bind {A B : Type} (c : exec A) (k : A -> exec B) : exec B :=
  match c with
  | Ret a => k a
  | Panic p => Panic p
  | Blocked => Blocked
  end.

Definition returns {A : Type} (c : exec A) : bool :=
  match c with Ret _ => true | _ => false end.

(** The values of Go's [error] that the core creates, one per call of
    [fmt.Errorf] (or error variable) in the sources. *)
Inductive error : Type :=
| ErrPrecisionMismatch                 (* "precision mismatch between HyperLogLogs" *)
| ErrDimensionMismatch                 (* "dimension mismatch: cannot merge CMS of different dimensions" *)
| ErrUnionMismatch                   (* "cannot union bloom filters with different parameters" *)
| ErrUnsupportedQueryType (t : string) (* "unsupported query type: %s" *)
| ErrInvalidPercentile (v : float)     (* "invalid percentile value: %f" *)
| ErrInvalidK (k : Z)                  (* "invalid K value: %d" *)
| ErrNoMembershipItem                  (* "no item specified for membership test" *)
| ErrNoFrequencyItem.                  (* "no item specified for frequency count" *)

Definition uint8 (x : Z) : Z := x mod 2 ^ 8.
Definition uint32 (x : Z) : Z := x mod 2 ^ 32.
Definition uint64 (x : Z) : Z := x mod 2 ^ 64.

(** Wrap-around of signed 64-bit arithmetic. *)
Definition int64 (x : Z) : Z := (x + 2 ^ 63) mod 2 ^ 64 - 2 ^ 63.

(** [int(x)] for a [uint64] x: reinterpretation as a signed 64-bit value. *)
Definition int_of_uint64 (x : Z) : Z :=
  if x <? 2 ^ 63 then x else x - 2 ^ 64.

Definition MaxUint32 : Z := 2 ^ 32 - 1.

(** [x << s] and [x >> s] on [uint64] with an unsigned count: a count of 64
    or more gives 0. *)
Definition shl64 (x s : Z) : Z :=
  if s <? 64 then uint64 (Z.shiftl x s) else 0.

Definition shr64 (x s : Z) : Z :=
  if s <? 64 then Z.shiftr x s else 0.

Definition shl32 (x s : Z) : Z :=
  if s <? 32 then uint32 (Z.shiftl x s) else 0.

(** [l[i]] *)
Definition index {A : Type} (l : list A) (i : Z) : exec A :=
  if i <? 0 then Panic IndexOutOfRange
  else match l !! Z.to_nat i with
       | Some x => Ret x
       | None => Panic IndexOutOfRange
       end.

(** [l[i] = v] *)
Definition store {A : Type} (l : list A) (i : Z) (v : A) : exec (list A) :=
  if i <? 0 then Panic IndexOutOfRange
  else match l !! Z.to_nat i with
       | Some _ => Ret (<[Z.to_nat i := v]> l)
       | None => Panic IndexOutOfRange
       end.

(** [x % y] on unsigned operands. *)
Definition umod (x y : Z) : exec Z :=
  if y =? 0 then Panic IntegerDivideByZero else Ret (x mod y).

(** [runtime.maxAlloc], the largest allocation the runtime accepts: 1 << 48
    bytes on the 64-bit platforms with 48 bits of heap address (linux/amd64),
    which the 64-bit [int] of this model follows. *)
Definition maxAlloc : Z := 2 ^ 48.

(** The checks of [runtime.makeslice] for [make([]T, len, cap)], with [size]
    the size of [T] in bytes: the call panics when [size * uintptr(cap)]
    overflows or exceeds [maxAlloc] (a negative [cap] is a huge [uintptr]),
    when [len] is negative and when [len] exceeds [cap]; the message names
    [len] when [len] alone fails the same test, and [cap] otherwise. *)
Definition makeslice (size len cap : Z) : exec unit :=
  if (cap <? 0) || (maxAlloc <? size * cap) || (len <? 0) || (cap <? len) then
    if (len <? 0) || (maxAlloc <? size * len) then Panic MakesliceLenOutOfRange
    else Panic MakesliceCapOutOfRange
  else Ret tt.

(** [make([]T, n)] with every element the zero value [z]; [size] is the size
    of [T] in bytes. *)
Definition make {A : Type} (size : Z) (z : A) (n : Z) : exec (list A) :=
  bind (makeslice size n n) (fun _ => Ret (replicate (Z.to_nat n) z)).

(** [[]byte(s)] *)
Definition bytes_of_string (s : string) : list byte := list_byte_of_string s.

Definition Z_of_byte (b : byte) : Z := Z.of_N (Byte.to_N b).

End Go.

Export Go.

#[global] Instance exec_bind : MBind exec := fun A B k c => Go.bind c k.
#[global] Instance exec_ret : MRet exec := fun A a => Ret a.
#[global] Instance byte_eq_decision : EqDecision byte := Byte.byte_eq_dec.

(** A [for] loop whose variable runs over [range], threading the state [s]. *)
Fixpoint for_loop {S : Type} (body : Z -> S -> exec S) (range : list Z) (s : S) : exec S :=
  match range with
  | [] => Ret s
  | i :: range => s' ← body i s; for_loop body range s'
  end.

(** ** sync.RWMutex, for calls that hold two locks

    [Merge] of the cardinality and of the frequency sketch takes the
    receiver's write lock and then the argument's read lock, and releases
    both on return.  Sketches live at addresses of a heap and carry the state
    of their mutex.  Once both locks are held the two pointers differ (on one
    and the same object the second lock blocks), so the argument's fields are
    not written while the body runs: the body is a function of the two
    values that yields the receiver's new value. *)

Module sync.

Inductive RWMutex : Set :=
| Unlocked
| WriteLocked
| ReadLocked (readers : positive).

Record object (A : Type) : Type := Obj { value : A; mutex : RWMutex }.

Arguments Obj {A} value mutex.
Arguments value {A} o.
Arguments mutex {A} o.

Abbreviation heap A := (gmap positive (object A)).

Definition deref {A : Type} (h : heap A) (p : positive) : exec (object A) :=
  match h !! p with
  | Some o => Ret o
  | None => Panic NilDereference
  end.

Definition Lock {A : Type} (h : heap A) (p : positive) : exec (heap A) :=
  o ← deref h p;
  match mutex o with
  | Unlocked => Ret (<[p := Obj (value o) WriteLocked]> h)
  | _ => Blocked
  end.

Definition RLock {A : Type} (h : heap A) (p : positive) : exec (heap A) :=
  o ← deref h p;
  match mutex o with
  | Unlocked => Ret (<[p := Obj (value o) (ReadLocked 1)]> h)
  | ReadLocked n => Ret (<[p := Obj (value o) (ReadLocked (n + 1))]> h)
  | WriteLocked => Blocked
  end.

Definition Unlock {A : Type} (h : heap A) (p : positive) : exec (heap A) :=
  o ← deref h p;
  match mutex o with
  | WriteLocked => Ret (<[p := Obj (value o) Unlocked]> h)
  | _ => Panic UnlockOfUnlocked
  end.

Definition RUnlock {A : Type} (h : heap A) (p : positive) : exec (heap A) :=
  o ← deref h p;
  match mutex o with
  | ReadLocked 1 => Ret (<[p := Obj (value o) Unlocked]> h)
  | ReadLocked n => Ret (<[p := Obj (value o) (ReadLocked (n - 1))]> h)
  | _ => Panic UnlockOfUnlocked
  end.

(** [self.mutex.Lock(); other.mutex.RLock(); defer self.mutex.Unlock();
    defer other.mutex.RUnlock(); body] *)
Definition locked {A : Type} (h : heap A) (self other : positive)
    (body : A -> A -> exec A) : exec (heap A) :=
  h ← Lock h self;
  h ← RLock h other;
  a ← deref h self;
  b ← deref h other;
  a' ← body (value a) (value b);
  let h := <[self := Obj a' (mutex a)]> h in
  (* deferred calls, last registered first *)
  h ← RUnlock h other;
  Unlock h self.

End sync.

(** ** hash/fnv *)

Module fnv.

Definition offset32 : Z := 2166136261.
Definition prime32 : Z := 16777619.
Definition offset64 : Z := 14695981039346656037.
Definition prime64 : Z := 1099511628211.

(** [fnv.New32]: multiply, then xor. *)
Definition Sum32 (data : list byte) : Z :=
  fold_left (fun h b => Z.lxor (uint32 (h * prime32)) (Z_of_byte b)) data offset32.

(** [fnv.New32a]: xor, then multiply. *)
Definition Sum32a (data : list byte) : Z :=
  fold_left (fun h b => uint32 (Z.lxor h (Z_of_byte b) * prime32)) data offset32.

(** [fnv.New64a] *)
Definition Sum64a (data : list byte) : Z :=
  fold_left (fun h b => uint64 (Z.lxor h (Z_of_byte b) * prime64)) data offset64.

End fnv.

(** ** float64 helpers *)

Module Float64.

(** [float64(n)] for a [uint64] n.  Values below 2^63 convert directly; above,
    the value is halved with the lost bit kept sticky and the result doubled,
    which rounds to nearest-even exactly as the direct conversion would. *)
Definition of_uint64 (n : Z) : float :=
  if n <? 2 ^ 63 then PrimFloat.of_uint63 (Uint63.of_Z n)
  else PrimFloat.mul
         (PrimFloat.of_uint63 (Uint63.of_Z (Z.lor (Z.shiftr n 1) (Z.land n 1))))
         PrimFloat.two.

(** [float64(n)] for an [int] n. *)
Definition of_int (n : Z) : float :=
  if n <? 0 then PrimFloat.opp (of_uint64 (- n)) else of_uint64 n.

(** [math.Max] *)
Definition Max (x y : float) : float :=
  if PrimFloat.eqb x infinity || PrimFloat.eqb y infinity then infinity
  else if is_nan x || is_nan y then nan
  else if PrimFloat.eqb x zero && PrimFloat.eqb x y then
         (if get_sign x then y else x)
  else if PrimFloat.ltb y x then x else y.

(** [math.Min] *)
Definition Min (x y : float) : float :=
  if PrimFloat.eqb x neg_infinity || PrimFloat.eqb y neg_infinity then neg_infinity
  else if is_nan x || is_nan y then nan
  else if PrimFloat.eqb x zero && PrimFloat.eqb x y then
         (if get_sign x then x else y)
  else if PrimFloat.ltb x y then x else y.

End Float64.

(** ** internal/probabilistic: HyperLogLog *)

Module HyperLogLog.

Record t : Type := mk {
  precision : Z;      (* uint8 *)
  m : Z;              (* uint32 *)
  buckets : list Z;   (* []uint8 *)
  alpha : float
}.

Definition calculateAlpha (m : Z) : float :=
  if m =? 16 then 0.673%float
  else if m =? 32 then 0.697%float
  else if m =? 64 then 0.709%float
  else PrimFloat.div 0.7213%float
         (PrimFloat.add 1%float (PrimFloat.div 1.079%float (Float64.of_uint64 m))).

Definition NewHyperLogLog (precision : Z) : exec t :=
  let precision := if (precision <? 4) || (precision >? 16) then 14 else precision in
  let m := shl32 1 precision in
  buckets ← make 1 0 m;
  Ret {| precision := precision; m := m; buckets := buckets;
         alpha := calculateAlpha m |}.

Definition hashBytes (data : list byte) : Z := fnv.Sum64a data.

(** One halving step of the leading-zero count: [if x <= bound { n += k; x <<= k }]. *)
Definition clz_step (bound k : Z) (st : Z * Z) : Z * Z :=
  let '(n, x) := st in
  if x <=? bound then (n + k, shl64 x k) else (n, x).

Definition countLeadingZeros (x : Z) : Z :=
  if x =? 0 then 64
  else
    let st := clz_step 0x00000000FFFFFFFF 32 (0, x) in
    let st := clz_step 0x0000FFFFFFFFFFFF 16 st in
    let st := clz_step 0x00FFFFFFFFFFFFFF 8 st in
    let st := clz_step 0x0FFFFFFFFFFFFFFF 4 st in
    let st := clz_step 0x3FFFFFFFFFFFFFFF 2 st in
    let '(n, x) := st in
    if x <=? 0x7FFFFFFFFFFFFFFF then n + 1 else n.

Definition Add (hll : t) (data : list byte) : exec t :=
  let hash := hashBytes data in
  let bucketIdx := shr64 hash (uint8 (64 - precision hll)) in
  let w := shl64 hash (precision hll) in
  let leadingZeros :=
    if negb (w =? 0) then uint8 (uint8 (countLeadingZeros w) + 1) else 1 in
  cur ← index (buckets hll) bucketIdx;
  if leadingZeros >? cur then
    buckets' ← store (buckets hll) bucketIdx leadingZeros;
    Ret {| precision := precision hll; m := m hll; buckets := buckets';
           alpha := alpha hll |}
  else Ret hll.

Definition Clear (hll : t) : t :=
  {| precision := precision hll; m := m hll;
     buckets := map (fun _ => 0) (buckets hll); alpha := alpha hll |}.

(** One iteration of the loop of [Merge], on the receiver's registers. *)
Definition merge_register (other : t) (i : Z) (buckets : list Z) : exec (list Z) :=
  o ← index (HyperLogLog.buckets other) i;
  c ← index buckets i;
  if o >? c then store buckets i o else Ret buckets.

(** The body of [Merge] under the two locks. *)
Definition merge_registers (hll other : t) : exec t :=
  buckets' ← for_loop (merge_register other) (seqZ 0 (m hll)) (buckets hll);
  Ret {| precision := precision hll; m := m hll; buckets := buckets';
         alpha := alpha hll |}.

Definition Merge (h : sync.heap t) (hll other : positive)
  : exec (sync.heap t * option error) :=
  a ← sync.deref h hll;
  b ← sync.deref h other;
  if negb (precision (sync.value a) =? precision (sync.value b))
  then Ret (h, Some ErrPrecisionMismatch)
  else
    h ← sync.locked h hll other merge_registers;
    Ret (h, None).

(** [1.04 / math.Sqrt(float64(hll.m))] *)
Definition EstimateError (hll : t) : float :=
  PrimFloat.div 1.04%float (PrimFloat.sqrt (Float64.of_uint64 (m hll))).

Record HLLStats : Type := {
  Precision : Z;        (* uint8 *)
  Buckets : Z;          (* uint32 *)
  EmptyBuckets : Z;     (* uint32 *)
  MaxBucket : Z;        (* uint8 *)
  EstimatedError : float
}.

(** One iteration of the loop of [GetStats], on [(emptyBuckets, maxBucket)];
    [emptyBuckets] is an [int]. *)
Definition stats_step (st : Z * Z) (bucket : Z) : Z * Z :=
  let '(emptyBuckets, maxBucket) := st in
  (if bucket =? 0 then int64 (emptyBuckets + 1) else emptyBuckets,
   if bucket >? maxBucket then bucket else maxBucket).

Definition GetStats (hll : t) : HLLStats :=
  let '(emptyBuckets, maxBucket) := fold_left stats_step (buckets hll) (0, 0) in
  {| Precision := precision hll; Buckets := m hll;
     EmptyBuckets := uint32 emptyBuckets; MaxBucket := maxBucket;
     EstimatedError := EstimateError hll |}.

End HyperLogLog.

(** ** internal/probabilistic: CountMinSketch *)

Module CountMinSketch.

Record t : Type := mk {
  width : Z;                (* uint32 *)
  depth : Z;                (* uint32 *)
  count : list (list Z);    (* [][]uint32 *)
  hashA : list Z;           (* []uint32 *)
  hashB : list Z;           (* []uint32 *)
  total : Z                 (* uint64 *)
}.

(** [width] and [depth] are [uint32] arguments, hence never negative. *)
Definition NewCountMinSketch (width depth : Z) : t :=
  {| width := width;
     depth := depth;
     count := replicate (Z.to_nat depth) (replicate (Z.to_nat width) 0);
     hashA := (fun i => uint32 (uint32 (i * 2) + 1)) <$> seqZ 0 depth;
     hashB := (fun i => uint32 (uint32 (i * 3) + 7)) <$> seqZ 0 depth;
     total := 0 |}.

Definition hash (data : list byte) : Z := fnv.Sum64a data.

Definition getBucket (cms : t) (hash row : Z) : exec Z :=
  a ← index (hashA cms) row;
  b ← index (hashB cms) row;
  r ← umod (uint64 (uint64 (a * hash) + b)) (width cms);
  Ret (uint32 r).

(** One iteration of the loop of [Update], on the table. *)
Definition update_row (cms : t) (hash cnt : Z) (i : Z) (table : list (list Z))
  : exec (list (list Z)) :=
  bucket ← getBucket cms hash i;
  row ← index table i;
  c ← index row bucket;
  row' ← store row bucket (uint32 (c + cnt));
  store table i row'.

Definition Update (cms : t) (item : list byte) (cnt : Z) : exec t :=
  let hash := hash item in
  table ← for_loop (update_row cms hash cnt) (seqZ 0 (depth cms)) (count cms);
  Ret {| width := width cms; depth := depth cms; count := table;
         hashA := hashA cms; hashB := hashB cms;
         total := uint64 (total cms + cnt) |}.

(** One iteration of the loop of [Estimate], on the running minimum. *)
Definition estimate_row (cms : t) (hash : Z) (i : Z) (minCount : Z) : exec Z :=
  bucket ← getBucket cms hash i;
  row ← index (count cms) i;
  c ← index row bucket;
  Ret (if c <? minCount then c else minCount).

Definition Estimate (cms : t) (item : list byte) : exec Z :=
  let hash := hash item in
  for_loop (estimate_row cms hash) (seqZ 0 (depth cms)) MaxUint32.

Definition Clear (cms : t) : t :=
  {| width := width cms; depth := depth cms;
     count := replicate (Z.to_nat (depth cms)) (replicate (Z.to_nat (width cms)) 0);
     hashA := hashA cms; hashB := hashB cms; total := 0 |}.

(** [cms.count[i][j] += other.count[i][j]] *)
Definition merge_cell (other : t) (i j : Z) (table : list (list Z))
  : exec (list (list Z)) :=
  row ← index table i;
  c ← index row j;
  orow ← index (count other) i;
  o ← index orow j;
  row' ← store row j (uint32 (c + o));
  store table i row'.

(** The body of [Merge] under the two locks. *)
Definition merge_counts (cms other : t) : exec t :=
  table ← for_loop (fun i table => for_loop (merge_cell other i) (seqZ 0 (width cms)) table)
                   (seqZ 0 (depth cms)) (count cms);
  Ret {| width := width cms; depth := depth cms; count := table;
         hashA := hashA cms; hashB := hashB cms;
         total := uint64 (total cms + total other) |}.

Definition Merge (h : sync.heap t) (cms other : positive)
  : exec (sync.heap t * option error) :=
  a ← sync.deref h cms;
  b ← sync.deref h other;
  if negb (width (sync.value a) =? width (sync.value b))
     || negb (depth (sync.value a) =? depth (sync.value b))
  then Ret (h, Some ErrDimensionMismatch)
  else
    h ← sync.locked h cms other merge_counts;
    Ret (h, None).

End CountMinSketch.

(** ** internal/probabilistic: BloomFilter *)

Module BloomFilter.

Record t : Type := mk {
  bits : list bool;
  size : Z;          (* uint32 *)
  numHashes : Z;     (* uint32 *)
  numItems : Z       (* uint32 *)
}.

Definition NewBloomFilter (size numHashes : Z) : t :=
  {| bits := replicate (Z.to_nat size) false;
     size := size; numHashes := numHashes; numItems := 0 |}.

Definition hash1 (data : list byte) : Z := fnv.Sum32a data.

Definition hash2 (data : list byte) : Z :=
  let hash := fnv.Sum32 data in
  if hash mod 2 =? 0 then uint32 (hash + 1) else hash.

Definition getHashes (bf : t) (data : list byte) : list Z :=
  let hash1 := hash1 data in
  let hash2 := hash2 data in
  (fun i => uint32 (hash1 + uint32 (i * hash2))) <$> seqZ 0 (numHashes bf).

(** One iteration of the loop of [Add]: [bf.bits[hash % bf.size] = true]. *)
Definition set_bit (size : Z) (hash : Z) (bits : list bool) : exec (list bool) :=
  idx ← umod hash size;
  store bits idx true.

Definition Add (bf : t) (item : list byte) : exec t :=
  let hashes := getHashes bf item in
  bits' ← for_loop (set_bit (size bf)) hashes (bits bf);
  Ret {| bits := bits'; size := size bf; numHashes := numHashes bf;
         numItems := uint32 (numItems bf + 1) |}.

(** The loop of [Contains], which returns [false] at the first clear bit. *)
Fixpoint contains_loop (bf : t) (hashes : list Z) : exec bool :=
  match hashes with
  | [] => Ret true
  | hash :: hashes =>
      idx ← umod hash (size bf);
      b ← index (bits bf) idx;
      if negb b then Ret false else contains_loop bf hashes
  end.

Definition Contains (bf : t) (item : list byte) : exec bool :=
  contains_loop bf (getHashes bf item).

Definition Clear (bf : t) : t :=
  {| bits := (fun _ => false) <$> bits bf; size := size bf;
     numHashes := numHashes bf; numItems := 0 |}.

(** *** Union, on a heap of filters

    [Union] takes the receiver's write lock and then the argument's read
    lock.  The two pointers may be equal, so filters live at addresses and
    each carries the state of its [sync.RWMutex]. *)

Inductive RWMutex : Set :=
| Unlocked
| WriteLocked
| ReadLocked (readers : positive).

Record object : Type := Obj { filter : t; mutex : RWMutex }.

Abbreviation heap := (gmap positive object).

Definition deref (h : heap) (p : positive) : exec object :=
  match h !! p with
  | Some o => Ret o
  | None => Panic NilDereference
  end.

(** [Lock] waits until nobody holds the lock; with a single goroutine, a
    lock that is held stays held. *)
Definition Lock (h : heap) (p : positive) : exec heap :=
  o ← deref h p;
  match mutex o with
  | Unlocked => Ret (<[p := Obj (filter o) WriteLocked]> h)
  | _ => Blocked
  end.

Definition RLock (h : heap) (p : positive) : exec heap :=
  o ← deref h p;
  match mutex o with
  | Unlocked => Ret (<[p := Obj (filter o) (ReadLocked 1)]> h)
  | ReadLocked n => Ret (<[p := Obj (filter o) (ReadLocked (n + 1))]> h)
  | WriteLocked => Blocked
  end.

Definition Unlock (h : heap) (p : positive) : exec heap :=
  o ← deref h p;
  match mutex o with
  | WriteLocked => Ret (<[p := Obj (filter o) Unlocked]> h)
  | _ => Panic UnlockOfUnlocked
  end.

Definition RUnlock (h : heap) (p : positive) : exec heap :=
  o ← deref h p;
  match mutex o with
  | ReadLocked 1 => Ret (<[p := Obj (filter o) Unlocked]> h)
  | ReadLocked n => Ret (<[p := Obj (filter o) (ReadLocked (n - 1))]> h)
  | _ => Panic UnlockOfUnlocked
  end.

(** [bf.bits[i] = bf.bits[i] || other.bits[i]] *)
Definition or_bit (bf other : positive) (i : Z) (h : heap) : exec heap :=
  a ← deref h bf;
  b ← deref h other;
  x ← index (bits (filter a)) i;
  y ← index (bits (filter b)) i;
  bits' ← store (bits (filter a)) i (x || y);
  Ret (<[bf := Obj {| bits := bits'; size := size (filter a);
                      numHashes := numHashes (filter a);
                      numItems := numItems (filter a) |} (mutex a)]> h).

(** [bf.numItems += other.numItems] *)
Definition add_items (bf other : positive) (h : heap) : exec heap :=
  a ← deref h bf;
  b ← deref h other;
  Ret (<[bf := Obj {| bits := bits (filter a); size := size (filter a);
                      numHashes := numHashes (filter a);
                      numItems := uint32 (numItems (filter a) + numItems (filter b)) |}
                   (mutex a)]> h).

Definition Union (h : heap) (bf other : positive) : exec (heap * option error) :=
  a ← deref h bf;
  b ← deref h other;
  if negb (size (filter a) =? size (filter b))
     || negb (numHashes (filter a) =? numHashes (filter b))
  then Ret (h, Some ErrUnionMismatch)
  else
    h ← Lock h bf;
    h ← RLock h other;
    h ← for_loop (or_bit bf other) (seqZ 0 (size (filter a))) h;
    h ← add_items bf other h;
    (* deferred calls, last registered first *)
    h ← RUnlock h other;
    h ← Unlock h bf;
    Ret (h, None).

(** The loop of [countSetBits], on the [uint32] counter. *)
Definition countSetBits (bf : t) : Z :=
  fold_left (fun count (bit : bool) => if bit then uint32 (count + 1) else count) (bits bf) 0.

End BloomFilter.

(** ** internal/probabilistic: BloomFilterTimeWindow

    The slice holds pointers to filters that the constructor creates one by
    one, so no two entries share a filter; the entry is the filter. *)

Module BloomFilterTimeWindow.

Record t : Type := mk {
  filters : list BloomFilter.t;
  window : Z;      (* int *)
  current : Z      (* int *)
}.

(** [make] of a slice of pointers, 8 bytes each, panics on a length that is
    negative or beyond the allocation limit; the loop then stores a new
    filter at every index. *)
Definition NewBloomFilterTimeWindow (windows size numHashes : Z) : exec t :=
  filters ← make 8 (BloomFilter.NewBloomFilter size numHashes) windows;
  Ret {| filters := filters; window := windows; current := 0 |}.

Definition Add (bftw : t) (item : list byte) : exec t :=
  filter ← index (filters bftw) (current bftw);
  filter' ← BloomFilter.Add filter item;
  filters' ← store (filters bftw) (current bftw) filter';
  Ret {| filters := filters'; window := window bftw; current := current bftw |}.

(** The loop of [Contains], which returns [true] at the first filter that
    holds the item. *)
Fixpoint contains_any (filters : list BloomFilter.t) (item : list byte) : exec bool :=
  match filters with
  | [] => Ret false
  | filter :: filters =>
      b ← BloomFilter.Contains filter item;
      if (b : bool) then Ret true else contains_any filters item
  end.

Definition Contains (bftw : t) (item : list byte) : exec bool :=
  contains_any (filters bftw) item.

(** [a % b] on [int]: the remainder of the truncated division. *)
Definition rem_int (a b : Z) : exec Z :=
  if b =? 0 then Panic IntegerDivideByZero else Ret (Z.rem a b).

Definition Rotate (bftw : t) : exec t :=
  current ← rem_int (int64 (current bftw + 1)) (window bftw);
  filter ← index (filters bftw) current;
  filters' ← store (filters bftw) current (BloomFilter.Clear filter);
  Ret {| filters := filters'; window := window bftw; current := current |}.

End BloomFilterTimeWindow.

(** ** math/rand and time

    A generator is a cursor over an arbitrary sequence of raw draws, so that
    a statement over every [Rand] covers every sequence of outcomes.  The
    two methods the sources call are modelled by their documented contracts:
    [Float64] returns a value of [[0, 1)] and [Intn n] a value of [[0, n)],
    panicking when [n <= 0]; each consumes one draw.  An instant of
    [time.Time] is its number of nanoseconds since the zero time, a
    [time.Duration] a number of nanoseconds. *)

Module rand.

Record Rand : Type := mk { source : nat -> Z; cursor : nat }.

Definition Int63 (r : Rand) : Z * Rand :=
  (source r (cursor r) mod 2 ^ 63, mk (source r) (S (cursor r))).

Definition Float64 (r : Rand) : float * Rand :=
  let '(n, r') := Int63 r in
  (PrimFloat.div (PrimFloat.of_uint63 (Uint63.of_Z (n mod 2 ^ 53))) 9007199254740992%float, r').

Definition Intn (r : Rand) (n : Z) : exec (Z * Rand) :=
  if n <=? 0 then Panic InvalidArgument
  else let '(x, r') := Int63 r in Ret (x mod n, r').

End rand.

(** ** pkg/metrics *)

Module metrics.

(** Field names are those of the sources; a field whose name is taken by a
    field of an earlier struct of the package, by a type or by a keyword
    carries the initials of its struct ([QR_], [PR_]) or a final underscore. *)

Record MetricPoint : Type := {
  Timestamp : Z;
  ClusterID : string;
  Namespace : string;
  PodName : string;
  ContainerName : string;
  MetricName : string;
  Value : float;
  Unit : string;
  Labels : gmap string string
}.

Record TimeRange : Type := { Start : Z; End_ : Z }.

(** [QueryType] is a string type: a request decoded from JSON may carry any
    string. *)
Record QueryRequest : Type := {
  ID : string;
  Query : string;
  QueryType : string;
  TimeRange_ : TimeRange;
  Filters : gmap string string;
  ErrorBound : float;
  Confidence : float
}.

Definition CountDistinct : string := "count_distinct".
Definition Sum : string := "sum".
Definition Average : string := "average".
Definition Percentile : string := "percentile".
Definition TopK : string := "top_k".
Definition Membership : string := "membership".
Definition FrequencyCount : string := "frequency_count".

Record PercentileResult : Type := {
  PR_Percentile : float;
  PR_Value : float;
  PR_SampleSize : Z
}.

(** The dynamic values the percentile handler stores in the
    [Result interface{}] field: [nil] or a [*PercentileResult]. *)
Inductive payload : Type :=
| Nil
| PercentilePtr (r : PercentileResult).

Record QueryResult : Type := {
  QR_ID : string;
  QR_Query : string;
  Result : payload;
  Error : option float;
  QR_Confidence : option float;
  SampleSize : Z;
  ProcessingTime : Z;
  IsApproximate : bool;
  QR_Timestamp : Z
}.

Definition IsAnomaly (mp : MetricPoint) : bool :=
  if String.eqb (MetricName mp) "cpu_usage" && PrimFloat.ltb 0.9%float (Value mp) then true
  else if String.eqb (MetricName mp) "memory_usage" && PrimFloat.ltb 0.85%float (Value mp) then true
  else if String.eqb (MetricName mp) "pod_restarts" && PrimFloat.ltb 3%float (Value mp) then true
  else false.

Definition GetKey (mp : MetricPoint) : string :=
  ClusterID mp ++ "/" ++ Namespace mp ++ "/" ++ PodName mp ++ "/" ++ MetricName mp.

End metrics.

Export metrics.

(** ** internal/sampling: ReservoirSampler *)

Module ReservoirSampler.

Record t : Type := mk {
  capacity : Z;                 (* int *)
  samples : list MetricPoint;   (* []*metrics.MetricPoint, each a private copy *)
  count : Z;                    (* uint64 *)
  rng : rand.Rand
}.

(** [rng] is the generator [rand.New(rand.NewSource(time.Now().UnixNano()))]
    yields at the time of the call.  [make([]*metrics.MetricPoint, 0, capacity)]
    reserves 8 bytes per pointer and panics on a capacity that is negative or
    beyond the allocation limit. *)
Definition NewReservoirSampler (capacity : Z) (rng : rand.Rand) : exec t :=
  _ ← makeslice 8 0 capacity;
  Ret {| capacity := capacity; samples := []; count := 0; rng := rng |}.

(** Returns the stored copy, or [None] for Go's [nil]. *)
Definition Add (rs : t) (metric : MetricPoint) : exec (t * option MetricPoint) :=
  let count := uint64 (count rs + 1) in
  if Z.of_nat (length (samples rs)) <? capacity rs then
    let sample := metric in
    Ret ({| capacity := capacity rs; samples := samples rs ++ [sample];
            count := count; rng := rng rs |}, Some sample)
  else
    '(randomIndex, rng') ← rand.Intn (rng rs) (int_of_uint64 count);
    if randomIndex <? capacity rs then
      let sample := metric in
      samples' ← store (samples rs) randomIndex sample;
      Ret ({| capacity := capacity rs; samples := samples';
              count := count; rng := rng' |}, Some sample)
    else
      Ret ({| capacity := capacity rs; samples := samples rs;
              count := count; rng := rng' |}, None).

Definition GetSamples (rs : t) : list MetricPoint := samples rs.

Definition Size (rs : t) : Z := Z.of_nat (length (samples rs)).

Definition Count (rs : t) : Z := count rs.

Definition Clear (rs : t) : t :=
  {| capacity := capacity rs; samples := []; count := 0; rng := rng rs |}.

(** Returns the copy of a sample drawn at random, or [None] for [nil]; the
    generator advances when a draw is made. *)
Definition GetRandomSample (rs : t) : exec (t * option MetricPoint) :=
  if Z.of_nat (length (samples rs)) =? 0 then Ret (rs, None)
  else
    '(idx, rng') ← rand.Intn (rng rs) (Z.of_nat (length (samples rs)));
    sample ← index (samples rs) idx;
    Ret ({| capacity := capacity rs; samples := samples rs; count := count rs;
            rng := rng' |}, Some sample).

End ReservoirSampler.

(** ** internal/sampling: WeightedReservoirSampler *)

Module WeightedReservoirSampler.

Record WeightedSample : Type := {
  Metric : MetricPoint;
  Weight : float;
  Key : float
}.

Record t : Type := mk {
  capacity : Z;
  samples : list WeightedSample;
  rng : rand.Rand
}.

(** [make([]WeightedSample, 0, capacity)]: a [WeightedSample] is a pointer
    and two [float64], 24 bytes. *)
Definition NewWeightedReservoirSampler (capacity : Z) (rng : rand.Rand) : exec t :=
  _ ← makeslice 24 0 capacity;
  Ret {| capacity := capacity; samples := []; rng := rng |}.

(** The scan for the smallest key over [samples[1:]], from [(minIdx, minKey)];
    [i] is the index of the head of [rest]. *)
Fixpoint min_key (rest : list WeightedSample) (i : Z) (minIdx : Z) (minKey : float)
  : Z * float :=
  match rest with
  | [] => (minIdx, minKey)
  | s :: rest =>
      if PrimFloat.ltb (Key s) minKey then min_key rest (i + 1) i (Key s)
      else min_key rest (i + 1) minIdx minKey
  end.

Section WithPow.

(** [math.Pow], of the C library. *)
Variable Pow : float -> float -> float.

Definition AddWeighted (wrs : t) (metric : MetricPoint) (weight : float) : exec t :=
  if PrimFloat.leb weight 0%float then Ret wrs
  else
    let '(u, rng') := rand.Float64 (rng wrs) in
    let key := Pow u (PrimFloat.div 1%float weight) in
    let sample := {| Metric := metric; Weight := weight; Key := key |} in
    if Z.of_nat (length (samples wrs)) <? capacity wrs then
      Ret {| capacity := capacity wrs; samples := samples wrs ++ [sample]; rng := rng' |}
    else
      first ← index (samples wrs) 0;
      let '(minIdx, minKey) := min_key (tail (samples wrs)) 1 0 (Key first) in
      if PrimFloat.ltb minKey key then
        samples' ← store (samples wrs) minIdx sample;
        Ret {| capacity := capacity wrs; samples := samples'; rng := rng' |}
      else
        Ret {| capacity := capacity wrs; samples := samples wrs; rng := rng' |}.

End WithPow.

Definition GetWeightedSamples (wrs : t) : list WeightedSample := samples wrs.

End WeightedReservoirSampler.

(** ** internal/sampling: StratifiedSampler *)

Module StratifiedSampler.

(** [StratificationStrategy] is an [int] type with three named values. *)
Definition ProportionalAllocation : Z := 0.
Definition EqualAllocation : Z := 1.
Definition OptimalAllocation : Z := 2.

Record t : Type := mk {
  strata : gmap string ReservoirSampler.t;
  totalCapacity : Z;     (* int *)
  allocation : Z         (* StratificationStrategy *)
}.

Definition NewStratifiedSampler (totalCapacity strategy : Z) : t :=
  {| strata := ∅; totalCapacity := totalCapacity; allocation := strategy |}.

(** The package's own [max] and [min] on [int]. *)
Definition max (a b : Z) : Z := if a >? b then a else b.

Definition min (a b : Z) : Z := if a <? b then a else b.

(** [a / b] on [int]: truncated, wrapping, panicking on a zero divisor. *)
Definition quo_int (a b : Z) : exec Z :=
  if b =? 0 then Panic IntegerDivideByZero else Ret (int64 (Z.quot a b)).

Definition calculateStratumCapacity (ss : t) : exec Z :=
  if allocation ss =? EqualAllocation then
    quo_int (totalCapacity ss) (max 1 (int64 (Z.of_nat (size (strata ss)) + 1)))
  else if allocation ss =? OptimalAllocation then
    quo_int (totalCapacity ss) (max 1 (int64 (Z.of_nat (size (strata ss)) + 1)))
  else
    quo_int (totalCapacity ss) (max 1 (int64 (Z.of_nat (size (strata ss)) + 1))).

(** [fresh] is the generator a reservoir created by this call receives. *)
Definition AddToStratum (ss : t) (stratum : string) (metric : MetricPoint) (fresh : rand.Rand)
  : exec t :=
  ss ← match strata ss !! stratum with
       | Some _ => Ret ss
       | None =>
           capacity ← calculateStratumCapacity ss;
           reservoir ← ReservoirSampler.NewReservoirSampler capacity fresh;
           Ret {| strata := <[stratum := reservoir]> (strata ss);
                  totalCapacity := totalCapacity ss; allocation := allocation ss |}
       end;
  match strata ss !! stratum with
  | Some reservoir =>
      '(reservoir', _) ← ReservoirSampler.Add reservoir metric;
      Ret {| strata := <[stratum := reservoir']> (strata ss);
             totalCapacity := totalCapacity ss; allocation := allocation ss |}
  | None => Panic NilDereference
  end.

Definition GetStratumSamples (ss : t) (stratum : string) : option (list MetricPoint) :=
  match strata ss !! stratum with
  | Some reservoir => Some (ReservoirSampler.GetSamples reservoir)
  | None => None
  end.

(** The order of the names is that of the map iteration, which is
    unspecified in Go; the order of [map_to_list] stands for it. *)
Definition GetAllStrata (ss : t) : list string := (map_to_list (strata ss)).*1.

Definition GetAllSamples (ss : t) : gmap string (list MetricPoint) :=
  ReservoirSampler.GetSamples <$> strata ss.

End StratifiedSampler.

(** ** internal/sampling: WindowStats and AnomalyDetector *)

Module WindowStats.

Record t : Type := mk {
  values : list float;
  timestamps : list Z;
  windowSize : Z;
  sum : float;
  sumSquares : float
}.

Definition NewWindowStats (windowSize : Z) : t :=
  {| values := []; timestamps := []; windowSize := windowSize;
     sum := 0%float; sumSquares := 0%float |}.

(** The index of the first timestamp after [cutoff], and 0 when there is none. *)
Fixpoint keep_from (timestamps : list Z) (cutoff : Z) (i : Z) : Z :=
  match timestamps with
  | [] => 0
  | ts :: timestamps => if cutoff <? ts then i else keep_from timestamps cutoff (i + 1)
  end.

(** [s[n:]] *)
Definition slice_from {A : Type} (s : list A) (n : Z) : exec (list A) :=
  if (n <? 0) || (Z.of_nat (length s) <? n) then Panic IndexOutOfRange
  else Ret (drop (Z.to_nat n) s).

Definition cleanup (ws : t) (currentTime : Z) : exec t :=
  let cutoff := currentTime + - windowSize ws in
  let keepFrom := keep_from (timestamps ws) cutoff 0 in
  if 0 <? keepFrom then
    '(sum, sumSquares) ←
      for_loop (fun i '(sum, sumSquares) =>
                  v ← index (values ws) i;
                  Ret (PrimFloat.sub sum v, PrimFloat.sub sumSquares (PrimFloat.mul v v)))
               (seqZ 0 keepFrom) (sum ws, sumSquares ws);
    values' ← slice_from (values ws) keepFrom;
    timestamps' ← slice_from (timestamps ws) keepFrom;
    Ret {| values := values'; timestamps := timestamps'; windowSize := windowSize ws;
           sum := sum; sumSquares := sumSquares |}
  else Ret ws.

Definition Add (ws : t) (value : float) (timestamp : Z) : exec t :=
  cleanup {| values := values ws ++ [value];
             timestamps := timestamps ws ++ [timestamp];
             windowSize := windowSize ws;
             sum := PrimFloat.add (sum ws) value;
             sumSquares := PrimFloat.add (sumSquares ws) (PrimFloat.mul value value) |}
          timestamp.

Definition GetMean (ws : t) : float :=
  if Z.of_nat (length (values ws)) =? 0 then 0%float
  else PrimFloat.div (sum ws) (Float64.of_int (Z.of_nat (length (values ws)))).

Definition GetVariance (ws : t) : float :=
  if Z.of_nat (length (values ws)) <? 2 then 0%float
  else
    let n := Float64.of_int (Z.of_nat (length (values ws))) in
    let mean := PrimFloat.div (sum ws) n in
    PrimFloat.sub (PrimFloat.div (sumSquares ws) n) (PrimFloat.mul mean mean).

End WindowStats.

Module AnomalyDetector.

Record AnomalyThreshold : Type := {
  MetricName : string;
  UpperBound : float;
  LowerBound : float;
  ZScore : float
}.

Record t : Type := mk { thresholds : gmap string AnomalyThreshold }.

Definition setDefaultThresholds : gmap string AnomalyThreshold :=
  <["cpu_usage" := {| MetricName := "cpu_usage"; UpperBound := 0.9%float;
                      LowerBound := 0%float; ZScore := 3%float |}]>
  (<["memory_usage" := {| MetricName := "memory_usage"; UpperBound := 0.85%float;
                          LowerBound := 0%float; ZScore := 3%float |}]>
  (<["disk_usage" := {| MetricName := "disk_usage"; UpperBound := 0.9%float;
                        LowerBound := 0%float; ZScore := 2.5%float |}]>
  (<["network_latency" := {| MetricName := "network_latency"; UpperBound := 1000%float;
                             LowerBound := 0%float; ZScore := 3%float |}]> ∅))).

Definition NewAnomalyDetector : t := {| thresholds := setDefaultThresholds |}.

Definition IsAnomaly (ad : t) (metric : MetricPoint) : bool :=
  if metrics.IsAnomaly metric then true
  else match thresholds ad !! metrics.MetricName metric with
       | Some threshold =>
           PrimFloat.ltb (UpperBound threshold) (Value metric)
           || PrimFloat.ltb (Value metric) (LowerBound threshold)
       | None => false
       end.

End AnomalyDetector.

(** ** internal/sampling: AdaptiveSampler *)

Module AdaptiveSampler.

Record SamplingConfig : Type := {
  BaseRate : float;
  AnomalyRate : float;
  WindowSize : Z;        (* time.Duration *)
  ReservoirSize : Z;     (* int *)
  StratumWeights : gmap string float
}.

Record t : Type := mk {
  config : SamplingConfig;
  reservoirs : gmap string ReservoirSampler.t;
  statistics : gmap string WindowStats.t;
  anomalyDetector : AnomalyDetector.t;
  rng : rand.Rand;
  totalProcessed : Z;    (* uint64 *)
  totalSampled : Z       (* uint64 *)
}.

Definition NewAdaptiveSampler (config : SamplingConfig) (rng : rand.Rand) : t :=
  {| config := config; reservoirs := ∅; statistics := ∅;
     anomalyDetector := AnomalyDetector.NewAnomalyDetector;
     rng := rng; totalProcessed := 0; totalSampled := 0 |}.

Definition getStratum (metric : MetricPoint) : string :=
  ClusterID metric ++ "/" ++ Namespace metric ++ "/" ++ MetricName metric.

Definition calculateSamplingRate (s : t) (metric : MetricPoint) : float :=
  let baseRate := BaseRate (config s) in
  let baseRate :=
    if AnomalyDetector.IsAnomaly (anomalyDetector s) metric
    then Float64.Max baseRate (AnomalyRate (config s)) else baseRate in
  let stratum := getStratum metric in
  let baseRate :=
    match StratumWeights (config s) !! stratum with
    | Some weight => PrimFloat.mul baseRate weight
    | None => baseRate
    end in
  let baseRate :=
    match statistics s !! stratum with
    | Some stats =>
        let variance := WindowStats.GetVariance stats in
        PrimFloat.mul baseRate (PrimFloat.add 1%float (PrimFloat.div variance 100%float))
    | None => baseRate
    end in
  let baseRate :=
    if String.eqb (MetricName metric) "cpu_usage" || String.eqb (MetricName metric) "memory_usage"
    then (if PrimFloat.ltb 0.8%float (Value metric)
          then PrimFloat.mul baseRate 2%float else baseRate)
    else baseRate in
  Float64.Min (Float64.Max baseRate 0.001%float) 1%float.

Definition ShouldSample (s : t) (metric : MetricPoint) : t * bool :=
  let totalProcessed := uint64 (totalProcessed s + 1) in
  let samplingRate := calculateSamplingRate s metric in
  let '(u, rng') := rand.Float64 (rng s) in
  let shouldSample := PrimFloat.ltb u samplingRate in
  ({| config := config s; reservoirs := reservoirs s; statistics := statistics s;
      anomalyDetector := anomalyDetector s; rng := rng';
      totalProcessed := totalProcessed;
      totalSampled := if shouldSample then uint64 (totalSampled s + 1)
                      else totalSampled s |},
   shouldSample).

Definition updateStatistics (s : t) (metric : MetricPoint) : exec t :=
  let stratum := getStratum metric in
  let stats :=
    match statistics s !! stratum with
    | Some stats => stats
    | None => WindowStats.NewWindowStats (WindowSize (config s))
    end in
  stats' ← WindowStats.Add stats (Value metric) (Timestamp metric);
  Ret {| config := config s; reservoirs := reservoirs s;
         statistics := <[stratum := stats']> (statistics s);
         anomalyDetector := anomalyDetector s; rng := rng s;
         totalProcessed := totalProcessed s; totalSampled := totalSampled s |}.

(** [fresh] is the generator a reservoir created by this call receives. *)
Definition getOrCreateReservoir (s : t) (stratum : string) (fresh : rand.Rand)
  : exec (t * ReservoirSampler.t) :=
  match reservoirs s !! stratum with
  | Some reservoir => Ret (s, reservoir)
  | None =>
      reservoir ← ReservoirSampler.NewReservoirSampler (ReservoirSize (config s)) fresh;
      Ret ({| config := config s;
              reservoirs := <[stratum := reservoir]> (reservoirs s);
              statistics := statistics s;
              anomalyDetector := anomalyDetector s; rng := rng s;
              totalProcessed := totalProcessed s; totalSampled := totalSampled s |},
           reservoir)
  end.

(** Returns the sampler, the surviving sample ([None] for [nil]) and the
    flag [sampled != nil]. *)
Definition Sample (s : t) (metric : MetricPoint) (fresh : rand.Rand)
  : exec (t * option MetricPoint * bool) :=
  let '(s, shouldSample) := ShouldSample s metric in
  if negb shouldSample then Ret (s, None, false)
  else
    s ← updateStatistics s metric;
    let stratum := getStratum metric in
    '(s, reservoir) ← getOrCreateReservoir s stratum fresh;
    '(reservoir', sampled) ← ReservoirSampler.Add reservoir metric;
    (* the reservoir is reached through the pointer held in the map *)
    let s := {| config := config s;
                reservoirs := <[stratum := reservoir']> (reservoirs s);
                statistics := statistics s;
                anomalyDetector := anomalyDetector s; rng := rng s;
                totalProcessed := totalProcessed s; totalSampled := totalSampled s |} in
    Ret (s, sampled, bool_decide (is_Some sampled)).

Definition GetEffectiveSamplingRate (s : t) : float :=
  if totalProcessed s =? 0 then BaseRate (config s)
  else PrimFloat.div (Float64.of_uint64 (totalSampled s))
                     (Float64.of_uint64 (totalProcessed s)).

Definition GetSamples (s : t) (stratum : string) : option (list MetricPoint) :=
  match reservoirs s !! stratum with
  | Some reservoir => Some (ReservoirSampler.GetSamples reservoir)
  | None => None
  end.

End AdaptiveSampler.

(** ** strings, sort and math, as far as the engine uses them *)

Module strings.

(** [strings.Index]: the byte index of the first instance of [substr], or -1. *)
Definition Index (s substr : string) : Z :=
  match String.index 0 substr s with
  | Some i => Z.of_nat i
  | None => -1
  end.

Definition Contains (s substr : string) : bool := 0 <=? Index s substr.

(** [s[lo:hi]], for [0 <= lo <= hi <= len(s)]. *)
Definition slice (s : string) (lo hi : Z) : string :=
  String.substring (Z.to_nat lo) (Z.to_nat (hi - lo)) s.

End strings.

Module sort.

(** The order of [sort.Float64s]: NaN values first, then ascending. *)
Definition less (x y : float) : bool :=
  PrimFloat.ltb x y || (is_nan x && negb (is_nan y)).

Fixpoint insert (x : float) (l : list float) : list float :=
  match l with
  | [] => [x]
  | y :: l' => if less y x then y :: insert x l' else x :: l
  end.

(** [sort.Float64s].  The library's sort is not stable; values that compare
    equal (zeros of either sign, NaNs) may come out in any order, of which
    this is one. *)
Definition Float64s (l : list float) : list float := fold_right insert [] l.

End sort.

Module math.

(** The value [m * 2^e] of a finite float, as sign, mantissa and exponent. *)
Definition finite_parts (x : float) : option (Z * Z) :=
  match Prim2SF x with
  | S754_zero _ => Some (0, 0)
  | S754_finite s m e => Some (if s then Z.neg m else Z.pos m, e)
  | _ => None
  end.

(** The integer [math.Floor x] denotes, when [x] is finite.  [Z.shiftl] by a
    negative amount divides, rounding down. *)
Definition FloorZ (x : float) : option Z :=
  match finite_parts x with
  | Some (m, e) => Some (Z.shiftl m e)
  | None => None
  end.

Definition CeilZ (x : float) : option Z :=
  match finite_parts x with
  | Some (m, e) => Some (- Z.shiftl (- m) e)
  | None => None
  end.

(** [int(f)] for an integral [f]: the integer when it fits 64 bits; otherwise,
    and for NaN and infinities, the value amd64 yields, the smallest int. *)
Definition to_int (z : option Z) : Z :=
  match z with
  | Some z => if (- 2 ^ 63 <=? z) && (z <? 2 ^ 63) then z else - 2 ^ 63
  | None => - 2 ^ 63
  end.

End math.

(** ** time, and internal/sampling: TimeBasedSampler *)

Module time.

Definition Second : Z := 1000000000.

(** [t.Unix()]: the whole seconds since 1970 of an instant given in
    nanoseconds since the zero time, the start of year 1. *)
Definition Unix (t : Z) : Z := t / Second - 62135596800.

(** [d.Seconds()]: [float64(d / Second) + float64(d % Second) / 1e9]. *)
Definition Seconds (d : Z) : float :=
  PrimFloat.add (Float64.of_int (Z.quot d Second))
                (PrimFloat.div (Float64.of_int (Z.rem d Second)) 1000000000%float).

End time.

Module TimeBasedSampler.

Record ReservoirConfig : Type := { Capacity : Z }.

Record t : Type := mk {
  windowSize : Z;                         (* time.Duration *)
  windows : gmap Z ReservoirSampler.t;    (* map[int64]*ReservoirSampler *)
  maxWindows : Z;                         (* int *)
  samplerConfig : ReservoirConfig
}.

Definition NewTimeBasedSampler (windowSize maxWindows : Z) (config : ReservoirConfig) : t :=
  {| windowSize := windowSize; windows := ∅; maxWindows := maxWindows;
     samplerConfig := config |}.

(** [int64(f)]: truncation toward zero (see [math.to_int] for the values out
    of range). *)
Definition trunc_int64 (f : float) : Z :=
  math.to_int (if PrimFloat.ltb f 0 then math.CeilZ f else math.FloorZ f).

(** [a / b] on [int64]: truncated, wrapping, panicking on a zero divisor. *)
Definition quo_int64 (a b : Z) : exec Z :=
  if b =? 0 then Panic IntegerDivideByZero else Ret (int64 (Z.quot a b)).

(** [timestamp.Unix() / int64(tbs.windowSize.Seconds())] *)
Definition window_key (tbs : t) (timestamp : Z) : exec Z :=
  quo_int64 (time.Unix timestamp) (trunc_int64 (time.Seconds (windowSize tbs))).

(** [if keys[i] < keys[j] { keys[i], keys[j] = keys[j], keys[i] }] *)
Definition swap_if_less (i j : Z) (keys : list Z) : exec (list Z) :=
  x ← index keys i;
  y ← index keys j;
  if x <? y then
    keys ← store keys i y;
    store keys j x
  else Ret keys.

(** The two nested loops that order the keys, largest first. *)
Definition sort_descending (keys : list Z) : exec (list Z) :=
  let n := Z.of_nat (length keys) in
  for_loop (fun i keys => for_loop (swap_if_less i) (seqZ (i + 1) (n - (i + 1))) keys)
           (seqZ 0 (n - 1)) keys.

(** The keys come from the iteration over the map, whose order is
    unspecified in Go; the order of [map_to_list] stands for it. *)
Definition cleanupOldWindows (tbs : t) : exec t :=
  keys ← sort_descending ((map_to_list (windows tbs)).*1);
  let n := Z.of_nat (length keys) in
  let toRemove := int64 (int64 (n - maxWindows tbs) + 1) in
  windows' ← for_loop (fun i windows => key ← index keys (n - 1 - i); Ret (delete key windows))
                      (seqZ 0 (Z.min toRemove n)) (windows tbs);
  Ret {| windowSize := windowSize tbs; windows := windows';
         maxWindows := maxWindows tbs; samplerConfig := samplerConfig tbs |}.

(** [fresh] is the generator a reservoir created by this call receives. *)
Definition Add (tbs : t) (metric : MetricPoint) (fresh : rand.Rand) : exec t :=
  windowKey ← window_key tbs (Timestamp metric);
  tbs ← match windows tbs !! windowKey with
        | Some _ => Ret tbs
        | None =>
            reservoir ← ReservoirSampler.NewReservoirSampler
                          (Capacity (samplerConfig tbs)) fresh;
            let tbs := {| windowSize := windowSize tbs;
                          windows := <[windowKey := reservoir]> (windows tbs);
                          maxWindows := maxWindows tbs;
                          samplerConfig := samplerConfig tbs |} in
            if maxWindows tbs <? Z.of_nat (size (windows tbs))
            then cleanupOldWindows tbs else Ret tbs
        end;
  match windows tbs !! windowKey with
  | Some reservoir =>
      '(reservoir', _) ← ReservoirSampler.Add reservoir metric;
      Ret {| windowSize := windowSize tbs;
             windows := <[windowKey := reservoir']> (windows tbs);
             maxWindows := maxWindows tbs; samplerConfig := samplerConfig tbs |}
  | None => Panic NilDereference
  end.

Definition GetWindowSamples (tbs : t) (timestamp : Z) : exec (option (list MetricPoint)) :=
  windowKey ← window_key tbs timestamp;
  match windows tbs !! windowKey with
  | Some reservoir => Ret (Some (ReservoirSampler.GetSamples reservoir))
  | None => Ret None
  end.

Definition GetRecentSamples (tbs : t) (numWindows : Z) : exec (list MetricPoint) :=
  keys ← sort_descending ((map_to_list (windows tbs)).*1);
  for_loop (fun i result =>
              key ← index keys i;
              match windows tbs !! key with
              | Some reservoir => Ret (result ++ ReservoirSampler.GetSamples reservoir)
              | None => Ret result
              end)
           (seqZ 0 (StratifiedSampler.min numWindows (Z.of_nat (length keys)))) [].

End TimeBasedSampler.

(** ** internal/engine: QueryEngine *)

Module QueryEngine.

Record QueryEngineStats : Type := {
  TotalQueries : Z;      (* uint64 *)
  ApproxQueries : Z;     (* uint64 *)
  AvgLatency : Z;        (* time.Duration *)
  TotalSamples : Z;      (* uint64 *)
  ErrorRate : float;
  LastUpdateTime : Z
}.

Record QueryEngineConfig : Type := {
  HLLPrecision : Z;      (* uint8 *)
  CMSWidth : Z;          (* uint32 *)
  CMSDepth : Z;          (* uint32 *)
  BloomSize : Z;         (* uint32 *)
  BloomHashes : Z;       (* uint32 *)
  SamplingConfig : AdaptiveSampler.SamplingConfig
}.

Record t : Type := mk {
  hll : HyperLogLog.t;
  cms : CountMinSketch.t;
  bloom : BloomFilter.t;
  sampler : AdaptiveSampler.t;
  samples : gmap string (list MetricPoint);
  stats : QueryEngineStats
}.

(** [now] is the clock reading and [rng] the generator of the sampler. *)
Definition NewQueryEngine (config : QueryEngineConfig) (now : Z) (rng : rand.Rand) : exec t :=
  hll ← HyperLogLog.NewHyperLogLog (HLLPrecision config);
  Ret {| hll := hll;
         cms := CountMinSketch.NewCountMinSketch (CMSWidth config) (CMSDepth config);
         bloom := BloomFilter.NewBloomFilter (BloomSize config) (BloomHashes config);
         sampler := AdaptiveSampler.NewAdaptiveSampler (SamplingConfig config) rng;
         samples := ∅;
         stats := {| TotalQueries := 0; ApproxQueries := 0; AvgLatency := 0;
                     TotalSamples := 0; ErrorRate := 0%float; LastUpdateTime := now |} |}.

(** [fmt.Sprintf("%s/%s/%s/%s", ...)] *)
Definition getMetricKey (metric : MetricPoint) : string :=
  ClusterID metric ++ "/" ++ Namespace metric ++ "/" ++ PodName metric ++ "/"
  ++ MetricName metric.

Definition updateDataStructures (qe : t) (metric : MetricPoint) : exec t :=
  let key := getMetricKey metric in
  hll' ← HyperLogLog.Add (hll qe) (bytes_of_string key);
  cms' ← CountMinSketch.Update (cms qe) (bytes_of_string key) 1;
  bloom' ← BloomFilter.Add (bloom qe) (bytes_of_string key);
  Ret {| hll := hll'; cms := cms'; bloom := bloom'; sampler := sampler qe;
         samples := samples qe; stats := stats qe |}.

(** The sample list of [key] after appending [sampled], cut to its last 1000
    entries. *)
Definition append_capped (l : list MetricPoint) (sampled : MetricPoint) : list MetricPoint :=
  let l := l ++ [sampled] in
  if 1000 <? Z.of_nat (length l) then drop (length l - 1000) l else l.

Definition ProcessMetric (qe : t) (metric : MetricPoint) (fresh : rand.Rand) : exec t :=
  '(sampler', sampled, shouldSample) ← AdaptiveSampler.Sample (sampler qe) metric fresh;
  let qe := {| hll := hll qe; cms := cms qe; bloom := bloom qe; sampler := sampler';
               samples := samples qe; stats := stats qe |} in
  qe ← match shouldSample, sampled with
       | true, Some sampled =>
           qe ← updateDataStructures qe sampled;
           let key := getMetricKey sampled in
           Ret {| hll := hll qe; cms := cms qe; bloom := bloom qe;
                  sampler := sampler qe;
                  samples := <[key := append_capped (default [] (samples qe !! key)) sampled]>
                               (samples qe);
                  stats := stats qe |}
       | _, _ => Ret qe
       end;
  Ret {| hll := hll qe; cms := cms qe; bloom := bloom qe; sampler := sampler qe;
         samples := samples qe;
         stats := {| TotalQueries := TotalQueries (stats qe);
                     ApproxQueries := ApproxQueries (stats qe);
                     AvgLatency := AvgLatency (stats qe);
                     TotalSamples := uint64 (TotalSamples (stats qe) + 1);
                     ErrorRate := ErrorRate (stats qe);
                     LastUpdateTime := LastUpdateTime (stats qe) |} |}.

(** One entry of [request.Filters] against the sample.  Keys other than the
    four facets do not constrain. *)
Definition matches_filter (metric : MetricPoint) (entry : string * string) : bool :=
  let '(key, value) := entry in
  if String.eqb key "cluster_id" then String.eqb (ClusterID metric) value
  else if String.eqb key "namespace" then String.eqb (Namespace metric) value
  else if String.eqb key "metric_name" then String.eqb (MetricName metric) value
  else if String.eqb key "pod_name" then String.eqb (PodName metric) value
  else true.

(** The zero [time.Time] is instant 0. *)
Definition matchesFilters (metric : MetricPoint) (request : QueryRequest) : bool :=
  if negb (Start (TimeRange_ request) =? 0)
     && (Timestamp metric <? Start (TimeRange_ request)) then false
  else if negb (End_ (TimeRange_ request) =? 0)
          && (End_ (TimeRange_ request) <? Timestamp metric) then false
  else forallb (matches_filter metric) (map_to_list (Filters request)).

(** The iteration order over the map of samples is unspecified in Go; the
    order of [map_to_list] stands for it. *)
Definition getAllSamples (qe : t) : list MetricPoint :=
  concat ((map_to_list (samples qe)).*2).

Definition getFilteredSamples (qe : t) (request : QueryRequest) : list MetricPoint :=
  List.filter (fun sample => matchesFilters sample request) (getAllSamples qe).

Section WithParseFloat.

(** [strconv.ParseFloat(s, 64)]: the value, or [None] when it reports an
    error. *)
Variable ParseFloat : string -> option float.

Definition extractPercentileValue (query : string) : float :=
  if strings.Contains query "PERCENTILE" then
    let start := strings.Index query "(" + 1 in
    let end_ := strings.Index query ")" in
    if (0 <? start) && (start <? end_) then
      match ParseFloat (strings.slice query start end_) with
      | Some val => val
      | None => 95%float
      end
    else 95%float
  else 95%float.

(** The result and the error of the Go function are a pair; [None] is [nil]. *)
Definition executePercentile (qe : t) (request : QueryRequest)
  : exec (option QueryResult * option error) :=
  let samples := getFilteredSamples qe request in
  if Z.of_nat (length samples) =? 0 then
    Ret (Some {| QR_ID := ID request; QR_Query := Query request; Result := Nil;
                 Error := None; QR_Confidence := None; SampleSize := 0;
                 ProcessingTime := 0; IsApproximate := false; QR_Timestamp := 0 |},
         None)
  else
    let percentileValue := extractPercentileValue (Query request) in
    if PrimFloat.ltb percentileValue 0%float || PrimFloat.ltb 100%float percentileValue then
      Ret (None, Some (ErrInvalidPercentile percentileValue))
    else
      let values := sort.Float64s (Value <$> samples) in
      let index_ := PrimFloat.mul (PrimFloat.div percentileValue 100%float)
                      (Float64.of_int (Z.of_nat (length values) - 1)) in
      let lowerIndex := math.to_int (math.FloorZ index_) in
      let upperIndex := math.to_int (math.CeilZ index_) in
      percentileResult ←
        (if lowerIndex =? upperIndex then index values lowerIndex
         else
           let weight := PrimFloat.sub index_ (Float64.of_int lowerIndex) in
           lo ← index values lowerIndex;
           hi ← index values upperIndex;
           Ret (PrimFloat.add (PrimFloat.mul lo (PrimFloat.sub 1%float weight))
                              (PrimFloat.mul hi weight)));
      let result := {| PR_Percentile := percentileValue; PR_Value := percentileResult;
                       PR_SampleSize := Z.of_nat (length samples) |} in
      Ret (Some {| QR_ID := ID request; QR_Query := Query request;
                   Result := PercentilePtr result;
                   Error := None; QR_Confidence := None;
                   SampleSize := Z.of_nat (length samples);
                   ProcessingTime := 0; IsApproximate := true; QR_Timestamp := 0 |},
           None).

End WithParseFloat.

Section WithHandlers.

Variable ParseFloat : string -> option float.

(** The handlers of the six other query types.  They read the engine and
    are left open: what is stated below holds whatever they do. *)
Variables executeCountDistinct executeSum executeAverage executeTopK
          executeMembership executeFrequencyCount
  : t -> QueryRequest -> exec (option QueryResult * option error).

Definition processQuery (qe : t) (request : QueryRequest)
  : exec (option QueryResult * option error) :=
  if String.eqb (QueryType request) metrics.CountDistinct then executeCountDistinct qe request
  else if String.eqb (QueryType request) metrics.Sum then executeSum qe request
  else if String.eqb (QueryType request) metrics.Average then executeAverage qe request
  else if String.eqb (QueryType request) metrics.Percentile then
    executePercentile ParseFloat qe request
  else if String.eqb (QueryType request) metrics.TopK then executeTopK qe request
  else if String.eqb (QueryType request) metrics.Membership then executeMembership qe request
  else if String.eqb (QueryType request) metrics.FrequencyCount then
    executeFrequencyCount qe request
  else Ret (None, Some (ErrUnsupportedQueryType (QueryType request))).

(** [a / b] on [int64]: truncated, wrapping, panicking on a zero divisor. *)
Definition div_int64 (a b : Z) : exec Z :=
  if b =? 0 then Panic IntegerDivideByZero else Ret (int64 (Z.quot a b)).

(** [processingTime] is what [time.Since(startTime)] reads after the query
    has run and [now] what the final [time.Now()] reads. *)
Definition ExecuteQuery (qe : t) (request : QueryRequest) (processingTime now : Z)
  : exec (t * option QueryResult * option error) :=
  let st := stats qe in
  let st := {| TotalQueries := uint64 (TotalQueries st + 1);
               ApproxQueries := ApproxQueries st; AvgLatency := AvgLatency st;
               TotalSamples := TotalSamples st; ErrorRate := ErrorRate st;
               LastUpdateTime := LastUpdateTime st |} in
  let qe := {| hll := hll qe; cms := cms qe; bloom := bloom qe; sampler := sampler qe;
               samples := samples qe; stats := st |} in
  '(result, err) ← processQuery qe request;
  match err with
  | Some err => Ret (qe, None, Some err)
  | None =>
      avg ← div_int64
               (int64 (int64 (AvgLatency st * int_of_uint64 (uint64 (TotalQueries st - 1)))
                       + processingTime))
               (int_of_uint64 (TotalQueries st));
      match result with
      | None => Panic NilDereference
      | Some result =>
          let st := {| TotalQueries := TotalQueries st;
                       ApproxQueries := if IsApproximate result
                                        then uint64 (ApproxQueries st + 1)
                                        else ApproxQueries st;
                       AvgLatency := avg;
                       TotalSamples := TotalSamples st; ErrorRate := ErrorRate st;
                       LastUpdateTime := LastUpdateTime st |} in
          Ret ({| hll := hll qe; cms := cms qe; bloom := bloom qe; sampler := sampler qe;
                  samples := samples qe; stats := st |},
               Some {| QR_ID := QR_ID result; QR_Query := QR_Query result;
                       Result := Result result; Error := Error result;
                       QR_Confidence := QR_Confidence result;
                       SampleSize := SampleSize result;
                       ProcessingTime := processingTime;
                       IsApproximate := IsApproximate result;
                       QR_Timestamp := now |},
               None)
      end
  end.

End WithHandlers.

End QueryEngine.

(** * Vocabulary of the statements

    Invariants, streams of operations and the concrete states used in the
    statements below. *)

Section HyperLogLogTerms.
Import HyperLogLog.

(** The invariant the constructor establishes and [Add] keeps. *)
Definition hll_wf (hll : HyperLogLog.t) : Prop :=
  4 <= precision hll <= 16 /\
  length (buckets hll) = Z.to_nat (2 ^ precision hll).

(** Position of the leading one bit of [r], read as a field of [width] bits,
    counted from the most significant end starting at 1. *)
Definition leading_one_position (width r : Z) : Z := width - Z.log2 r.

(** The value the claim as first stated would write when the remaining bits
    are not all zero: one more than the 1-based position of their leading one
    bit. *)
Definition stated_rank (p rest : Z) : Z := 1 + leading_one_position (64 - p) rest.

End HyperLogLogTerms.

Section BloomFilterTerms.
Import BloomFilter.

(** Adding items one after the other. *)
Fixpoint add_all (bf : BloomFilter.t) (items : list (list byte)) : exec BloomFilter.t :=
  match items with
  | [] => Ret bf
  | item :: items => bf' ← BloomFilter.Add bf item; add_all bf' items
  end.

(** The shape the constructor gives a filter with at least one bit. *)
Definition bloom_wf (bf : BloomFilter.t) : Prop :=
  0 < size bf /\ length (bits bf) = Z.to_nat (size bf).

(** Bit [i] of the vector is set. *)
Definition bit_set (bs : list bool) (i : Z) : Prop :=
  0 <= i /\ bs !! Z.to_nat i = Some true.

(** A filter of four bits and one hash function that holds one item. *)
Definition one_item_filter : BloomFilter.t :=
  BloomFilter.mk [true; false; false; false] 4 1 1.

End BloomFilterTerms.

(** The slice of length [n] whose element [i] is [f i]. *)
Definition tabulate {A : Type} (n : Z) (f : Z -> A) : list A := f <$> seqZ 0 n.

Section CountMinSketchTerms.
Import CountMinSketch.

(** A stream of updates: the item and the count added for it. *)
Definition update_all : CountMinSketch.t -> list (list byte * Z) -> exec CountMinSketch.t :=
  fix go cms ops :=
    match ops with
    | [] => Ret cms
    | (item, cnt) :: ops => cms' ← CountMinSketch.Update cms item cnt; go cms' ops
    end.

(** The true count of [item]: the sum of the counts applied for it. *)
Fixpoint true_count (item : list byte) (ops : list (list byte * Z)) : Z :=
  match ops with
  | [] => 0
  | (item', cnt) :: ops =>
      (if decide (item' = item) then cnt else 0) + true_count item ops
  end.

(** The sum of all counts of the stream. *)
Fixpoint stream_total (ops : list (list byte * Z)) : Z :=
  match ops with
  | [] => 0
  | (_, cnt) :: ops => cnt + stream_total ops
  end.

(** The column [getBucket] computes for [hash] in row [i] of a sketch built by
    the constructor with width [w]. *)
Definition bucket_of (w i hash : Z) : Z :=
  uint32 (uint64 (uint64 (uint32 (uint32 (i * 2) + 1) * hash) + uint32 (uint32 (i * 3) + 7))
          mod w).

(** What the stream adds to cell [(i, j)]. *)
Fixpoint cell_sum (w i j : Z) (ops : list (list byte * Z)) : Z :=
  match ops with
  | [] => 0
  | (item, cnt) :: ops =>
      (if bucket_of w i (CountMinSketch.hash item) =? j then cnt else 0) + cell_sum w i j ops
  end.

(** The sketch has the shape and hash constants the constructor gives it and
    holds [cells i j] in cell [(i, j)]. *)
Definition cms_holds (w d : Z) (cells : Z -> Z -> Z) (cms : CountMinSketch.t) : Prop :=
  width cms = w /\ depth cms = d /\
  hashA cms = hashA (NewCountMinSketch w d) /\
  hashB cms = hashB (NewCountMinSketch w d) /\
  count cms = tabulate d (fun i => tabulate w (cells i)).

(** The cells after rows [0 .. k-1] have been updated. *)
Definition bumped (w k hash cnt : Z) (cells : Z -> Z -> Z) (i j : Z) : Z :=
  if (i <? k) && (j =? bucket_of w i hash) then uint32 (cells i j + cnt) else cells i j.

End CountMinSketchTerms.

Section ReservoirSamplerTerms.
Import ReservoirSampler.

(** Feeding a stream of records to a reservoir. *)
Fixpoint add_samples (rs : ReservoirSampler.t) (stream : list MetricPoint)
  : exec ReservoirSampler.t :=
  match stream with
  | [] => Ret rs
  | metric :: stream => r ← ReservoirSampler.Add rs metric; add_samples r.1 stream
  end.

(** Feeding a stream of records to the adaptive sampler; each record comes
    with the generator a reservoir created for it would receive. *)
Fixpoint sample_all (s : AdaptiveSampler.t) (stream : list (MetricPoint * rand.Rand))
  : exec AdaptiveSampler.t :=
  match stream with
  | [] => Ret s
  | (metric, fresh) :: stream =>
      r ← AdaptiveSampler.Sample s metric fresh; sample_all r.1.1 stream
  end.

(** Every reservoir of the sampler has the configured capacity and holds no
    more samples than that. *)
Definition reservoirs_bounded (s : AdaptiveSampler.t) : Prop :=
  map_Forall (fun _ rs =>
                ReservoirSampler.capacity rs = AdaptiveSampler.ReservoirSize (AdaptiveSampler.config s) /\
                ReservoirSampler.Size rs <= ReservoirSampler.capacity rs)
             (AdaptiveSampler.reservoirs s).

End ReservoirSamplerTerms.

Section IngestTerms.
Import QueryEngine.

(** The sketches of the engine have the shape their constructors give them,
    with a positive width and at least one bit. *)
Definition engine_wf (qe : QueryEngine.t) : Prop :=
  hll_wf (hll qe) /\
  bloom_wf (bloom qe) /\
  0 < CountMinSketch.width (cms qe) < 2 ^ 32 /\
  0 <= CountMinSketch.depth (cms qe) /\
  exists cells,
    cms_holds (CountMinSketch.width (cms qe)) (CountMinSketch.depth (cms qe)) cells (cms qe).

(** A generator all of whose raw draws are [x]. *)
Definition constant_rand (x : Z) : rand.Rand := rand.mk (fun _ => x) 0.

(** A CPU reading of 50% for a pod of stratum c1/default/cpu_usage. *)
Definition cpu_metric (pod : string) : MetricPoint :=
  {| Timestamp := 1000; ClusterID := "c1"; Namespace := "default"; PodName := pod;
     ContainerName := "main"; MetricName := "cpu_usage"; Value := 0.5%float;
     Unit := "percent"; Labels := ∅ |}.

(** Every record is admitted (rate 1), each stratum keeps one sample. *)
Definition small_config : QueryEngineConfig :=
  {| HLLPrecision := 4; CMSWidth := 8; CMSDepth := 2; BloomSize := 64; BloomHashes := 2;
     SamplingConfig :=
       {| AdaptiveSampler.BaseRate := 1%float; AdaptiveSampler.AnomalyRate := 1%float;
          AdaptiveSampler.WindowSize := 3600000000000;
          AdaptiveSampler.ReservoirSize := 1;
          AdaptiveSampler.StratumWeights := ∅ |} |}.

(** The state [NewQueryEngine small_config 0 (constant_rand 0)] returns. *)
Definition small_engine : QueryEngine.t :=
  {| hll := HyperLogLog.mk 4 16 (replicate 16%nat 0) (HyperLogLog.calculateAlpha 16);
     cms := CountMinSketch.NewCountMinSketch 8 2;
     bloom := BloomFilter.NewBloomFilter 64 2;
     sampler := AdaptiveSampler.NewAdaptiveSampler (SamplingConfig small_config)
                  (constant_rand 0);
     samples := ∅;
     stats := {| TotalQueries := 0; ApproxQueries := 0; AvgLatency := 0;
                 TotalSamples := 0; ErrorRate := 0%float; LastUpdateTime := 0 |} |}.

(** A sampler with the default rates (base 0.05, anomaly 0.5) that has
    processed nothing. *)
Definition fresh_sampler : AdaptiveSampler.t :=
  AdaptiveSampler.NewAdaptiveSampler
    {| AdaptiveSampler.BaseRate := 0.05%float; AdaptiveSampler.AnomalyRate := 0.5%float;
       AdaptiveSampler.WindowSize := 3600000000000;
       AdaptiveSampler.ReservoirSize := 10000;
       AdaptiveSampler.StratumWeights := ∅ |} (constant_rand 0).

End IngestTerms.

Section QueryTerms.
Import QueryEngine.

(** The value of a string of decimal digits. *)
Fixpoint digits_value (s : string) (acc : Z) : option Z :=
  match s with
  | EmptyString => Some acc
  | String c s =>
      let d := Z.of_nat (nat_of_ascii c) - 48 in
      if (0 <=? d) && (d <=? 9) then digits_value s (acc * 10 + d) else None
  end.

(** A parser that agrees with [strconv.ParseFloat] on decimal integer
    literals of 1 to 15 digits with an optional minus sign, which convert
    exactly, and rejects every other text.  It stands for the library
    function in the concrete runs. *)
Definition parse_integer_literal (s : string) : option float :=
  let parse digits :=
    if (1 <=? String.length digits)%nat && (String.length digits <=? 15)%nat
    then digits_value digits 0 else None in
  match s with
  | String "-" digits => (fun z => PrimFloat.opp (Float64.of_int z)) <$> parse digits
  | _ => Float64.of_int <$> parse s
  end.

(** The same parser, which accepts the text [NaN] as well, as
    [strconv.ParseFloat] does. *)
Definition parse_literal_or_nan (s : string) : option float :=
  if String.eqb s "NaN" then Some nan else parse_integer_literal s.

(** A handler that is never reached by a percentile request. *)
Definition no_handler (qe : QueryEngine.t) (request : QueryRequest)
  : exec (option QueryResult * option error) :=
  Panic NilDereference.

(** A percentile request with the given text, no time range and no filter. *)
Definition percentile_request (query : string) : QueryRequest :=
  {| ID := "q1"; Query := query; QueryType := metrics.Percentile;
     TimeRange_ := {| Start := 0; End_ := 0 |}; Filters := ∅;
     ErrorBound := 0%float; Confidence := 0%float |}.

(** [small_engine] holding one sample. *)
Definition engine_with_sample : QueryEngine.t :=
  {| hll := hll small_engine; cms := cms small_engine; bloom := bloom small_engine;
     sampler := sampler small_engine;
     samples := {[ getMetricKey (cpu_metric "pod-1") := [cpu_metric "pod-1"] ]};
     stats := stats small_engine |}.

End QueryTerms.

Section HyperLogLogStreamTerms.
Import HyperLogLog.

(** Adding the items of a stream one after the other. *)
Fixpoint hll_add_all (hll : HyperLogLog.t) (items : list (list byte)) : exec HyperLogLog.t :=
  match items with
  | [] => Ret hll
  | item :: items => hll' ← HyperLogLog.Add hll item; hll_add_all hll' items
  end.

(** The sketch of a stream: a new sketch to which the items are added. *)
Definition hll_of_stream (p : Z) (items : list (list byte)) : exec HyperLogLog.t :=
  hll ← NewHyperLogLog p; hll_add_all hll items.

(** The register [Add] selects for [data] at precision [p], and the value it
    offers to that register: the two expressions of the body of [Add]. *)
Definition register_of (p : Z) (data : list byte) : Z :=
  shr64 (hashBytes data) (uint8 (64 - p)).

Definition rank_of (p : Z) (data : list byte) : Z :=
  let w := shl64 (hashBytes data) p in
  if negb (w =? 0) then uint8 (uint8 (countLeadingZeros w) + 1) else 1.

(** The value of register [i] after the stream, from the value [old]. *)
Definition stream_rank (p : Z) (items : list (list byte)) (i old : Z) : Z :=
  fold_left (fun acc data => if i =? register_of p data then Z.max acc (rank_of p data) else acc)
            items old.

(** The shape the constructor gives a sketch, with the register count the
    loop of [Merge] runs to. *)
Definition hll_built (hll : HyperLogLog.t) : Prop :=
  hll_wf hll /\ m hll = 2 ^ precision hll.

End HyperLogLogStreamTerms.

(** The precision the constructor puts into effect for a requested [p]. *)
Definition effective_precision (p : Z) : Z :=
  if (p <? 4) || (p >? 16) then 14 else p.

Section HyperLogLogMergeTerms.
Import HyperLogLog.

(** The sketches of precision 4 of the streams abc, bar and kube, ab, an
    empty sketch of precision 5, and a heap that holds them at addresses 1, 2
    and 3 with no lock taken. *)
Definition sketch_abc_bar : HyperLogLog.t :=
  HyperLogLog.mk 4 16 [7; 0; 0; 0; 0; 0; 0; 0; 0; 0; 0; 0; 0; 0; 2; 0] (calculateAlpha 16).

Definition sketch_kube_ab : HyperLogLog.t :=
  HyperLogLog.mk 4 16 [1; 0; 0; 0; 0; 0; 0; 0; 0; 0; 0; 0; 0; 0; 4; 0] (calculateAlpha 16).

Definition sketch_empty_5 : HyperLogLog.t :=
  HyperLogLog.mk 5 32 (replicate 32%nat 0) (calculateAlpha 32).

Definition sketch_heap : sync.heap HyperLogLog.t :=
  <[3%positive := sync.Obj sketch_empty_5 sync.Unlocked]>
    (<[2%positive := sync.Obj sketch_kube_ab sync.Unlocked]>
       {[1%positive := sync.Obj sketch_abc_bar sync.Unlocked]}).

End HyperLogLogMergeTerms.

Section CountMinSketchMergeTerms.
Import CountMinSketch.

(** The sketch of a stream of updates. *)
Definition cms_of_stream (w d : Z) (ops : list (list byte * Z)) : exec CountMinSketch.t :=
  update_all (NewCountMinSketch w d) ops.

(** The counter the table holds in row [i], column [j]. *)
Definition cells_of (cms : CountMinSketch.t) (i j : Z) : Z :=
  default 0 (default [] (count cms !! Z.to_nat i) !! Z.to_nat j).

(** The sketch is a [w] by [d] table with the constructor's hash constants. *)
Definition cms_shaped (w d : Z) (cms : CountMinSketch.t) : Prop :=
  cms_holds w d (cells_of cms) cms.

(** The 4 by 2 sketches of the streams a:1 b:2, a:3 and c:5, an empty 8 by 2
    sketch, and a heap that holds them at addresses 1 to 4 with no lock
    taken. *)
Definition cms_a1_b2 : CountMinSketch.t :=
  CountMinSketch.mk 4 2 [[2; 0; 0; 1]; [0; 2; 1; 0]] [1; 3] [7; 10] 3.

Definition cms_a3 : CountMinSketch.t :=
  CountMinSketch.mk 4 2 [[0; 0; 0; 3]; [0; 0; 3; 0]] [1; 3] [7; 10] 3.

Definition cms_c5 : CountMinSketch.t :=
  CountMinSketch.mk 4 2 [[0; 5; 0; 0]; [5; 0; 0; 0]] [1; 3] [7; 10] 5.

Definition cms_heap : sync.heap CountMinSketch.t :=
  <[4%positive := sync.Obj (NewCountMinSketch 8 2) sync.Unlocked]>
    (<[3%positive := sync.Obj cms_c5 sync.Unlocked]>
       (<[2%positive := sync.Obj cms_a3 sync.Unlocked]>
          {[1%positive := sync.Obj cms_a1_b2 sync.Unlocked]})).

End CountMinSketchMergeTerms.

Section BloomFilterUnionTerms.
Import BloomFilter.

(** A second filter of four bits and one hash function, an empty filter of
    eight bits, and a heap that holds them with [one_item_filter] at
    addresses 1 to 3 with no lock taken. *)
Definition other_item_filter : BloomFilter.t :=
  BloomFilter.mk [false; false; true; false] 4 1 1.

Definition bloom_heap : BloomFilter.heap :=
  <[3%positive := Obj (NewBloomFilter 8 1) Unlocked]>
    (<[2%positive := Obj other_item_filter Unlocked]>
       {[1%positive := Obj one_item_filter Unlocked]}).

End BloomFilterUnionTerms.

Section BloomFilterTimeWindowTerms.
Import BloomFilterTimeWindow.

(** The calls that change a time-windowed filter. *)
Inductive window_op : Type :=
| WAdd (item : list byte)
| WRotate.

Definition window_step (bftw : BloomFilterTimeWindow.t) (op : window_op)
  : exec BloomFilterTimeWindow.t :=
  match op with
  | WAdd item => BloomFilterTimeWindow.Add bftw item
  | WRotate => BloomFilterTimeWindow.Rotate bftw
  end.

Fixpoint window_run (bftw : BloomFilterTimeWindow.t) (ops : list window_op)
  : exec BloomFilterTimeWindow.t :=
  match ops with
  | [] => Ret bftw
  | op :: ops => bftw' ← window_step bftw op; window_run bftw' ops
  end.

(** The number of rotations among the calls. *)
Fixpoint rotations (ops : list window_op) : Z :=
  match ops with
  | [] => 0
  | WAdd _ :: ops => rotations ops
  | WRotate :: ops => 1 + rotations ops
  end.

(** [W] filters of one shape with at least one bit each, and a cursor that
    points at one of them. *)
Definition window_wf (W sz k : Z) (bftw : BloomFilterTimeWindow.t) : Prop :=
  window bftw = W /\ 0 <= current bftw < W /\
  length (filters bftw) = Z.to_nat W /\
  Forall (fun f => bloom_wf f /\ BloomFilter.size f = sz /\ BloomFilter.numHashes f = k)
         (filters bftw).

End BloomFilterTimeWindowTerms.

Section SamplerStreamTerms.

(** Feeding a stream of weighted records to a weighted reservoir. *)
Fixpoint add_weighted_all (Pow : float -> float -> float)
    (wrs : WeightedReservoirSampler.t) (stream : list (MetricPoint * float))
  : exec WeightedReservoirSampler.t :=
  match stream with
  | [] => Ret wrs
  | (metric, weight) :: stream =>
      wrs' ← WeightedReservoirSampler.AddWeighted Pow wrs metric weight;
      add_weighted_all Pow wrs' stream
  end.

(** Feeding a stream of readings to a statistics window. *)
Fixpoint add_values (ws : WindowStats.t) (readings : list (float * Z)) : exec WindowStats.t :=
  match readings with
  | [] => Ret ws
  | (value, timestamp) :: readings =>
      ws' ← WindowStats.Add ws value timestamp; add_values ws' readings
  end.

(** The state of an adaptive sampler that has processed [n] records: the
    counters agree with [n], every reservoir has the configured capacity,
    holds no more than that and has seen at most [n] records, and every
    statistics window has as many timestamps as values. *)
Definition sampler_ok (s : AdaptiveSampler.t) (n : Z) : Prop :=
  AdaptiveSampler.totalProcessed s = n /\
  0 <= AdaptiveSampler.totalSampled s <= n /\
  0 <= 8 * AdaptiveSampler.ReservoirSize (AdaptiveSampler.config s) <= maxAlloc /\
  map_Forall (fun _ rs =>
                ReservoirSampler.capacity rs
                  = AdaptiveSampler.ReservoirSize (AdaptiveSampler.config s) /\
                ReservoirSampler.Size rs <= ReservoirSampler.capacity rs /\
                0 <= ReservoirSampler.count rs <= n)
             (AdaptiveSampler.reservoirs s) /\
  map_Forall (fun _ ws => length (WindowStats.values ws) = length (WindowStats.timestamps ws))
             (AdaptiveSampler.statistics s).

(** Feeding a stream of records to the engine; each record comes with the
    generator a reservoir created for it would receive. *)
Fixpoint process_all (qe : QueryEngine.t) (stream : list (MetricPoint * rand.Rand))
  : exec QueryEngine.t :=
  match stream with
  | [] => Ret qe
  | (metric, fresh) :: stream =>
      qe' ← QueryEngine.ProcessMetric qe metric fresh; process_all qe' stream
  end.

(** The state of an engine that has been handed [n] records. *)
Definition engine_ok (qe : QueryEngine.t) (n : Z) : Prop :=
  engine_wf qe /\
  sampler_ok (QueryEngine.sampler qe) n /\
  QueryEngine.TotalSamples (QueryEngine.stats qe) = n /\
  map_Forall (fun _ l => (length l <= 1000)%nat) (QueryEngine.samples qe).

End SamplerStreamTerms.

Section EngineTerms.
Import QueryEngine.



(** The seven query types the dispatcher knows. *)
Definition known_query_types : list string :=
  [metrics.CountDistinct; metrics.Sum; metrics.Average; metrics.Percentile;
   metrics.TopK; metrics.Membership; metrics.FrequencyCount].

(** The engine after one more query has been counted. *)
Definition count_query (qe : QueryEngine.t) : QueryEngine.t :=
  {| hll := hll qe; cms := cms qe; bloom := bloom qe; sampler := sampler qe;
     samples := samples qe;
     stats := {| TotalQueries := uint64 (TotalQueries (stats qe) + 1);
                 ApproxQueries := ApproxQueries (stats qe);
                 AvgLatency := AvgLatency (stats qe);
                 TotalSamples := TotalSamples (stats qe);
                 ErrorRate := ErrorRate (stats qe);
                 LastUpdateTime := LastUpdateTime (stats qe) |} |}.

End EngineTerms.

(** The request with another query type. *)
Definition with_type (request : QueryRequest) (type : string) : QueryRequest :=
  {| ID := ID request; Query := Query request; QueryType := type;
     TimeRange_ := TimeRange_ request; Filters := Filters request;
     ErrorBound := ErrorBound request; Confidence := Confidence request |}.

Section StratifiedSamplerTerms.

(** Feeding a stream of records, each with its stratum and the generator a
    reservoir created for it would receive, to a stratified sampler. *)
Fixpoint add_to_strata (ss : StratifiedSampler.t)
    (stream : list (string * MetricPoint * rand.Rand)) : exec StratifiedSampler.t :=
  match stream with
  | [] => Ret ss
  | (stratum, metric, fresh) :: stream =>
      ss' ← StratifiedSampler.AddToStratum ss stratum metric fresh;
      add_to_strata ss' stream
  end.

(** Every stratum has the capacity [total / j] for some rank [j] between 1
    and the number of strata, holds no more than that, and has seen at most
    [n] records. *)
Definition strata_ok (total : Z) (ss : StratifiedSampler.t) (n : Z) : Prop :=
  StratifiedSampler.totalCapacity ss = total /\
  map_Forall (fun _ rs =>
                (exists j, 1 <= j <= Z.of_nat (size (StratifiedSampler.strata ss)) /\
                           ReservoirSampler.capacity rs = total / j) /\
                ReservoirSampler.Size rs <= ReservoirSampler.capacity rs /\
                0 <= ReservoirSampler.count rs <= n)
             (StratifiedSampler.strata ss).

End StratifiedSamplerTerms.

Section TimeBasedSamplerTerms.
Import TimeBasedSampler.

(** Instants, in nanoseconds since the zero time, whose windows of one
    minute have the keys -1035593280, -1035593279 and -1035593278. *)
Definition minute_0 : Z := 0.
Definition minute_1 : Z := 60000000000.
Definition minute_2 : Z := 120000000000.

(** A CPU reading taken at the given instant. *)
Definition cpu_metric_at (instant : Z) : MetricPoint :=
  {| Timestamp := instant; ClusterID := "c1"; Namespace := "default"; PodName := "pod-1";
     ContainerName := "main"; MetricName := "cpu_usage"; Value := 0.5%float;
     Unit := "percent"; Labels := ∅ |}.

(** A sampler of windows of one minute that may hold two windows and holds
    those of minutes 0 and 1, each with one record. *)
Definition full_minute_sampler : TimeBasedSampler.t :=
  {| windowSize := 60000000000;
     windows :=
       <[(-1035593279) := ReservoirSampler.mk 5 [cpu_metric_at minute_1] 1 (constant_rand 1)]>
         {[ (-1035593280) :=
              ReservoirSampler.mk 5 [cpu_metric_at minute_0] 1 (constant_rand 1) ]};
     maxWindows := 2;
     samplerConfig := {| Capacity := 5 |} |}.

End TimeBasedSamplerTerms.

Section TimeBasedSamplerQueryTerms.
Import TimeBasedSampler.

(** The samples held for the window of a key, none for a key without
    window. *)
Definition window_samples (tbs : TimeBasedSampler.t) (key : Z) : list MetricPoint :=
  match windows tbs !! key with
  | Some reservoir => ReservoirSampler.GetSamples reservoir
  | None => []
  end.

End TimeBasedSamplerQueryTerms.

(** * Verified properties *)

(** ** Integer and slice helpers *)

Lemma uint64_small (x : Z) : 0 <= x < 2 ^ 64 -> uint64 x = x.
Proof. intros H. unfold uint64. now apply Z.mod_small. Qed.

Lemma uint8_small (x : Z) : 0 <= x < 2 ^ 8 -> uint8 x = x.
Proof. intros H. unfold uint8. now apply Z.mod_small. Qed.

Lemma uint32_small (x : Z) : 0 <= x < 2 ^ 32 -> uint32 x = x.
Proof. intros H. unfold uint32. now apply Z.mod_small. Qed.

Lemma uint64_range (x : Z) : 0 <= uint64 x < 2 ^ 64.
Proof. unfold uint64. apply Z.mod_pos_bound. lia. Qed.

Lemma uint32_range (x : Z) : 0 <= uint32 x < 2 ^ 32.
Proof. unfold uint32. apply Z.mod_pos_bound. lia. Qed.

Lemma index_Ret {A : Type} (l : list A) (i : Z) (x : A) :
  0 <= i -> l !! Z.to_nat i = Some x -> index l i = Ret x.
Proof.
  intros Hi Hl. unfold index.
  destruct (Z.ltb_spec i 0); [lia|]. now rewrite Hl.
Qed.

Lemma store_Ret {A : Type} (l : list A) (i : Z) (v : A) :
  0 <= i -> (Z.to_nat i < length l)%nat ->
  store l i v = Ret (<[Z.to_nat i := v]> l).
Proof.
  intros Hi Hl. unfold store.
  destruct (Z.ltb_spec i 0); [lia|].
  destruct (lookup_lt_is_Some_2 l (Z.to_nat i) Hl) as [y ->]. reflexivity.
Qed.

(** [makeslice] returns exactly within the allocation limit. *)
Lemma makeslice_Ret (size len cap : Z) :
  0 <= len <= cap -> size * cap <= maxAlloc -> makeslice size len cap = Ret tt.
Proof.
  intros Hlen Hmem. unfold makeslice.
  destruct (Z.ltb_spec cap 0); [lia|]. destruct (Z.ltb_spec maxAlloc (size * cap)); [lia|].
  destruct (Z.ltb_spec len 0); [lia|]. destruct (Z.ltb_spec cap len); [lia|]. reflexivity.
Qed.

Lemma makeslice_Ret_inv (size len cap : Z) (u : unit) :
  makeslice size len cap = Ret u -> 0 <= len <= cap /\ size * cap <= maxAlloc.
Proof.
  unfold makeslice.
  destruct (Z.ltb_spec cap 0); cbn [orb].
  { destruct (_ || _); discriminate. }
  destruct (Z.ltb_spec maxAlloc (size * cap)); cbn [orb].
  { destruct (_ || _); discriminate. }
  destruct (Z.ltb_spec len 0); cbn [orb].
  { discriminate. }
  destruct (Z.ltb_spec cap len); cbn [orb].
  { destruct (_ <? _); discriminate. }
  intros _. lia.
Qed.

(** A capacity beyond the limit: [makeslice: cap out of range]. *)
Lemma makeslice_cap_beyond_limit (size cap : Z) :
  0 <= cap -> maxAlloc < size * cap -> makeslice size 0 cap = Panic MakesliceCapOutOfRange.
Proof.
  intros Hcap Hmem. unfold makeslice.
  destruct (Z.ltb_spec cap 0); [lia|]. destruct (Z.ltb_spec maxAlloc (size * cap)); [|lia].
  cbn [orb]. rewrite Z.mul_0_r. reflexivity.
Qed.

Lemma make_Ret {A : Type} (size : Z) (z : A) (n : Z) :
  0 <= n -> size * n <= maxAlloc -> make size z n = Ret (replicate (Z.to_nat n) z).
Proof. intros Hn Hmem. unfold make. rewrite makeslice_Ret by lia. reflexivity. Qed.

Lemma NewReservoirSampler_Ret (K : Z) (rng : rand.Rand) :
  0 <= K -> 8 * K <= maxAlloc ->
  ReservoirSampler.NewReservoirSampler K rng = Ret (ReservoirSampler.mk K [] 0 rng).
Proof.
  intros HK Hmem. unfold ReservoirSampler.NewReservoirSampler.
  rewrite makeslice_Ret by lia. reflexivity.
Qed.

Lemma NewReservoirSampler_Ret_inv (K : Z) (rng : rand.Rand) (rs : ReservoirSampler.t) :
  ReservoirSampler.NewReservoirSampler K rng = Ret rs ->
  rs = ReservoirSampler.mk K [] 0 rng /\ 0 <= K /\ 8 * K <= maxAlloc.
Proof.
  unfold ReservoirSampler.NewReservoirSampler. intros H.
  destruct (makeslice 8 0 K) as [u| |] eqn:E; [|discriminate..].
  apply makeslice_Ret_inv in E. cbn in H. injection H as <-. split; [reflexivity|lia].
Qed.

(** The constructor on a capacity the runtime refuses. *)
Lemma NewReservoirSampler_beyond_limit (K : Z) (rng : rand.Rand) :
  maxAlloc < 8 * K ->
  ReservoirSampler.NewReservoirSampler K rng = Panic MakesliceCapOutOfRange.
Proof.
  intros Hmem. unfold ReservoirSampler.NewReservoirSampler.
  rewrite makeslice_cap_beyond_limit by (unfold maxAlloc in *; lia). reflexivity.
Qed.

Lemma NewWeightedReservoirSampler_Ret (K : Z) (rng : rand.Rand) :
  0 <= K -> 24 * K <= maxAlloc ->
  WeightedReservoirSampler.NewWeightedReservoirSampler K rng
    = Ret (WeightedReservoirSampler.mk K [] rng).
Proof.
  intros HK Hmem. unfold WeightedReservoirSampler.NewWeightedReservoirSampler.
  rewrite makeslice_Ret by lia. reflexivity.
Qed.

Lemma Sum64a_range (data : list byte) : 0 <= fnv.Sum64a data < 2 ^ 64.
Proof.
  unfold fnv.Sum64a.
  assert (H0 : 0 <= fnv.offset64 < 2 ^ 64) by (unfold fnv.offset64; lia).
  revert H0. generalize fnv.offset64.
  induction data as [|b data IH]; intros h Hh; simpl; [exact Hh|].
  apply IH, uint64_range.
Qed.

(** ** HyperLogLog *)

Section HyperLogLogFacts.
Import HyperLogLog.

Lemma leading_one_position_spec (width r : Z) :
  0 < r < 2 ^ width ->
  1 <= leading_one_position width r <= width /\
  Z.testbit r (width - leading_one_position width r) = true /\
  forall j, width - leading_one_position width r < j -> Z.testbit r j = false.
Proof.
  intros [Hr0 Hr]. unfold leading_one_position.
  assert (Hw : 0 < width).
  { destruct (Z.lt_trichotomy width 0) as [H|[H|H]]; [|subst; simpl in Hr; lia|exact H].
    rewrite Z.pow_neg_r in Hr by exact H. lia. }
  assert (Hlog : 0 <= Z.log2 r < width).
  { split; [apply Z.log2_nonneg|]. apply Z.log2_lt_pow2; lia. }
  replace (width - (width - Z.log2 r)) with (Z.log2 r) by lia.
  split; [lia|]. split.
  - apply Z.bit_log2. lia.
  - intros j Hj. apply Z.bits_above_log2; lia.
Qed.

Lemma clz_step_inv (k n x w : Z) :
  0 < k <= 32 -> 0 <= n -> x = w * 2 ^ n -> 2 ^ (64 - 2 * k) <= x < 2 ^ 64 ->
  let '(n', x') := clz_step (2 ^ (64 - k) - 1) k (n, x) in
  0 <= n' /\ x' = w * 2 ^ n' /\ 2 ^ (64 - k) <= x' < 2 ^ 64.
Proof.
  intros Hk Hn Hx [Hlo Hhi]. unfold clz_step.
  assert (Hsplit : 2 ^ 64 = 2 ^ (64 - k) * 2 ^ k).
  { rewrite <- Z.pow_add_r by lia. f_equal. lia. }
  assert (Hsplit2 : 2 ^ (64 - k) = 2 ^ (64 - 2 * k) * 2 ^ k).
  { rewrite <- Z.pow_add_r by lia. f_equal. lia. }
  assert (Hk2 : 0 < 2 ^ k) by (apply Z.pow_pos_nonneg; lia).
  assert (Hlo0 : 0 < 2 ^ (64 - 2 * k)) by (apply Z.pow_pos_nonneg; lia).
  destruct (Z.leb_spec x (2 ^ (64 - k) - 1)) as [Hle|Hgt].
  - unfold shl64. destruct (Z.ltb_spec k 64); [|lia].
    rewrite Z.shiftl_mul_pow2 by lia.
    assert (Hb : 2 ^ (64 - k) <= x * 2 ^ k < 2 ^ 64).
    { rewrite Hsplit, Hsplit2. split.
      - apply Z.mul_le_mono_nonneg_r; lia.
      - apply Z.mul_lt_mono_pos_r; lia. }
    rewrite uint64_small by lia.
    split; [lia|]. split; [|exact Hb].
    rewrite Hx, Z.pow_add_r by lia. ring.
  - split; [lia|]. split; [exact Hx|lia].
Qed.

(** The binary search of the source counts the zero bits above the leading
    one of a 64-bit word. *)
Lemma countLeadingZeros_log2 (w : Z) :
  0 < w < 2 ^ 64 -> countLeadingZeros w = 63 - Z.log2 w.
Proof.
  intros [Hw0 Hw]. unfold countLeadingZeros.
  destruct (Z.eqb_spec w 0) as [E|_]; [lia|].
  pose proof (clz_step_inv 32 0 w w) as H32.
  change (2 ^ (64 - 32) - 1) with 0x00000000FFFFFFFF in H32.
  destruct (clz_step 0x00000000FFFFFFFF 32 (0, w)) as [n1 x1].
  destruct H32 as (Hn1 & Hx1 & Hb1); [lia|lia|simpl; lia|simpl; lia|].
  pose proof (clz_step_inv 16 n1 x1 w) as H16.
  change (2 ^ (64 - 16) - 1) with 0x0000FFFFFFFFFFFF in H16.
  destruct (clz_step 0x0000FFFFFFFFFFFF 16 (n1, x1)) as [n2 x2].
  destruct H16 as (Hn2 & Hx2 & Hb2); [lia|lia|exact Hx1|exact Hb1|].
  pose proof (clz_step_inv 8 n2 x2 w) as H8.
  change (2 ^ (64 - 8) - 1) with 0x00FFFFFFFFFFFFFF in H8.
  destruct (clz_step 0x00FFFFFFFFFFFFFF 8 (n2, x2)) as [n3 x3].
  destruct H8 as (Hn3 & Hx3 & Hb3); [lia|lia|exact Hx2|exact Hb2|].
  pose proof (clz_step_inv 4 n3 x3 w) as H4.
  change (2 ^ (64 - 4) - 1) with 0x0FFFFFFFFFFFFFFF in H4.
  destruct (clz_step 0x0FFFFFFFFFFFFFFF 4 (n3, x3)) as [n4 x4].
  destruct H4 as (Hn4 & Hx4 & Hb4); [lia|lia|exact Hx3|exact Hb3|].
  pose proof (clz_step_inv 2 n4 x4 w) as H2.
  change (2 ^ (64 - 2) - 1) with 0x3FFFFFFFFFFFFFFF in H2.
  destruct (clz_step 0x3FFFFFFFFFFFFFFF 2 (n4, x4)) as [n5 x5].
  destruct H2 as (Hn5 & Hx5 & Hb5); [lia|lia|exact Hx4|exact Hb4|].
  change (2 ^ (64 - 2)) with (2 ^ 62) in Hb5.
  (* the last comparison, against 2^63 - 1, adds one without shifting *)
  assert (Hfin : forall n, 0 <= n -> 2 ^ 63 <= w * 2 ^ n < 2 ^ 64 -> n = 63 - Z.log2 w).
  { intros n Hn [Hlo Hhi].
    assert (Hp : 0 < 2 ^ n) by (apply Z.pow_pos_nonneg; lia).
    assert (Hn64 : n < 64).
    { apply (Z.pow_lt_mono_r_iff 2); [lia|lia|]. nia. }
    assert (Hlog : Z.log2 w = 63 - n); [|lia].
    apply Z.log2_unique; [lia|].
    replace (Z.succ (63 - n)) with (64 - n) by lia.
    assert (E63 : 2 ^ 63 = 2 ^ (63 - n) * 2 ^ n).
    { rewrite <- Z.pow_add_r by lia. f_equal. lia. }
    assert (E64 : 2 ^ 64 = 2 ^ (64 - n) * 2 ^ n).
    { rewrite <- Z.pow_add_r by lia. f_equal. lia. }
    split.
    - apply (Z.mul_le_mono_pos_r _ _ (2 ^ n)); [lia|]. rewrite <- E63. exact Hlo.
    - apply (Z.mul_lt_mono_pos_r (2 ^ n)); [lia|]. rewrite <- E64. exact Hhi. }
  destruct (Z.leb_spec x5 0x7FFFFFFFFFFFFFFF) as [Hle|Hgt].
  - apply Hfin; [lia|]. rewrite Z.pow_add_r by lia.
    change (2 ^ 1) with 2. lia.
  - apply Hfin; [lia|]. lia.
Qed.

Lemma shl32_one (p : Z) : 0 <= p <= 16 -> shl32 1 p = 2 ^ p.
Proof.
  intros Hp. unfold shl32. destruct (Z.ltb_spec p 32); [|lia].
  rewrite Z.shiftl_mul_pow2, Z.mul_1_l by lia.
  apply uint32_small. split; [apply Z.pow_nonneg; lia|].
  apply Z.pow_lt_mono_r; lia.
Qed.

Lemma NewHyperLogLog_in_range (p : Z) :
  4 <= p <= 16 ->
  NewHyperLogLog p =
    Ret (HyperLogLog.mk p (2 ^ p) (replicate (Z.to_nat (2 ^ p)) 0) (calculateAlpha (2 ^ p))).
Proof.
  intros Hp. unfold NewHyperLogLog.
  destruct (Z.ltb_spec p 4); [lia|]. destruct (Z.gtb_spec p 16); [lia|]. simpl orb. cbv iota.
  rewrite shl32_one by lia.
  assert (Hm : 0 <= 2 ^ p <= 2 ^ 16).
  { split; [apply Z.pow_nonneg; lia | apply Z.pow_le_mono_r; lia]. }
  rewrite make_Ret by (unfold maxAlloc; lia). reflexivity.
Qed.

Lemma NewHyperLogLog_out_of_range (p : Z) :
  p < 4 \/ 16 < p -> NewHyperLogLog p = NewHyperLogLog 14.
Proof.
  intros Hp. unfold NewHyperLogLog.
  replace ((p <? 4) || (p >? 16)) with true; [reflexivity|].
  symmetry. apply orb_true_iff.
  destruct Hp; [left; now apply Z.ltb_lt | right; apply Z.gtb_gt; lia].
Qed.

Lemma NewHyperLogLog_effective (p : Z) :
  exists q, 4 <= q <= 16 /\ NewHyperLogLog p = NewHyperLogLog q.
Proof.
  destruct (Z_le_dec 4 p) as [H4|H4]; [destruct (Z_le_dec p 16) as [H16|H16]|].
  - exists p. split; [lia|reflexivity].
  - exists 14. split; [lia|apply NewHyperLogLog_out_of_range; lia].
  - exists 14. split; [lia|apply NewHyperLogLog_out_of_range; lia].
Qed.

Lemma NewHyperLogLog_returns (p : Z) : exists hll, NewHyperLogLog p = Ret hll.
Proof.
  destruct (NewHyperLogLog_effective p) as (q & Hq & ->).
  rewrite NewHyperLogLog_in_range by exact Hq. eauto.
Qed.

(** C9.  The constructor never fails.  A precision outside [4, 16] is
    replaced by 14 and 2^14 registers are allocated; a precision p inside the
    range is kept and exactly 2^p registers are allocated.  All registers
    start at zero. *)
Theorem NewHyperLogLog_precision (p : Z) :
  exists hll, NewHyperLogLog p = Ret hll /\
    (p < 4 \/ 16 < p ->
       precision hll = 14 /\ m hll = 2 ^ 14 /\ length (buckets hll) = Z.to_nat (2 ^ 14)) /\
    (4 <= p <= 16 ->
       precision hll = p /\ m hll = 2 ^ p /\ length (buckets hll) = Z.to_nat (2 ^ p)) /\
    Forall (fun b => b = 0) (buckets hll).
Proof.
  assert (Hin : forall q, 4 <= q <= 16 -> NewHyperLogLog p = NewHyperLogLog q ->
            (p = q \/ (q = 14 /\ (p < 4 \/ 16 < p))) ->
            exists hll, NewHyperLogLog p = Ret hll /\
              (p < 4 \/ 16 < p ->
                 precision hll = 14 /\ m hll = 2 ^ 14 /\
                 length (buckets hll) = Z.to_nat (2 ^ 14)) /\
              (4 <= p <= 16 ->
                 precision hll = p /\ m hll = 2 ^ p /\
                 length (buckets hll) = Z.to_nat (2 ^ p)) /\
              Forall (fun b => b = 0) (buckets hll)).
  { intros q Hq E Hpq. eexists. split.
    { rewrite E. apply NewHyperLogLog_in_range. exact Hq. }
    cbn [precision m buckets]. rewrite length_replicate.
    split; [|split].
    - intros Hout. destruct Hpq as [->|[-> _]]; [lia|]. auto.
    - intros Hp. destruct Hpq as [->|[-> Hout]]; [auto|lia].
    - apply Forall_replicate. reflexivity. }
  destruct (Z_le_dec 4 p) as [H4|H4]; [destruct (Z_le_dec p 16) as [H16|H16]|].
  - apply (Hin p); [lia|reflexivity|left; reflexivity].
  - apply (Hin 14); [lia|apply NewHyperLogLog_out_of_range; lia|right; lia].
  - apply (Hin 14); [lia|apply NewHyperLogLog_out_of_range; lia|right; lia].
Qed.

Lemma NewHyperLogLog_wf (p : Z) (hll : HyperLogLog.t) :
  NewHyperLogLog p = Ret hll -> hll_wf hll.
Proof.
  intros H. unfold hll_wf.
  destruct (NewHyperLogLog_effective p) as (q & Hq & E). rewrite E, NewHyperLogLog_in_range in H by exact Hq.
  injection H as <-. cbn [precision buckets]. split; [exact Hq|apply length_replicate].
Qed.

(** The register index and the shifted word of [Add], in arithmetic form. *)
Lemma hll_split_hash (p h : Z) :
  4 <= p <= 16 -> 0 <= h < 2 ^ 64 ->
  shr64 h (uint8 (64 - p)) = Z.shiftr h (64 - p) /\
  0 <= Z.shiftr h (64 - p) < 2 ^ p /\
  shl64 h p = (h mod 2 ^ (64 - p)) * 2 ^ p /\
  0 <= h mod 2 ^ (64 - p) < 2 ^ (64 - p).
Proof.
  intros Hp Hh.
  assert (Hq : 0 < 2 ^ (64 - p)) by (apply Z.pow_pos_nonneg; lia).
  assert (Hpp : 0 < 2 ^ p) by (apply Z.pow_pos_nonneg; lia).
  assert (E64 : 2 ^ 64 = 2 ^ (64 - p) * 2 ^ p).
  { rewrite <- Z.pow_add_r by lia. f_equal. lia. }
  rewrite (uint8_small (64 - p)) by lia.
  unfold shr64, shl64.
  destruct (Z.ltb_spec (64 - p) 64); [|lia]. destruct (Z.ltb_spec p 64); [|lia].
  split; [reflexivity|]. rewrite Z.shiftr_div_pow2 by lia. split.
  - split; [apply Z.div_pos; lia|].
    apply Z.div_lt_upper_bound; [lia|]. rewrite <- E64. lia.
  - split; [|apply Z.mod_pos_bound; lia].
    rewrite Z.shiftl_mul_pow2 by lia. unfold uint64.
    rewrite E64. apply Z.mul_mod_distr_r; lia.
Qed.

(** C4 (amended).  [Add] selects the register by the top p bits of the 64-bit
    hash.  When the remaining 64 - p bits are not all zero, the register
    receives the maximum of its current value and the 1-based position of the
    leading one bit among those remaining bits (the number of zero bits above
    it, plus one); every other register is left as it was. *)
Theorem hll_add_register (hll : HyperLogLog.t) (data : list byte) :
  hll_wf hll ->
  let p := precision hll in
  let idx := Z.shiftr (hashBytes data) (64 - p) in
  let rest := hashBytes data mod 2 ^ (64 - p) in
  rest <> 0 ->
  exists old,
    buckets hll !! Z.to_nat idx = Some old /\
    HyperLogLog.Add hll data =
      Ret (HyperLogLog.mk p (m hll)
             (<[Z.to_nat idx := Z.max old (leading_one_position (64 - p) rest)]> (buckets hll))
             (alpha hll)).
Proof.
  intros [Hp Hlen] p idx rest Hrest.
  pose proof (Sum64a_range data) as Hh. fold (hashBytes data) in Hh.
  destruct (hll_split_hash p (hashBytes data) Hp Hh) as (Eidx & Hidx & Ew & Hr).
  fold idx in Eidx, Hidx. fold rest in Ew, Hr.
  assert (Hpp : 0 < 2 ^ p) by (apply Z.pow_pos_nonneg; lia).
  assert (Hlt : (Z.to_nat idx < length (buckets hll))%nat).
  { rewrite Hlen. fold p. lia. }
  destruct (lookup_lt_is_Some_2 _ _ Hlt) as [old Hold].
  exists old. split; [exact Hold|].
  unfold HyperLogLog.Add. fold p. rewrite Eidx, Ew.
  assert (Hw : 0 < rest * 2 ^ p < 2 ^ 64).
  { replace (2 ^ 64) with (2 ^ (64 - p) * 2 ^ p)
      by (rewrite <- Z.pow_add_r by lia; f_equal; lia).
    split; [nia|]. apply Z.mul_lt_mono_pos_r; lia. }
  destruct (Z.eqb_spec (rest * 2 ^ p) 0) as [E0|_]; [lia|]. simpl negb. cbv iota.
  rewrite countLeadingZeros_log2 by exact Hw.
  rewrite Z.log2_mul_pow2 by lia.
  assert (Hlog : 0 <= Z.log2 rest < 64 - p).
  { split; [apply Z.log2_nonneg|]. apply Z.log2_lt_pow2; lia. }
  rewrite (uint8_small (63 - (p + Z.log2 rest))) by lia.
  rewrite uint8_small by lia.
  replace (63 - (p + Z.log2 rest) + 1) with (leading_one_position (64 - p) rest)
    by (unfold leading_one_position; lia).
  rewrite (index_Ret _ _ old) by (try exact Hold; lia). simpl.
  destruct (Z.gtb_spec (leading_one_position (64 - p) rest) old) as [Hgt|Hle].
  - rewrite store_Ret by (try exact Hlt; lia). simpl.
    rewrite Z.max_r by lia. reflexivity.
  - rewrite Z.max_l by lia. rewrite list_insert_id by exact Hold.
    destruct hll; reflexivity.
Qed.

(** When the remaining bits are all zero, [Add] uses the value 1, the same
    as for a leading one in the first position. *)
Lemma hll_add_register_zero_rest (hll : HyperLogLog.t) (data : list byte) :
  hll_wf hll ->
  let p := precision hll in
  let idx := Z.shiftr (hashBytes data) (64 - p) in
  hashBytes data mod 2 ^ (64 - p) = 0 ->
  exists old,
    buckets hll !! Z.to_nat idx = Some old /\
    HyperLogLog.Add hll data =
      Ret (HyperLogLog.mk p (m hll) (<[Z.to_nat idx := Z.max old 1]> (buckets hll))
             (alpha hll)).
Proof.
  intros [Hp Hlen] p idx Hrest.
  pose proof (Sum64a_range data) as Hh. fold (hashBytes data) in Hh.
  destruct (hll_split_hash p (hashBytes data) Hp Hh) as (Eidx & Hidx & Ew & _).
  fold idx in Eidx, Hidx. rewrite Hrest in Ew.
  assert (Hpp : 0 < 2 ^ p) by (apply Z.pow_pos_nonneg; lia).
  assert (Hlt : (Z.to_nat idx < length (buckets hll))%nat).
  { rewrite Hlen. fold p. lia. }
  destruct (lookup_lt_is_Some_2 _ _ Hlt) as [old Hold].
  exists old. split; [exact Hold|].
  unfold HyperLogLog.Add. fold p. rewrite Eidx, Ew. cbn [Z.mul Z.eqb negb].
  rewrite (index_Ret _ _ old) by (try exact Hold; lia). simpl.
  destruct (Z.gtb_spec 1 old) as [Hgt|Hle].
  - rewrite store_Ret by (try exact Hlt; lia). simpl.
    rewrite Z.max_r by lia. reflexivity.
  - rewrite Z.max_l by lia. rewrite list_insert_id by exact Hold.
    destruct hll; reflexivity.
Qed.

(** C4 as stated fails.  With precision 4 the empty byte string hashes to
    0xcbf29ce484222325: register 12 is selected, the remaining 60 bits start
    with a one (position 1), and the register receives 1, not 2. *)
Lemma hll_add_stated_rank_fails :
  Z.shiftr (hashBytes []) (64 - 4) = 12 /\
  hashBytes [] mod 2 ^ (64 - 4) <> 0 /\
  stated_rank 4 (hashBytes [] mod 2 ^ (64 - 4)) = 2 /\
  (hll ← NewHyperLogLog 4; hll' ← HyperLogLog.Add hll []; index (buckets hll') 12)
    = Ret 1.
Proof. repeat split; vm_compute; congruence. Qed.

(** Witness for [hll_add_register]: the same input, through the theorem. *)
Lemma hll_add_register_witness :
  exists old,
    replicate 16%nat 0 !! 12%nat = Some old /\
    HyperLogLog.Add (HyperLogLog.mk 4 16 (replicate 16%nat 0) (calculateAlpha 16)) [] =
      Ret (HyperLogLog.mk 4 16
             (<[12%nat := Z.max old (leading_one_position 60 (hashBytes [] mod 2 ^ 60))]>
                (replicate 16%nat 0))
             (calculateAlpha 16)).
Proof.
  apply (hll_add_register (HyperLogLog.mk 4 16 (replicate 16%nat 0) (calculateAlpha 16)) []).
  - split; simpl; [lia|reflexivity].
  - vm_compute. congruence.
Defined.

End HyperLogLogFacts.

(** ** Outcomes *)

Lemma bind_Ret_inv {A B : Type} (c : exec A) (k : A -> exec B) (b : B) :
  c ≫= k = Ret b -> exists a, c = Ret a /\ k a = Ret b.
Proof. destruct c as [a| |]; simpl; intros H; [eauto|discriminate..]. Qed.

Lemma bind_Ret {A B : Type} (a : A) (k : A -> exec B) : Ret a ≫= k = k a.
Proof. reflexivity. Qed.

Lemma umod_Ret_inv (x y r : Z) : umod x y = Ret r -> y <> 0 /\ r = x mod y.
Proof.
  unfold umod. destruct (Z.eqb_spec y 0); [discriminate|].
  intros [= <-]. auto.
Qed.

Lemma index_Ret_inv {A : Type} (l : list A) (i : Z) (x : A) :
  index l i = Ret x -> 0 <= i /\ l !! Z.to_nat i = Some x.
Proof.
  unfold index. destruct (Z.ltb_spec i 0); [discriminate|].
  destruct (l !! Z.to_nat i) as [y|]; [|discriminate].
  intros [= <-]. auto.
Qed.

Lemma store_Ret_inv {A : Type} (l l' : list A) (i : Z) (v : A) :
  store l i v = Ret l' ->
  0 <= i /\ (Z.to_nat i < length l)%nat /\ l' = <[Z.to_nat i := v]> l.
Proof.
  unfold store. destruct (Z.ltb_spec i 0); [discriminate|].
  destruct (l !! Z.to_nat i) as [y|] eqn:E; [|discriminate].
  intros [= <-]. split; [lia|]. split; [|reflexivity].
  apply lookup_lt_is_Some. eauto.
Qed.

(** Splits a hypothesis [c ≫= k = Ret b] into the two steps. *)
Ltac inv_bind H :=
  let a := fresh "a" in
  let Ha := fresh "Hstep" in
  apply bind_Ret_inv in H; destruct H as (a & Ha & H).

(** ** BloomFilter *)

Section BloomFilterFacts.
Import BloomFilter.

Lemma set_bit_inv (sz hash : Z) (bs bs' : list bool) :
  set_bit sz hash bs = Ret bs' ->
  sz <> 0 /\ length bs' = length bs /\ bit_set bs' (hash mod sz) /\
  forall i, bit_set bs i -> bit_set bs' i.
Proof.
  unfold set_bit. intros H. inv_bind H.
  apply umod_Ret_inv in Hstep as [Hsz ->].
  apply store_Ret_inv in H as (H0 & Hlt & ->).
  split; [exact Hsz|]. split; [apply length_insert|]. split.
  - split; [exact H0|]. now apply list_lookup_insert_eq.
  - intros i [Hi Hb]. split; [exact Hi|].
    destruct (decide (Z.to_nat (hash mod sz) = Z.to_nat i)) as [E|E].
    + rewrite E. apply list_lookup_insert_eq. rewrite <- E. exact Hlt.
    + now rewrite list_lookup_insert_ne.
Qed.

Lemma set_bits_inv (sz : Z) (hashes : list Z) (bs bs' : list bool) :
  for_loop (set_bit sz) hashes bs = Ret bs' ->
  length bs' = length bs /\
  (forall i, bit_set bs i -> bit_set bs' i) /\
  Forall (fun hash => sz <> 0 /\ bit_set bs' (hash mod sz)) hashes.
Proof.
  revert bs. induction hashes as [|hash hashes IH]; intros bs H; simpl in H.
  - injection H as <-. auto.
  - inv_bind H. apply set_bit_inv in Hstep as (Hsz & Hlen & Hset & Hmono).
    apply IH in H as (Hlen' & Hmono' & Hall).
    split; [congruence|]. split; [auto|].
    constructor; [auto|exact Hall].
Qed.

Lemma Add_inv (bf bf' : BloomFilter.t) (item : list byte) :
  BloomFilter.Add bf item = Ret bf' ->
  size bf' = size bf /\ numHashes bf' = numHashes bf /\
  length (bits bf') = length (bits bf) /\
  (forall i, bit_set (bits bf) i -> bit_set (bits bf') i) /\
  Forall (fun hash => size bf <> 0 /\ bit_set (bits bf') (hash mod size bf))
         (getHashes bf item).
Proof.
  unfold BloomFilter.Add. intros H. inv_bind H. injection H as <-. simpl.
  apply set_bits_inv in Hstep as (Hlen & Hmono & Hall). auto.
Qed.

Lemma add_all_inv (items : list (list byte)) (bf bf' : BloomFilter.t) :
  add_all bf items = Ret bf' ->
  size bf' = size bf /\ numHashes bf' = numHashes bf /\
  length (bits bf') = length (bits bf) /\
  forall i, bit_set (bits bf) i -> bit_set (bits bf') i.
Proof.
  revert bf. induction items as [|item items IH]; intros bf H; simpl in H.
  - injection H as <-. auto.
  - inv_bind H. apply Add_inv in Hstep as (Hs & Hn & Hl & Hm & _).
    apply IH in H as (Hs' & Hn' & Hl' & Hm').
    split; [congruence|]. split; [congruence|]. split; [congruence|]. auto.
Qed.

Lemma contains_loop_true (bf : BloomFilter.t) (hashes : list Z) :
  Forall (fun hash => size bf <> 0 /\ bit_set (bits bf) (hash mod size bf)) hashes ->
  contains_loop bf hashes = Ret true.
Proof.
  induction 1 as [|hash hashes [Hsz [Hi Hb]] _ IH]; simpl; [reflexivity|].
  unfold umod. destruct (Z.eqb_spec (size bf) 0); [contradiction|].
  rewrite bind_Ret, (index_Ret _ _ true) by assumption.
  rewrite bind_Ret. exact IH.
Qed.

Lemma set_bit_total (sz hash : Z) (bs : list bool) :
  0 < sz -> length bs = Z.to_nat sz ->
  set_bit sz hash bs = Ret (<[Z.to_nat (hash mod sz) := true]> bs).
Proof.
  intros Hsz Hlen. unfold set_bit, umod.
  destruct (Z.eqb_spec sz 0); [lia|]. rewrite bind_Ret.
  pose proof (Z.mod_pos_bound hash sz Hsz) as Hm.
  apply store_Ret; lia.
Qed.

Lemma set_bits_total (sz : Z) (hashes : list Z) (bs : list bool) :
  0 < sz -> length bs = Z.to_nat sz ->
  exists bs', for_loop (set_bit sz) hashes bs = Ret bs'.
Proof.
  intros Hsz. revert bs. induction hashes as [|hash hashes IH]; intros bs Hlen; simpl.
  - eauto.
  - rewrite set_bit_total by assumption. rewrite bind_Ret.
    apply IH. now rewrite length_insert.
Qed.

Lemma Add_total (bf : BloomFilter.t) (item : list byte) :
  bloom_wf bf -> exists bf', BloomFilter.Add bf item = Ret bf' /\ bloom_wf bf'.
Proof.
  intros [Hsz Hlen]. unfold BloomFilter.Add.
  destruct (set_bits_total (size bf) (getHashes bf item) (bits bf) Hsz Hlen) as [bs' E].
  rewrite E. eexists. split; [reflexivity|].
  apply set_bits_inv in E as (Hl & _). split; simpl; [exact Hsz|congruence].
Qed.

Lemma add_all_total (items : list (list byte)) (bf : BloomFilter.t) :
  bloom_wf bf -> exists bf', add_all bf items = Ret bf' /\ bloom_wf bf'.
Proof.
  revert bf. induction items as [|item items IH]; intros bf Hwf; simpl; [eauto|].
  destruct (Add_total bf item Hwf) as (bf1 & -> & Hwf1). rewrite bind_Ret. auto.
Qed.

Lemma NewBloomFilter_wf (sz k : Z) : 0 < sz -> bloom_wf (NewBloomFilter sz k).
Proof. intros H. split; simpl; [exact H|apply length_replicate]. Qed.

(** A bit set by [Add] stays set through later [Add]s, so the item is found. *)
Lemma bloom_added_is_contained
    (bf bf1 bf2 : BloomFilter.t) (item : list byte) (more : list (list byte)) :
  BloomFilter.Add bf item = Ret bf1 -> add_all bf1 more = Ret bf2 ->
  BloomFilter.Contains bf2 item = Ret true.
Proof.
  intros H1 H2.
  apply Add_inv in H1 as (Hs1 & Hn1 & _ & _ & Hall).
  apply add_all_inv in H2 as (Hs2 & Hn2 & _ & Hmono).
  unfold BloomFilter.Contains. apply contains_loop_true.
  replace (getHashes bf2 item) with (getHashes bf item)
    by (unfold getHashes; congruence).
  rewrite Hs2, Hs1. eapply Forall_impl; [exact Hall|].
  intros hash [Hsz Hb]. split; [exact Hsz|]. apply Hmono. exact Hb.
Qed.

(** C3.  No false negatives.  Once [Add] has returned for an item, [Contains]
    answers [true] for it in the state reached by any further sequence of
    [Add]s.  On a filter with at least one bit, shaped as the constructor
    shapes it, every such [Add] does return. *)
Theorem bloom_no_false_negatives
    (bf : BloomFilter.t) (item : list byte) (more : list (list byte)) :
  (forall bf1 bf2,
     BloomFilter.Add bf item = Ret bf1 -> add_all bf1 more = Ret bf2 ->
     BloomFilter.Contains bf2 item = Ret true) /\
  (bloom_wf bf ->
   exists bf1 bf2,
     BloomFilter.Add bf item = Ret bf1 /\ add_all bf1 more = Ret bf2 /\
     BloomFilter.Contains bf2 item = Ret true).
Proof.
  split.
  - intros bf1 bf2. apply bloom_added_is_contained.
  - intros Hwf.
    destruct (Add_total bf item Hwf) as (bf1 & H1 & Hwf1).
    destruct (add_all_total more bf1 Hwf1) as (bf2 & H2 & _).
    exists bf1, bf2. split; [exact H1|]. split; [exact H2|].
    exact (bloom_added_is_contained bf bf1 bf2 item more H1 H2).
Qed.

(** Witness for [bloom_no_false_negatives]: a 64-bit filter with 3 hashes. *)
Lemma bloom_no_false_negatives_witness :
  exists bf1 bf2,
    BloomFilter.Add (NewBloomFilter 64 3) ["a"%byte] = Ret bf1 /\
    add_all bf1 [["b"%byte]; ["a"%byte; "c"%byte]] = Ret bf2 /\
    BloomFilter.Contains bf2 ["a"%byte] = Ret true.
Proof.
  apply (proj2 (bloom_no_false_negatives (NewBloomFilter 64 3) ["a"%byte]
                  [["b"%byte]; ["a"%byte; "c"%byte]])).
  apply NewBloomFilter_wf. lia.
Defined.

(** *** Union *)

Lemma for_loop_fixed {S : Type} (body : Z -> S -> exec S) (range : list Z) (s : S) :
  Forall (fun i => body i s = Ret s) range -> for_loop body range s = Ret s.
Proof.
  induction 1 as [|i range Hi _ IH]; simpl; [reflexivity|].
  rewrite Hi, bind_Ret. exact IH.
Qed.

(** The union of a filter with itself: the shape test passes, the write lock
    of the receiver is taken, and the read lock of the same mutex is then
    never granted. *)
Lemma Union_same_object (h : heap) (a : positive) (A : BloomFilter.t) :
  h !! a = Some (Obj A Unlocked) -> BloomFilter.Union h a a = Blocked.
Proof.
  intros Ha. unfold BloomFilter.Union, deref. rewrite Ha, !bind_Ret. cbn [filter].
  rewrite !Z.eqb_refl. cbn [negb orb].
  unfold Lock, deref. rewrite Ha, bind_Ret. cbn [mutex filter]. rewrite bind_Ret.
  unfold RLock, deref. rewrite lookup_insert_eq. reflexivity.
Qed.

(** C6.  [a.Union(a)] never returns, whatever the filter.  With the filter
    held by an object on which no lock is taken, the call passes the shape
    test, takes the write lock of [a] and then asks for the read lock of the
    same [sync.RWMutex], which is not granted while the write lock is held:
    the loop over the bits and the update of the inserted-count are never
    reached, and there is no state after the call. *)
Theorem bloom_self_union_never_returns (h : heap) (a : positive) (A : BloomFilter.t) :
  h !! a = Some (Obj A Unlocked) -> BloomFilter.Union h a a = Blocked.
Proof. exact (Union_same_object h a A). Qed.

(** Witness for [bloom_self_union_never_returns]: a filter of four bits that
    holds one item, alone in the heap. *)
Lemma bloom_self_union_never_returns_witness :
  BloomFilter.Union {[1%positive := Obj one_item_filter Unlocked]} 1 1 = Blocked.
Proof.
  apply (bloom_self_union_never_returns {[1%positive := Obj one_item_filter Unlocked]} 1
           one_item_filter).
  reflexivity.
Defined.

(** Union with a second filter in the same state is idempotent on the bit
    vector.  When [a] and [b] are distinct filters of the same shape holding
    the same bit vector, and neither is locked, [a.Union(b)] returns without
    error, leaves the bit vector of [a] as it was, releases both locks, and
    makes the inserted-count of [a] the sum of the two counts (modulo 2^32).
    Nothing else in the heap changes. *)
Theorem bloom_union_same_bits
    (h : heap) (a b : positive) (A B : BloomFilter.t) :
  a <> b ->
  h !! a = Some (Obj A Unlocked) ->
  h !! b = Some (Obj B Unlocked) ->
  size A = size B -> numHashes A = numHashes B -> bits A = bits B ->
  length (bits A) = Z.to_nat (size A) ->
  BloomFilter.Union h a b =
    Ret (<[a := Obj (BloomFilter.mk (bits A) (size A) (numHashes A)
                       (uint32 (numItems A + numItems B))) Unlocked]> h,
         None).
Proof.
  intros Hab Ha Hb Hsize Hnum Hbits Hlen.
  unfold BloomFilter.Union, deref. rewrite Ha, Hb, !bind_Ret.
  cbn [filter].
  rewrite (proj2 (Z.eqb_eq _ _) Hsize), (proj2 (Z.eqb_eq _ _) Hnum). cbn [negb orb].
  (* the two locks are taken *)
  unfold Lock, deref. rewrite Ha, bind_Ret. cbn [mutex filter]. rewrite bind_Ret.
  set (h1 := <[a := Obj A WriteLocked]> h).
  assert (H1b : h1 !! b = Some (Obj B Unlocked))
    by (unfold h1; rewrite lookup_insert_ne by exact Hab; exact Hb).
  unfold RLock, deref. rewrite H1b, bind_Ret. cbn [mutex filter]. rewrite bind_Ret.
  set (h2 := <[b := Obj B (ReadLocked 1)]> h1).
  assert (H2a : h2 !! a = Some (Obj A WriteLocked)).
  { unfold h2. rewrite lookup_insert_ne by congruence. apply lookup_insert_eq. }
  assert (H2b : h2 !! b = Some (Obj B (ReadLocked 1))) by apply lookup_insert_eq.
  (* the loop rewrites every bit with its own value *)
  rewrite (for_loop_fixed (or_bit a b) _ h2).
  2:{ apply Forall_forall. intros i Hi. apply elem_of_seqZ in Hi.
      unfold or_bit, deref. rewrite H2a, H2b, !bind_Ret. cbn [filter mutex].
      assert (Hlt : (Z.to_nat i < length (bits A))%nat) by lia.
      destruct (lookup_lt_is_Some_2 _ _ Hlt) as [x Hx].
      rewrite <- Hbits, (index_Ret (bits A) i x) by (try exact Hx; lia).
      rewrite !bind_Ret, orb_diag, store_Ret by lia. rewrite bind_Ret.
      rewrite list_insert_id by exact Hx.
      destruct A; cbn. rewrite insert_id; [reflexivity|exact H2a]. }
  rewrite bind_Ret.
  unfold add_items, deref. rewrite H2a, H2b, !bind_Ret. cbn [filter mutex].
  set (A' := BloomFilter.mk (bits A) (size A) (numHashes A)
               (uint32 (numItems A + numItems B))).
  set (h3 := <[a := Obj A' WriteLocked]> h2).
  assert (H3b : h3 !! b = Some (Obj B (ReadLocked 1))).
  { unfold h3. rewrite lookup_insert_ne by exact Hab. exact H2b. }
  (* the deferred unlocks *)
  unfold RUnlock, deref. rewrite H3b, bind_Ret. cbn [mutex filter]. rewrite bind_Ret.
  set (h4 := <[b := Obj B Unlocked]> h3).
  assert (H4a : h4 !! a = Some (Obj A' WriteLocked)).
  { unfold h4, h3. rewrite lookup_insert_ne by congruence. apply lookup_insert_eq. }
  unfold Unlock, deref. rewrite H4a, bind_Ret. cbn [mutex filter]. rewrite bind_Ret.
  do 2 f_equal. apply map_eq. intros k.
  unfold h4, h3, h2, h1. rewrite !lookup_insert.
  repeat case_decide; subst; congruence.
Qed.

(** Idempotence fails twice over.  [a.Union(a)] takes the write lock of [a]
    and then waits for the read lock of the same mutex, so the call never
    returns.  And the union with a second filter in the very same state does
    not leave the inserted-count as it was: it becomes 2. *)
Lemma bloom_union_not_idempotent :
  BloomFilter.Union {[1%positive := Obj one_item_filter Unlocked]} 1 1 = Blocked /\
  (r ← BloomFilter.Union
         (<[2%positive := Obj one_item_filter Unlocked]>
            {[1%positive := Obj one_item_filter Unlocked]}) 1 2;
   o ← deref r.1 1; Ret (o, r.2))
  = Ret (Obj (BloomFilter.mk [true; false; false; false] 4 1 2) Unlocked, None).
Proof. split; vm_compute; reflexivity. Qed.

(** Witness for [bloom_union_same_bits]: two copies of [one_item_filter]. *)
Lemma bloom_union_same_bits_witness :
  BloomFilter.Union
    (<[2%positive := Obj one_item_filter Unlocked]>
       {[1%positive := Obj one_item_filter Unlocked]}) 1 2 =
  Ret (<[1%positive := Obj (BloomFilter.mk (bits one_item_filter) (size one_item_filter)
                              (numHashes one_item_filter)
                              (uint32 (numItems one_item_filter + numItems one_item_filter)))
                           Unlocked]>
         (<[2%positive := Obj one_item_filter Unlocked]>
            {[1%positive := Obj one_item_filter Unlocked]}),
       None).
Proof.
  apply (bloom_union_same_bits _ 1 2 one_item_filter one_item_filter);
    [discriminate|reflexivity|reflexivity|reflexivity..].
Defined.

End BloomFilterFacts.

(** ** Tabulated slices *)

Lemma length_tabulate {A : Type} (n : Z) (f : Z -> A) :
  length (tabulate n f) = Z.to_nat n.
Proof. unfold tabulate. now rewrite length_fmap, length_seqZ. Qed.

Lemma lookup_tabulate {A : Type} (n : Z) (f : Z -> A) (i : Z) :
  0 <= i < n -> tabulate n f !! Z.to_nat i = Some (f i).
Proof.
  intros Hi. unfold tabulate. rewrite list_lookup_fmap, lookup_seqZ_lt by lia.
  simpl. f_equal. f_equal. lia.
Qed.

Lemma tabulate_ext {A : Type} (n : Z) (f g : Z -> A) :
  (forall i, 0 <= i < n -> f i = g i) -> tabulate n f = tabulate n g.
Proof.
  intros H. unfold tabulate. apply list_fmap_ext.
  intros k i Hk. apply lookup_seqZ in Hk as [-> Hlt]. apply H. lia.
Qed.

Lemma insert_tabulate {A : Type} (n : Z) (f : Z -> A) (b : Z) (v : A) :
  0 <= b < n ->
  <[Z.to_nat b := v]> (tabulate n f) = tabulate n (fun i => if i =? b then v else f i).
Proof.
  intros Hb. apply list_eq. intros k.
  destruct (decide (k < Z.to_nat n)%nat) as [Hk|Hk].
  - replace k with (Z.to_nat (Z.of_nat k)) at 2 by lia.
    rewrite lookup_tabulate by lia.
    destruct (Z.eqb_spec (Z.of_nat k) b) as [E|E].
    + replace k with (Z.to_nat b) by lia.
      apply list_lookup_insert_eq. rewrite length_tabulate. lia.
    + rewrite list_lookup_insert_ne by lia.
      replace k with (Z.to_nat (Z.of_nat k)) at 1 by lia.
      apply lookup_tabulate. lia.
  - rewrite !lookup_ge_None_2; [reflexivity| |];
      rewrite ?length_insert, length_tabulate; lia.
Qed.

Lemma index_tabulate {A : Type} (n : Z) (f : Z -> A) (i : Z) :
  0 <= i < n -> index (tabulate n f) i = Ret (f i).
Proof. intros Hi. apply index_Ret; [lia|]. now apply lookup_tabulate. Qed.

Lemma store_tabulate {A : Type} (n : Z) (f : Z -> A) (b : Z) (v : A) :
  0 <= b < n ->
  store (tabulate n f) b v = Ret (tabulate n (fun i => if i =? b then v else f i)).
Proof.
  intros Hb. rewrite store_Ret by (rewrite ?length_tabulate; lia).
  now rewrite insert_tabulate.
Qed.

Lemma replicate_tabulate {A : Type} (n : Z) (x : A) :
  replicate (Z.to_nat n) x = tabulate n (fun _ => x).
Proof.
  apply list_eq. intros k.
  destruct (decide (k < Z.to_nat n)%nat) as [Hk|Hk].
  - rewrite lookup_replicate_2 by exact Hk.
    replace k with (Z.to_nat (Z.of_nat k)) by lia.
    symmetry. apply lookup_tabulate. lia.
  - rewrite !lookup_ge_None_2; [reflexivity| |];
      rewrite ?length_replicate, ?length_tabulate; lia.
Qed.

(** ** CountMinSketch *)

Section CountMinSketchFacts.
Import CountMinSketch.

Lemma NewCountMinSketch_holds (w d : Z) :
  cms_holds w d (fun _ _ => 0) (NewCountMinSketch w d).
Proof.
  unfold cms_holds. simpl. repeat split.
  rewrite replicate_tabulate. apply tabulate_ext. intros i _.
  apply replicate_tabulate.
Qed.

Lemma bucket_of_range (w i hash : Z) :
  0 < w < 2 ^ 32 -> 0 <= bucket_of w i hash < w.
Proof.
  intros Hw. unfold bucket_of.
  match goal with |- context [?x mod w] =>
    pose proof (Z.mod_pos_bound x w ltac:(lia)) as Hm end.
  rewrite uint32_small by lia. exact Hm.
Qed.

Lemma getBucket_holds (w d : Z) (cells : Z -> Z -> Z) (cms : CountMinSketch.t) (hash i : Z) :
  cms_holds w d cells cms -> 0 < w -> 0 <= i < d ->
  getBucket cms hash i = Ret (bucket_of w i hash).
Proof.
  intros (Hw & Hd & HA & HB & _) Hpos Hi. unfold getBucket.
  rewrite HA, HB. simpl hashA. simpl hashB.
  fold (tabulate d (fun i => uint32 (uint32 (i * 2) + 1))).
  fold (tabulate d (fun i => uint32 (uint32 (i * 3) + 7))).
  rewrite !index_tabulate by lia. rewrite !bind_Ret, Hw. unfold umod.
  destruct (Z.eqb_spec w 0); [lia|]. reflexivity.
Qed.

Lemma update_row_holds (w d : Z) (cells : Z -> Z -> Z) (cms : CountMinSketch.t)
    (hash cnt k : Z) :
  cms_holds w d cells cms -> 0 < w < 2 ^ 32 -> 0 <= k < d ->
  update_row cms hash cnt k (tabulate d (fun i => tabulate w (bumped w k hash cnt cells i)))
  = Ret (tabulate d (fun i => tabulate w (bumped w (k + 1) hash cnt cells i))).
Proof.
  intros Hcms Hw Hk. unfold update_row.
  rewrite (getBucket_holds w d cells) by (try exact Hcms; lia).
  rewrite bind_Ret.
  pose proof (bucket_of_range w k hash Hw) as Hb.
  set (b := bucket_of w k hash) in *.
  rewrite index_tabulate by lia. rewrite bind_Ret.
  rewrite index_tabulate by lia. rewrite bind_Ret.
  rewrite store_tabulate by lia. rewrite bind_Ret.
  rewrite store_tabulate by lia. f_equal.
  apply tabulate_ext. intros i Hi. cbv beta.
  destruct (Z.eqb_spec i k) as [->|Hik].
  - apply tabulate_ext. intros j Hj. unfold bumped. fold b.
    destruct (Z.ltb_spec k k); [lia|]. destruct (Z.ltb_spec k (k + 1)); [|lia].
    simpl. destruct (Z.eqb_spec j b) as [->|_]; reflexivity.
  - apply tabulate_ext. intros j Hj. unfold bumped.
    destruct (Z.ltb_spec i k), (Z.ltb_spec i (k + 1)); try lia; reflexivity.
Qed.

Lemma update_rows_holds (w d : Z) (cells : Z -> Z -> Z) (cms : CountMinSketch.t)
    (hash cnt : Z) (n : nat) (k : Z) :
  cms_holds w d cells cms -> 0 < w < 2 ^ 32 -> 0 <= k -> k + Z.of_nat n = d ->
  for_loop (update_row cms hash cnt) (seqZ k (Z.of_nat n))
    (tabulate d (fun i => tabulate w (bumped w k hash cnt cells i)))
  = Ret (tabulate d (fun i => tabulate w (bumped w d hash cnt cells i))).
Proof.
  intros Hcms Hw. revert k. induction n as [|n IH]; intros k Hk Hd.
  - simpl. do 2 f_equal. replace k with d by lia. reflexivity.
  - rewrite seqZ_cons by lia. simpl for_loop.
    rewrite (update_row_holds w d cells cms) by (try assumption; lia).
    rewrite bind_Ret.
    replace (Z.pred (Z.of_nat (S n))) with (Z.of_nat n) by lia.
    replace (Z.succ k) with (k + 1) by lia.
    apply IH; lia.
Qed.

(** [Update] on a sketch in constructor shape: every row gains the count in
    the column of the item, modulo 2^32. *)
Lemma Update_holds (w d : Z) (cells : Z -> Z -> Z) (cms : CountMinSketch.t)
    (item : list byte) (cnt : Z) :
  cms_holds w d cells cms -> 0 < w < 2 ^ 32 -> 0 <= d ->
  exists cms',
    CountMinSketch.Update cms item cnt = Ret cms' /\
    cms_holds w d (bumped w d (CountMinSketch.hash item) cnt cells) cms' /\
    total cms' = uint64 (total cms + cnt).
Proof.
  intros Hcms Hw Hd. unfold CountMinSketch.Update.
  pose proof Hcms as (Ew & Ed & HA & HB & Hc).
  rewrite Hc, Ed.
  replace (tabulate d (fun i => tabulate w (cells i)))
    with (tabulate d (fun i => tabulate w (bumped w 0 (CountMinSketch.hash item) cnt cells i))).
  2:{ apply tabulate_ext. intros i Hi. apply tabulate_ext. intros j Hj.
      unfold bumped. destruct (Z.ltb_spec i 0); [lia|reflexivity]. }
  pose proof (update_rows_holds w d cells cms (CountMinSketch.hash item) cnt (Z.to_nat d) 0
                Hcms Hw ltac:(lia) ltac:(lia)) as Hloop.
  rewrite Z2Nat.id in Hloop by lia. rewrite Hloop, bind_Ret. eexists. split; [reflexivity|].
  split; [|reflexivity]. unfold cms_holds. simpl. auto.
Qed.

Lemma stream_facts (w i : Z) (item : list byte) (ops : list (list byte * Z)) :
  Forall (fun op => 0 <= op.2) ops ->
  0 <= true_count item ops /\
  true_count item ops <= cell_sum w i (bucket_of w i (CountMinSketch.hash item)) ops /\
  forall j, 0 <= cell_sum w i j ops <= stream_total ops.
Proof.
  induction 1 as [|[item' cnt] ops Hcnt _ IH]; simpl in *.
  - repeat split; lia.
  - destruct IH as (IH0 & IH1 & IH2). split; [|split].
    + destruct (decide (item' = item)); lia.
    + destruct (decide (item' = item)) as [->|_].
      * rewrite Z.eqb_refl. lia.
      * destruct (_ =? _); lia.
    + intros j. specialize (IH2 j). destruct (_ =? _); lia.
Qed.

(** Running a stream whose counts are 32-bit values with a sum below 2^32:
    no counter wraps, and each cell holds what the stream added to it. *)
Lemma update_all_holds (w d : Z) (ops : list (list byte * Z)) :
  forall (cells : Z -> Z -> Z) (cms : CountMinSketch.t),
  cms_holds w d cells cms -> 0 < w < 2 ^ 32 -> 0 <= d ->
  Forall (fun op => 0 <= op.2) ops ->
  (forall i j, 0 <= cells i j /\ cells i j + stream_total ops < 2 ^ 32) ->
  exists cms',
    update_all cms ops = Ret cms' /\
    cms_holds w d (fun i j => if i <? d then cells i j + cell_sum w i j ops else cells i j) cms'.
Proof.
  induction ops as [|[item cnt] ops IH]; intros cells cms Hcms Hw Hd Hpos Hbound.
  - simpl. exists cms. split; [reflexivity|].
    destruct Hcms as (Ew & Ed & HA & HB & Hc). repeat split; try assumption.
    rewrite Hc. apply tabulate_ext. intros i Hi. apply tabulate_ext. intros j Hj.
    simpl. destruct (i <? d); lia.
  - apply Forall_cons in Hpos as [Hcnt Hpos]. simpl in Hcnt.
    simpl update_all.
    destruct (Update_holds w d cells cms item cnt Hcms Hw Hd) as (cms1 & -> & Hcms1 & _).
    rewrite bind_Ret.
    pose proof (stream_facts w 0 item ops Hpos) as (_ & _ & Hcs0).
    assert (Htot : 0 <= stream_total ops) by (specialize (Hcs0 0); lia).
    assert (Hb1 : forall i j,
      bumped w d (CountMinSketch.hash item) cnt cells i j =
      if (i <? d) && (j =? bucket_of w i (CountMinSketch.hash item))
      then cells i j + cnt else cells i j).
    { intros i j. unfold bumped. destruct (_ && _); [|reflexivity].
      apply uint32_small. specialize (Hbound i j). simpl in Hbound. lia. }
    destruct (IH _ cms1 Hcms1 Hw Hd Hpos) as (cms' & -> & Hcms').
    { intros i j. rewrite Hb1. specialize (Hbound i j). simpl in Hbound.
      destruct (_ && _); lia. }
    exists cms'. split; [reflexivity|].
    destruct Hcms' as (Ew & Ed & HA & HB & Hc). repeat split; try assumption.
    rewrite Hc. apply tabulate_ext. intros i Hi. apply tabulate_ext. intros j Hj.
    rewrite Hb1. simpl cell_sum.
    destruct (Z.ltb_spec i d); [|lia]. simpl andb.
    rewrite (Z.eqb_sym j). destruct (_ =? j); lia.
Qed.

Lemma estimate_row_holds (w d : Z) (cells : Z -> Z -> Z) (cms : CountMinSketch.t)
    (hash k minCount : Z) :
  cms_holds w d cells cms -> 0 < w < 2 ^ 32 -> 0 <= k < d ->
  estimate_row cms hash k minCount =
    Ret (if cells k (bucket_of w k hash) <? minCount
         then cells k (bucket_of w k hash) else minCount).
Proof.
  intros Hcms Hw Hk. unfold estimate_row.
  rewrite (getBucket_holds w d cells) by (try exact Hcms; lia).
  rewrite bind_Ret.
  pose proof (bucket_of_range w k hash Hw) as Hb.
  destruct Hcms as (Ew & Ed & HA & HB & Hc). rewrite Hc.
  rewrite index_tabulate by lia. rewrite bind_Ret.
  rewrite index_tabulate by lia. reflexivity.
Qed.

Lemma estimate_rows_holds (w d : Z) (cells : Z -> Z -> Z) (cms : CountMinSketch.t)
    (hash lower : Z) (n : nat) :
  cms_holds w d cells cms -> 0 < w < 2 ^ 32 ->
  (forall i, 0 <= i < d -> lower <= cells i (bucket_of w i hash)) ->
  forall k minCount, 0 <= k -> k + Z.of_nat n = d -> lower <= minCount ->
  exists e, for_loop (estimate_row cms hash) (seqZ k (Z.of_nat n)) minCount = Ret e /\
            lower <= e.
Proof.
  intros Hcms Hw Hcells. induction n as [|n IH]; intros k minCount Hk Hd Hmin.
  - simpl. eauto.
  - rewrite seqZ_cons by lia. simpl for_loop.
    rewrite (estimate_row_holds w d cells) by (try assumption; lia).
    rewrite bind_Ret.
    replace (Z.pred (Z.of_nat (S n))) with (Z.of_nat n) by lia.
    apply IH; [lia|lia|].
    specialize (Hcells k ltac:(lia)). destruct (_ <? _); lia.
Qed.

(** C2 (amended).  One-sided error, as long as no 32-bit counter can wrap.
    On a sketch built by the constructor with a positive width, for every
    stream of updates whose counts are 32-bit values summing to less than
    2^32, every update returns, and afterwards [Estimate] returns, for every
    item, a value that is at least the sum of the counts applied for that
    item. *)
Theorem cms_estimate_no_underestimate
    (w d : Z) (ops : list (list byte * Z)) (item : list byte) :
  0 < w < 2 ^ 32 -> 0 <= d ->
  Forall (fun op => 0 <= op.2 < 2 ^ 32) ops ->
  stream_total ops < 2 ^ 32 ->
  exists cms e,
    update_all (NewCountMinSketch w d) ops = Ret cms /\
    CountMinSketch.Estimate cms item = Ret e /\
    true_count item ops <= e.
Proof.
  intros Hw Hd Hops Htot.
  assert (Hpos : Forall (fun op : list byte * Z => 0 <= op.2) ops).
  { eapply Forall_impl; [exact Hops|]. simpl. intros op Hop. lia. }
  destruct (update_all_holds w d ops (fun _ _ => 0) (NewCountMinSketch w d))
    as (cms & Hrun & Hcms); try assumption.
  { apply NewCountMinSketch_holds. }
  { intros i j. lia. }
  exists cms.
  pose proof (stream_facts w 0 item ops Hpos) as (Htc0 & Htc1 & Hcs).
  destruct (estimate_rows_holds w d _ cms (CountMinSketch.hash item)
              (true_count item ops) (Z.to_nat d) Hcms Hw) with (k := 0) (minCount := MaxUint32)
    as (e & He & Hle); try lia.
  all: try rewrite Z2Nat.id in He by lia.
  { intros i Hi. destruct (Z.ltb_spec i d); [|lia].
    pose proof (stream_facts w i item ops Hpos) as (_ & H1 & _). lia. }
  { specialize (Hcs (bucket_of w 0 (CountMinSketch.hash item))).
    unfold MaxUint32. lia. }
  exists e. split; [exact Hrun|]. split; [|exact Hle].
  unfold CountMinSketch.Estimate.
  destruct Hcms as (_ & -> & _). exact He.
Qed.

(** C2 as stated fails.  The counters are 32 bits wide and wrap: after
    [Update(k, 4294967295)] and [Update(k, 1)] every counter of [k] is back
    at 0, so the estimate is 0 while 4294967296 was applied. *)
Lemma cms_estimate_underestimates :
  (cms ← update_all (NewCountMinSketch 4 2) [([], 4294967295); ([], 1)];
   CountMinSketch.Estimate cms []) = Ret 0 /\
  true_count [] [([], 4294967295); ([], 1)] = 4294967296.
Proof. split; vm_compute; reflexivity. Qed.

(** Witness for [cms_estimate_no_underestimate]: three updates on a 4 x 2
    sketch. *)
Lemma cms_estimate_no_underestimate_witness :
  exists cms e,
    update_all (NewCountMinSketch 4 2)
      [(["a"%byte], 1); (["b"%byte], 2); (["a"%byte], 3)] = Ret cms /\
    CountMinSketch.Estimate cms ["a"%byte] = Ret e /\
    true_count ["a"%byte] [(["a"%byte], 1); (["b"%byte], 2); (["a"%byte], 3)] <= e.
Proof.
  apply (cms_estimate_no_underestimate 4 2
           [(["a"%byte], 1); (["b"%byte], 2); (["a"%byte], 3)] ["a"%byte]).
  - lia.
  - lia.
  - repeat constructor; simpl; lia.
  - simpl. lia.
Defined.

End CountMinSketchFacts.

(** ** ReservoirSampler *)

Section ReservoirSamplerFacts.
Import ReservoirSampler.

Lemma reservoir_Add_inv (rs rs' : ReservoirSampler.t) (metric : MetricPoint)
    (kept : option MetricPoint) :
  ReservoirSampler.Add rs metric = Ret (rs', kept) ->
  capacity rs' = capacity rs /\
  (Size rs <= capacity rs -> Size rs' <= capacity rs') /\
  (kept = None \/ kept = Some metric).
Proof.
  unfold ReservoirSampler.Add, Size.
  destruct (Z.ltb_spec (Z.of_nat (length (samples rs))) (capacity rs)) as [Hlt|Hge].
  - intros [= <- <-]. simpl. rewrite length_app. simpl. split; [reflexivity|].
    split; [lia|auto].
  - intros H. inv_bind H. destruct a as [randomIndex rng'].
    destruct (randomIndex <? capacity rs).
    + inv_bind H. injection H as <- <-. simpl.
      apply store_Ret_inv in Hstep0 as (_ & _ & ->).
      rewrite length_insert. auto.
    + injection H as <- <-. simpl. auto.
Qed.

Lemma add_samples_inv (stream : list MetricPoint) (rs rs' : ReservoirSampler.t) :
  add_samples rs stream = Ret rs' ->
  Size rs <= capacity rs -> capacity rs' = capacity rs /\ Size rs' <= capacity rs'.
Proof.
  revert rs. induction stream as [|metric stream IH]; intros rs H Hsize; simpl in H.
  - injection H as <-. auto.
  - inv_bind H. destruct a as [rs1 kept]. simpl in H.
    apply reservoir_Add_inv in Hstep as (Hcap & Hkeep & _).
    apply IH in H as [Hcap' Hsize']; [|auto]. split; [congruence|exact Hsize'].
Qed.

Lemma reservoir_Add_total (rs : ReservoirSampler.t) (metric : MetricPoint) :
  0 <= count rs < 2 ^ 63 - 1 -> Size rs <= capacity rs ->
  exists rs' kept, ReservoirSampler.Add rs metric = Ret (rs', kept) /\
                   count rs' = count rs + 1.
Proof.
  intros Hcount Hsize. unfold ReservoirSampler.Add, Size in *.
  rewrite (uint64_small (count rs + 1)) by lia.
  destruct (Z.ltb_spec (Z.of_nat (length (samples rs))) (capacity rs)) as [Hlt|Hge].
  - eauto.
  - unfold rand.Intn, int_of_uint64.
    destruct (Z.ltb_spec (count rs + 1) (2 ^ 63)); [|lia].
    destruct (Z.leb_spec (count rs + 1) 0); [lia|].
    destruct (rand.Int63 (rng rs)) as [x rng'] eqn:Ex. rewrite bind_Ret.
    pose proof (Z.mod_pos_bound x (count rs + 1) ltac:(lia)) as Hm.
    destruct (Z.ltb_spec (x mod (count rs + 1)) (capacity rs)) as [Hin|Hout].
    + rewrite store_Ret by lia. rewrite bind_Ret. eauto.
    + eauto.
Qed.

Lemma add_samples_total (stream : list MetricPoint) (rs : ReservoirSampler.t) :
  0 <= count rs -> count rs + Z.of_nat (length stream) < 2 ^ 63 ->
  Size rs <= capacity rs ->
  exists rs', add_samples rs stream = Ret rs'.
Proof.
  revert rs. induction stream as [|metric stream IH]; intros rs Hc Hn Hsize; simpl.
  - eauto.
  - simpl length in Hn.
    destruct (reservoir_Add_total rs metric) as (rs1 & kept & E & Hc1); [lia|exact Hsize|].
    rewrite E, bind_Ret. simpl. apply IH; [lia|lia|].
    apply reservoir_Add_inv in E as (Hcap & Hkeep & _). auto.
Qed.

End ReservoirSamplerFacts.

(** ** WeightedReservoirSampler *)

Section WeightedReservoirSamplerFacts.
Import WeightedReservoirSampler.

Lemma float_ltb_leb (x y : float) : PrimFloat.ltb x y = true -> PrimFloat.leb x y = true.
Proof.
  rewrite ltb_spec, leb_spec. unfold SFltb, SFleb.
  destruct (SFcompare (Prim2SF x) (Prim2SF y)) as [[| |]|]; congruence.
Qed.

(** C8 (amended).  Adding a record with a negative weight to the weighted
    reservoir returns normally, without any error, and leaves the sampler
    (its samples and its random generator) exactly as it was. *)
Theorem weighted_negative_weight_ignored
    (Pow : float -> float -> float)
    (wrs : WeightedReservoirSampler.t) (metric : MetricPoint) (weight : float) :
  PrimFloat.ltb weight 0%float = true ->
  AddWeighted Pow wrs metric weight = Ret wrs.
Proof.
  intros Hneg. unfold AddWeighted. now rewrite (float_ltb_leb _ _ Hneg).
Qed.

(** C8 as stated fails.  [AddWeighted] has no error result: with weight -1
    it returns normally, so the caller is told nothing.  (The state is
    indeed unchanged.) *)
Lemma weighted_negative_weight_no_error :
  returns (AddWeighted (fun x _ => x) (WeightedReservoirSampler.mk 2 [] (constant_rand 0))
             (cpu_metric "pod-1") (-1)%float) = true /\
  AddWeighted (fun x _ => x) (WeightedReservoirSampler.mk 2 [] (constant_rand 0))
    (cpu_metric "pod-1") (-1)%float
  = Ret (WeightedReservoirSampler.mk 2 [] (constant_rand 0)).
Proof. split; reflexivity. Qed.

(** Witness for [weighted_negative_weight_ignored]. *)
Lemma weighted_negative_weight_ignored_witness :
  AddWeighted (fun x _ => x) (WeightedReservoirSampler.mk 2 [] (constant_rand 0))
    (cpu_metric "pod-1") (-1)%float
  = Ret (WeightedReservoirSampler.mk 2 [] (constant_rand 0)).
Proof.
  apply (weighted_negative_weight_ignored (fun x _ => x)
           (WeightedReservoirSampler.mk 2 [] (constant_rand 0)) (cpu_metric "pod-1") (-1)%float).
  reflexivity.
Defined.

End WeightedReservoirSamplerFacts.

(** ** AdaptiveSampler *)

Section AdaptiveSamplerFacts.
Import AdaptiveSampler.

Lemma Sample_reservoirs_bounded (s s' : AdaptiveSampler.t) (metric : MetricPoint)
    (fresh : rand.Rand) (kept : option MetricPoint) (flag : bool) :
  AdaptiveSampler.Sample s metric fresh = Ret (s', kept, flag) ->
  reservoirs_bounded s -> config s' = config s /\ reservoirs_bounded s'.
Proof.
  unfold AdaptiveSampler.Sample, AdaptiveSampler.ShouldSample, reservoirs_bounded.
  destruct (rand.Float64 (rng s)) as [u rng'].
  destruct (PrimFloat.ltb u _); cbn [negb].
  2:{ intros [= <- _ _] Hinv. cbn. auto. }
  intros H Hinv. inv_bind H. unfold updateStatistics in Hstep. inv_bind Hstep.
  injection Hstep as <-. inv_bind H. destruct a as [s2 reservoir].
  inv_bind H. destruct a as [reservoir' sampled]. injection H as <- _ _. cbn.
  unfold getOrCreateReservoir in Hstep. cbn in Hstep.
  apply reservoir_Add_inv in Hstep1 as (Hcap & Hsize & _).
  assert (Hres : config s2 = config s /\
                 ReservoirSampler.capacity reservoir = ReservoirSize (config s) /\
                 ReservoirSampler.Size reservoir <= ReservoirSampler.capacity reservoir /\
                 map_Forall (fun _ rs =>
                     ReservoirSampler.capacity rs = ReservoirSize (config s) /\
                     ReservoirSampler.Size rs <= ReservoirSampler.capacity rs)
                   (reservoirs s2)).
  { destruct (reservoirs s !! getStratum metric) as [r|] eqn:Er.
    - injection Hstep as <- <-. cbn.
      destruct (Hinv _ _ Er) as [Hc Hs]. auto.
    - inv_bind Hstep. injection Hstep as <- <-. cbn.
      apply NewReservoirSampler_Ret_inv in Hstep1 as (-> & HK0 & _).
      cbn. unfold ReservoirSampler.Size. cbn.
      split; [reflexivity|]. split; [reflexivity|]. split; [lia|].
      apply map_Forall_insert_2; [|exact Hinv]. cbn. split; [reflexivity|lia]. }
  destruct Hres as (Hcfg & Hc & Hs & Hall). split; [exact Hcfg|].
  rewrite Hcfg. apply map_Forall_insert_2; [|exact Hall].
  split; [congruence|]. apply Hsize in Hs. lia.
Qed.

Lemma sample_all_reservoirs_bounded (stream : list (MetricPoint * rand.Rand))
    (s s' : AdaptiveSampler.t) :
  sample_all s stream = Ret s' ->
  reservoirs_bounded s -> config s' = config s /\ reservoirs_bounded s'.
Proof.
  revert s. induction stream as [|[metric fresh] stream IH]; intros s H Hinv; simpl in H.
  - injection H as <-. auto.
  - inv_bind H. destruct a as [[s1 kept] flag]. cbn in H.
    apply Sample_reservoirs_bounded in Hstep as [Hcfg Hinv1]; [|exact Hinv].
    apply IH in H as [Hcfg' Hinv']; [|exact Hinv1]. split; [congruence|exact Hinv'].
Qed.

(** C5.  A reservoir constructed with capacity K never holds more than K
    samples, whatever stream of records is added and whatever its random
    generator draws.  For a capacity that is not negative and within the
    allocation limit (8 bytes per slot, [maxAlloc] in all) the constructor
    returns, and so does every [Add] of a stream shorter than 2^63.  In the
    adaptive sampler, where a reservoir is created per stratum with the
    configured [ReservoirSize], no stratum ever holds more samples than
    that. *)
Theorem reservoir_size_bounded
    (K : Z) (rng : rand.Rand) (stream : list MetricPoint) :
  (forall rs0 rs,
     ReservoirSampler.NewReservoirSampler K rng = Ret rs0 ->
     add_samples rs0 stream = Ret rs ->
     ReservoirSampler.Size rs <= K) /\
  (0 <= K -> 8 * K <= maxAlloc -> Z.of_nat (length stream) < 2 ^ 63 ->
   exists rs0 rs,
     ReservoirSampler.NewReservoirSampler K rng = Ret rs0 /\
     add_samples rs0 stream = Ret rs /\
     ReservoirSampler.Size rs <= K) /\
  (forall config records s stratum rs,
     ReservoirSize config = K ->
     sample_all (NewAdaptiveSampler config rng) records = Ret s ->
     reservoirs s !! stratum = Some rs ->
     ReservoirSampler.Size rs <= K).
Proof.
  assert (Hnew : forall rs0, ReservoirSampler.NewReservoirSampler K rng = Ret rs0 ->
            ReservoirSampler.capacity rs0 = K /\ ReservoirSampler.count rs0 = 0 /\
            ReservoirSampler.Size rs0 = 0 /\ 0 <= K).
  { intros rs0 H0. apply NewReservoirSampler_Ret_inv in H0 as (-> & HK0 & _). cbn. auto. }
  assert (Hgen : forall rs0 rs,
     ReservoirSampler.NewReservoirSampler K rng = Ret rs0 ->
     add_samples rs0 stream = Ret rs ->
     ReservoirSampler.Size rs <= K).
  { intros rs0 rs H0 H. apply Hnew in H0 as (Hcap & _ & Hsz & HK).
    apply add_samples_inv in H as [Hcap' Hle]; [congruence|lia]. }
  split; [exact Hgen|]. split.
  - intros HK Hmem Hlen.
    assert (E0 : exists rs0, ReservoirSampler.NewReservoirSampler K rng = Ret rs0).
    { rewrite NewReservoirSampler_Ret by assumption. eauto. }
    destruct E0 as [rs0 E0]. pose proof (Hnew rs0 E0) as (Hcap & Hcnt & Hsz & _).
    destruct (add_samples_total stream rs0) as [rs E]; [lia|lia|lia|].
    exists rs0, rs. eauto.
  - intros config records s stratum rs HK Hrun Hrs.
    apply sample_all_reservoirs_bounded in Hrun as [Hcfg Hinv].
    + destruct (Hinv _ _ Hrs) as [Hc Hs]. rewrite Hcfg in Hc. cbn in Hc. lia.
    + unfold reservoirs_bounded. cbn. apply map_Forall_empty.
Qed.

(** Witness for [reservoir_size_bounded]: three records into a reservoir of
    capacity 1. *)
Lemma reservoir_size_bounded_witness :
  exists rs0 rs,
    ReservoirSampler.NewReservoirSampler 1 (constant_rand 1) = Ret rs0 /\
    add_samples rs0 [cpu_metric "pod-1"; cpu_metric "pod-2"; cpu_metric "pod-3"] = Ret rs /\
    ReservoirSampler.Size rs <= 1.
Proof.
  apply (proj1 (proj2 (reservoir_size_bounded 1 (constant_rand 1)
                  [cpu_metric "pod-1"; cpu_metric "pod-2"; cpu_metric "pod-3"]))).
  - lia.
  - unfold maxAlloc. lia.
  - simpl. lia.
Defined.

(** C10.  [GetEffectiveSamplingRate] is defined on every state: with no
    record processed it returns the configured base rate, and it forms the
    ratio of sampled to processed records only when the divisor, the number
    of processed records, is not zero. *)
Theorem effective_rate_zero_processed (s : AdaptiveSampler.t) :
  (totalProcessed s = 0 -> GetEffectiveSamplingRate s = BaseRate (config s)) /\
  (totalProcessed s <> 0 ->
   GetEffectiveSamplingRate s =
     PrimFloat.div (Float64.of_uint64 (totalSampled s))
                   (Float64.of_uint64 (totalProcessed s))).
Proof.
  unfold GetEffectiveSamplingRate.
  destruct (Z.eqb_spec (totalProcessed s) 0) as [E|E]; split; intros H;
    try reflexivity; contradiction.
Qed.

(** Witness for [effective_rate_zero_processed]: a sampler just constructed,
    with base rate 0.05, and the same sampler after it has admitted one
    record. *)
Lemma effective_rate_zero_processed_witness :
  GetEffectiveSamplingRate fresh_sampler = 0.05%float /\
  GetEffectiveSamplingRate (ShouldSample fresh_sampler (cpu_metric "pod-1")).1 = 1%float.
Proof.
  split.
  - exact (proj1 (effective_rate_zero_processed fresh_sampler) eq_refl).
  - rewrite (proj2 (effective_rate_zero_processed
                      (ShouldSample fresh_sampler (cpu_metric "pod-1")).1))
      by (vm_compute; discriminate).
    vm_compute. reflexivity.
Defined.

End AdaptiveSamplerFacts.

(** ** QueryEngine: ingestion *)

Section IngestFacts.
Import QueryEngine.

Lemma hll_Add_total (hll0 : HyperLogLog.t) (data : list byte) :
  hll_wf hll0 -> exists hll', HyperLogLog.Add hll0 data = Ret hll' /\ hll_wf hll'.
Proof.
  intros [Hp Hlen].
  pose proof (Sum64a_range data) as Hh. fold (HyperLogLog.hashBytes data) in Hh.
  destruct (hll_split_hash _ _ Hp Hh) as (Eidx & Hidx & _).
  unfold HyperLogLog.Add. rewrite Eidx.
  set (idx := Z.shiftr (HyperLogLog.hashBytes data) (64 - HyperLogLog.precision hll0)) in *.
  assert (Hpp : 0 < 2 ^ HyperLogLog.precision hll0) by (apply Z.pow_pos_nonneg; lia).
  assert (Hlt : (Z.to_nat idx < length (HyperLogLog.buckets hll0))%nat) by lia.
  destruct (lookup_lt_is_Some_2 _ _ Hlt) as [old Hold].
  rewrite (index_Ret _ idx old) by (try exact Hold; lia). rewrite bind_Ret.
  destruct (_ >? old); [|exists hll0; split; [reflexivity|split; assumption]].
  rewrite store_Ret by lia. rewrite bind_Ret. eexists. split; [reflexivity|].
  split; cbn; [exact Hp|]. now rewrite length_insert.
Qed.

Lemma updateDataStructures_total (qe : QueryEngine.t) (metric : MetricPoint) :
  engine_wf qe ->
  exists hll' cms' bloom',
    HyperLogLog.Add (hll qe) (bytes_of_string (getMetricKey metric)) = Ret hll' /\
    CountMinSketch.Update (cms qe) (bytes_of_string (getMetricKey metric)) 1 = Ret cms' /\
    BloomFilter.Add (bloom qe) (bytes_of_string (getMetricKey metric)) = Ret bloom' /\
    updateDataStructures qe metric =
      Ret (QueryEngine.mk hll' cms' bloom' (sampler qe) (samples qe) (stats qe)) /\
    forall sampler' samples' stats',
      engine_wf (QueryEngine.mk hll' cms' bloom' sampler' samples' stats').
Proof.
  intros (Hhll & Hbloom & Hw & Hd & cells & Hcms).
  destruct (hll_Add_total (hll qe) (bytes_of_string (getMetricKey metric)) Hhll)
    as (hll' & E1 & Hhll').
  destruct (Update_holds _ _ cells (cms qe) (bytes_of_string (getMetricKey metric)) 1 Hcms Hw Hd)
    as (cms' & E2 & Hcms' & _).
  destruct (Add_total (bloom qe) (bytes_of_string (getMetricKey metric)) Hbloom)
    as (bloom' & E3 & Hbloom').
  exists hll', cms', bloom'. unfold updateDataStructures.
  rewrite E1, bind_Ret, E2, bind_Ret, E3, bind_Ret.
  do 4 (split; [reflexivity|]). intros sampler' samples' stats'.
  pose proof Hcms' as (Ew & Ed & _).
  split; [exact Hhll'|]. split; [exact Hbloom'|]. cbn. rewrite Ew, Ed.
  split; [exact Hw|]. split; [exact Hd|]. eauto.
Qed.

(** What [Sample] says when it hands back a sample: the draw was below the
    computed rate, and the sample is the copy of the record. *)
Lemma Sample_kept (s s' : AdaptiveSampler.t) (metric sampled : MetricPoint)
    (fresh : rand.Rand) (flag : bool) :
  AdaptiveSampler.Sample s metric fresh = Ret (s', Some sampled, flag) ->
  sampled = metric /\ flag = true /\
  PrimFloat.ltb (rand.Float64 (AdaptiveSampler.rng s)).1
                (AdaptiveSampler.calculateSamplingRate s metric) = true.
Proof.
  unfold AdaptiveSampler.Sample, AdaptiveSampler.ShouldSample.
  destruct (rand.Float64 (AdaptiveSampler.rng s)) as [u rng'] eqn:Eu. cbn [fst].
  destruct (PrimFloat.ltb u _) eqn:Edraw; cbn [negb]; [|discriminate].
  intros H. inv_bind H. inv_bind H. destruct a0 as [s2 reservoir].
  inv_bind H. destruct a0 as [reservoir' kept]. injection H as _ Hkept Hflag.
  subst kept flag.
  apply reservoir_Add_inv in Hstep1 as (_ & _ & [E|E]); [discriminate|].
  injection E as ->. auto.
Qed.

(** The shape of the sketches is established by the constructor, for a
    configuration with a positive frequency width and membership size, and
    kept by every ingestion. *)
Lemma NewQueryEngine_wf (config : QueryEngineConfig) (now : Z) (rng : rand.Rand) :
  0 < CMSWidth config < 2 ^ 32 -> 0 <= CMSDepth config -> 0 < BloomSize config ->
  exists qe, NewQueryEngine config now rng = Ret qe /\ engine_wf qe.
Proof.
  intros Hw Hd Hb. unfold NewQueryEngine.
  destruct (NewHyperLogLog_returns (HLLPrecision config)) as (hll0 & E).
  rewrite E, bind_Ret. eexists. split; [reflexivity|].
  split; [exact (NewHyperLogLog_wf _ _ E)|].
  split; [apply NewBloomFilter_wf; exact Hb|]. cbn.
  split; [exact Hw|]. split; [exact Hd|]. eexists. apply NewCountMinSketch_holds.
Qed.

Lemma ProcessMetric_wf (qe qe' : QueryEngine.t) (metric : MetricPoint) (fresh : rand.Rand) :
  engine_wf qe -> ProcessMetric qe metric fresh = Ret qe' -> engine_wf qe'.
Proof.
  intros Hwf H. unfold ProcessMetric in H. inv_bind H.
  destruct a as [[sampler' sampled] shouldSample].
  set (qe1 := QueryEngine.mk (hll qe) (cms qe) (bloom qe) sampler' (samples qe) (stats qe)) in H.
  assert (Hwf1 : engine_wf qe1) by exact Hwf.
  inv_bind H. injection H as <-.
  destruct shouldSample, sampled as [kept|];
    try (injection Hstep0 as <-; exact Hwf1).
  destruct (updateDataStructures_total qe1 kept Hwf1)
    as (hll' & cms' & bloom' & _ & _ & _ & E & Hwf').
  rewrite E, bind_Ret in Hstep0. injection Hstep0 as <-. apply Hwf'.
Qed.

(** C1 (amended).  For every record that the adaptive sampler admits (the
    draw is below the computed rate) and whose stratum reservoir keeps it
    ([Sample] hands back the stored copy), [ProcessMetric] on an engine with
    well-shaped sketches returns, and the cardinality, frequency and
    membership sketches of the new state are the old ones after
    [Add], [Update] by 1 and [Add] of the key cluster/namespace/pod/metric of
    the record; in particular the membership sketch then contains the key. *)
Theorem ingest_updates_sketches
    (qe : QueryEngine.t) (metric : MetricPoint) (fresh : rand.Rand)
    (s' : AdaptiveSampler.t) (sampled : MetricPoint) (flag : bool) :
  engine_wf qe ->
  AdaptiveSampler.Sample (sampler qe) metric fresh = Ret (s', Some sampled, flag) ->
  let key := bytes_of_string (GetKey metric) in
  PrimFloat.ltb (rand.Float64 (AdaptiveSampler.rng (sampler qe))).1
                (AdaptiveSampler.calculateSamplingRate (sampler qe) metric) = true /\
  exists qe',
    ProcessMetric qe metric fresh = Ret qe' /\
    HyperLogLog.Add (hll qe) key = Ret (hll qe') /\
    CountMinSketch.Update (cms qe) key 1 = Ret (cms qe') /\
    BloomFilter.Add (bloom qe) key = Ret (bloom qe') /\
    BloomFilter.Contains (bloom qe') key = Ret true.
Proof.
  intros Hwf HSample key.
  destruct (Sample_kept _ _ _ _ _ _ HSample) as (-> & -> & Hdraw).
  split; [exact Hdraw|].
  unfold ProcessMetric. rewrite HSample, bind_Ret.
  set (qe1 := QueryEngine.mk (hll qe) (cms qe) (bloom qe) s' (samples qe) (stats qe)).
  assert (Hwf1 : engine_wf qe1) by exact Hwf.
  destruct (updateDataStructures_total qe1 metric Hwf1)
    as (hll' & cms' & bloom' & E1 & E2 & E3 & E & _).
  rewrite E, !bind_Ret. eexists. split; [reflexivity|]. cbn.
  change (getMetricKey metric) with (GetKey metric) in *. fold key in E1, E2, E3.
  cbn in E1, E2, E3.
  split; [exact E1|]. split; [exact E2|]. split; [exact E3|].
  apply (bloom_added_is_contained (bloom qe) bloom' bloom' key [] E3).
  reflexivity.
Qed.

(** *** A small engine, for the concrete runs *)

Lemma small_engine_constructed :
  NewQueryEngine small_config 0 (constant_rand 0) = Ret small_engine.
Proof. reflexivity. Qed.

Lemma small_engine_wf : engine_wf small_engine.
Proof.
  split; [split; simpl; [lia|reflexivity]|].
  split; [apply NewBloomFilter_wf; lia|].
  split; [simpl; lia|]. split; [simpl; lia|].
  eexists. apply NewCountMinSketch_holds.
Qed.

(** C1 as stated fails.  With a reservoir of capacity 1 per stratum, the
    record of pod-1 is admitted and kept.  The record of pod-2, of the same
    stratum, is admitted too (its draw is below the rate), but the reservoir
    draws index 1 of [0, 2) and discards it: [Sample] hands back nil and the
    sketches never see its key.  The membership sketch answers false for the
    key, the frequency sketch estimates 0, the registers are unchanged. *)
Lemma ingest_admitted_record_skipped :
  (qe1 ← ProcessMetric small_engine (cpu_metric "pod-1") (constant_rand 1);
   qe2 ← ProcessMetric qe1 (cpu_metric "pod-2") (constant_rand 1);
   present ← BloomFilter.Contains (bloom qe2)
               (bytes_of_string (GetKey (cpu_metric "pod-2")));
   estimate ← CountMinSketch.Estimate (cms qe2)
               (bytes_of_string (GetKey (cpu_metric "pod-2")));
   Ret (PrimFloat.ltb (rand.Float64 (AdaptiveSampler.rng (sampler qe1))).1
          (AdaptiveSampler.calculateSamplingRate (sampler qe1) (cpu_metric "pod-2")),
        present, estimate,
        bool_decide (HyperLogLog.buckets (hll qe2) = HyperLogLog.buckets (hll qe1))))
  = Ret (true, false, 0, true).
Proof. vm_compute. reflexivity. Qed.

(** Witness for [ingest_updates_sketches]: the first record into
    [small_engine]. *)
Lemma ingest_updates_sketches_witness :
  PrimFloat.ltb (rand.Float64 (AdaptiveSampler.rng (sampler small_engine))).1
    (AdaptiveSampler.calculateSamplingRate (sampler small_engine) (cpu_metric "pod-1"))
  = true /\
  exists qe',
    ProcessMetric small_engine (cpu_metric "pod-1") (constant_rand 1) = Ret qe' /\
    HyperLogLog.Add (hll small_engine) (bytes_of_string (GetKey (cpu_metric "pod-1")))
      = Ret (hll qe') /\
    CountMinSketch.Update (cms small_engine)
      (bytes_of_string (GetKey (cpu_metric "pod-1"))) 1 = Ret (cms qe') /\
    BloomFilter.Add (bloom small_engine) (bytes_of_string (GetKey (cpu_metric "pod-1")))
      = Ret (bloom qe') /\
    BloomFilter.Contains (bloom qe') (bytes_of_string (GetKey (cpu_metric "pod-1")))
      = Ret true.
Proof.
  eapply (ingest_updates_sketches small_engine (cpu_metric "pod-1") (constant_rand 1)).
  - exact small_engine_wf.
  - vm_compute. reflexivity.
Defined.

End IngestFacts.

(** ** QueryEngine: percentile queries *)

Section QueryFacts.
Import QueryEngine.

Variable ParseFloat : string -> option float.

Lemma executePercentile_empty (qe : QueryEngine.t) (request : QueryRequest) :
  getFilteredSamples qe request = [] ->
  executePercentile ParseFloat qe request =
    Ret (Some {| QR_ID := ID request; QR_Query := Query request; Result := Nil;
                 Error := None; QR_Confidence := None; SampleSize := 0;
                 ProcessingTime := 0; IsApproximate := false; QR_Timestamp := 0 |},
         None).
Proof. intros H. unfold executePercentile. rewrite H. reflexivity. Qed.

Lemma executePercentile_out_of_range (qe : QueryEngine.t) (request : QueryRequest) :
  getFilteredSamples qe request <> [] ->
  PrimFloat.ltb (extractPercentileValue ParseFloat (Query request)) 0%float = true \/
  PrimFloat.ltb 100%float (extractPercentileValue ParseFloat (Query request)) = true ->
  executePercentile ParseFloat qe request =
    Ret (None, Some (ErrInvalidPercentile (extractPercentileValue ParseFloat (Query request)))).
Proof.
  intros Hne Hout. unfold executePercentile.
  destruct (getFilteredSamples qe request) as [|sample rest]; [contradiction|].
  cbn [length]. destruct (Z.eqb_spec (Z.of_nat (S (length rest))) 0) as [E|_]; [lia|].
  destruct Hout as [-> | ->]; [reflexivity|]. now rewrite orb_true_r.
Qed.

Variables executeCountDistinct executeSum executeAverage executeTopK
          executeMembership executeFrequencyCount
  : QueryEngine.t -> QueryRequest -> exec (option QueryResult * option error).

Lemma processQuery_percentile (qe : QueryEngine.t) (request : QueryRequest) :
  QueryType request = metrics.Percentile ->
  processQuery ParseFloat executeCountDistinct executeSum executeAverage executeTopK
    executeMembership executeFrequencyCount qe request
  = executePercentile ParseFloat qe request.
Proof. intros H. unfold processQuery. rewrite H. reflexivity. Qed.

(** The part of the percentile claim that the code keeps.  A percentile
    request whose text yields a percentile below 0 or
    above 100, over a non-empty set of filter-matching samples, makes
    [ExecuteQuery] return no result and the error "invalid percentile
    value".  When no sample matches the filters it returns instead, whatever
    the percentile, a result with a nil payload, sample size 0 and the
    approximate flag off, and no error. *)
Theorem percentile_query_errors
    (qe : QueryEngine.t) (request : QueryRequest) (processingTime now : Z) :
  QueryType request = metrics.Percentile ->
  let percentileValue := extractPercentileValue ParseFloat (Query request) in
  let execute :=
    ExecuteQuery ParseFloat executeCountDistinct executeSum executeAverage executeTopK
      executeMembership executeFrequencyCount qe request processingTime now in
  (getFilteredSamples qe request <> [] ->
   PrimFloat.ltb percentileValue 0%float = true \/
   PrimFloat.ltb 100%float percentileValue = true ->
   exists qe', execute = Ret (qe', None, Some (ErrInvalidPercentile percentileValue))) /\
  (getFilteredSamples qe request = [] ->
   0 <= TotalQueries (stats qe) < 2 ^ 64 - 1 ->
   exists qe' result,
     execute = Ret (qe', Some result, None) /\
     Result result = Nil /\ SampleSize result = 0 /\ IsApproximate result = false).
Proof.
  intros Htype percentileValue execute. subst execute. unfold ExecuteQuery.
  rewrite processQuery_percentile by exact Htype.
  split.
  - intros Hne Hout.
    rewrite executePercentile_out_of_range by assumption.
    rewrite bind_Ret. eauto.
  - intros Hempty Hcount.
    rewrite executePercentile_empty by exact Hempty.
    rewrite bind_Ret. cbn [TotalQueries IsApproximate].
    rewrite (uint64_small (TotalQueries (stats qe) + 1)) by lia.
    unfold div_int64.
    destruct (Z.eqb_spec (int_of_uint64 (TotalQueries (stats qe) + 1)) 0) as [E|_].
    { unfold int_of_uint64 in E. destruct (_ <? _); lia. }
    rewrite bind_Ret. eexists _, _. split; [reflexivity|]. auto.
Qed.

End QueryFacts.

(** Witness for [percentile_query_errors]: [PERCENTILE(150)] over one sample
    is refused; over no sample it yields the empty result. *)
Lemma percentile_query_errors_witness :
  (exists qe',
     QueryEngine.ExecuteQuery parse_integer_literal no_handler no_handler no_handler
       no_handler no_handler no_handler engine_with_sample
       (percentile_request "PERCENTILE(150) cpu_usage") 5 7
     = Ret (qe', None, Some (ErrInvalidPercentile 150%float))) /\
  (exists qe' result,
     QueryEngine.ExecuteQuery parse_integer_literal no_handler no_handler no_handler
       no_handler no_handler no_handler small_engine
       (percentile_request "PERCENTILE(150) cpu_usage") 5 7
     = Ret (qe', Some result, None) /\
     Result result = Nil /\ SampleSize result = 0 /\ IsApproximate result = false).
Proof.
  split.
  - apply (proj1 (percentile_query_errors parse_integer_literal no_handler no_handler
                    no_handler no_handler no_handler no_handler engine_with_sample
                    (percentile_request "PERCENTILE(150) cpu_usage") 5 7 eq_refl)).
    + vm_compute. discriminate.
    + right. vm_compute. reflexivity.
  - apply (proj2 (percentile_query_errors parse_integer_literal no_handler no_handler
                    no_handler no_handler no_handler no_handler small_engine
                    (percentile_request "PERCENTILE(150) cpu_usage") 5 7 eq_refl)).
    + vm_compute. reflexivity.
    + simpl. lia.
Defined.

(** * Further properties of the sketches *)

(** ** Two objects under their locks *)

Section LockFacts.
Import sync.
Context {A : Type}.

Lemma locked_distinct (h : heap A) (a b : positive) (x y x' : A) (body : A -> A -> exec A) :
  a <> b ->
  h !! a = Some (Obj x Unlocked) -> h !! b = Some (Obj y Unlocked) ->
  body x y = Ret x' ->
  locked h a b body = Ret (<[a := Obj x' Unlocked]> h).
Proof.
  intros Hab Ha Hb Hbody. unfold locked, Lock, RLock, RUnlock, Unlock, deref.
  rewrite Ha. cbn.
  rewrite lookup_insert_ne by exact Hab. rewrite Hb. cbn.
  assert (Hba : b <> a) by congruence.
  rewrite (lookup_insert_ne _ b a) by exact Hba. rewrite lookup_insert_eq. cbn.
  rewrite lookup_insert_eq. cbn. rewrite Hbody. cbn.
  rewrite (lookup_insert_ne _ a b) by exact Hab. rewrite lookup_insert_eq. cbn.
  rewrite (lookup_insert_ne _ b a) by exact Hba. rewrite lookup_insert_eq. cbn.
  f_equal. apply map_eq. intros k.
  rewrite !lookup_insert. repeat case_decide; subst; congruence.
Qed.

Lemma locked_same (h : heap A) (a : positive) (x : A) (body : A -> A -> exec A) :
  h !! a = Some (Obj x Unlocked) -> locked h a a body = Blocked.
Proof.
  intros Ha. unfold locked, Lock, RLock, deref. rewrite Ha. cbn.
  rewrite lookup_insert_eq. reflexivity.
Qed.

Lemma locked_panics (h : heap A) (a b : positive) (x y : A) (body : A -> A -> exec A)
    (p : panic) :
  a <> b ->
  h !! a = Some (Obj x Unlocked) -> h !! b = Some (Obj y Unlocked) ->
  body x y = Panic p ->
  locked h a b body = Panic p.
Proof.
  intros Hab Ha Hb Hbody. unfold locked, Lock, RLock, deref.
  rewrite Ha. cbn.
  rewrite lookup_insert_ne by exact Hab. rewrite Hb. cbn.
  assert (Hba : b <> a) by congruence.
  rewrite (lookup_insert_ne _ b a) by exact Hba. rewrite lookup_insert_eq. cbn.
  rewrite lookup_insert_eq. cbn. rewrite Hbody. reflexivity.
Qed.

End LockFacts.

(** ** Slices as tables *)

Lemma list_as_tabulate {A : Type} (d : A) (n : Z) (l : list A) :
  length l = Z.to_nat n ->
  l = tabulate n (fun i => default d (l !! Z.to_nat i)).
Proof.
  intros Hlen. apply list_eq. intros k.
  destruct (decide (k < length l)%nat) as [Hk|Hk].
  - replace k with (Z.to_nat (Z.of_nat k)) at 2 by lia.
    rewrite lookup_tabulate by lia. rewrite Nat2Z.id.
    destruct (lookup_lt_is_Some_2 _ _ Hk) as [x Hx]. rewrite Hx. reflexivity.
  - rewrite lookup_ge_None_2 by lia.
    rewrite lookup_ge_None_2; [reflexivity|]. rewrite length_tabulate. lia.
Qed.

Lemma zip_with_tabulate {A B C : Type} (f : A -> B -> C) (n : Z) (g : Z -> A) (k : Z -> B) :
  zip_with f (tabulate n g) (tabulate n k) = tabulate n (fun i => f (g i) (k i)).
Proof.
  unfold tabulate. rewrite zip_with_fmap_l, zip_with_fmap_r, zip_with_diag.
  reflexivity.
Qed.

Lemma Forall_tabulate {A : Type} (P : A -> Prop) (n : Z) (f : Z -> A) :
  (forall i, 0 <= i < n -> P (f i)) -> Forall P (tabulate n f).
Proof.
  intros H. unfold tabulate. apply Forall_fmap, Forall_forall.
  intros i Hi. apply elem_of_seqZ in Hi. apply H. lia.
Qed.

(** A counting loop whose state after [i] rounds is [I i]. *)
Lemma for_loop_seqZ {St : Type} (body : Z -> St -> exec St) (I : Z -> St) (n : nat) :
  forall k : Z,
  (forall i, k <= i < k + Z.of_nat n -> body i (I i) = Ret (I (i + 1))) ->
  for_loop body (seqZ k (Z.of_nat n)) (I k) = Ret (I (k + Z.of_nat n)).
Proof.
  induction n as [|n IH]; intros k Hbody.
  - simpl. f_equal. f_equal. lia.
  - rewrite seqZ_cons by lia. simpl for_loop.
    rewrite Hbody by lia. rewrite bind_Ret.
    replace (Z.pred (Z.of_nat (S n))) with (Z.of_nat n) by lia.
    replace (Z.succ k) with (k + 1) by lia.
    rewrite IH by (intros i Hi; apply Hbody; lia).
    f_equal. f_equal. lia.
Qed.

Lemma for_loop_seqZ_0 {St : Type} (body : Z -> St -> exec St) (I : Z -> St) (n : Z) :
  0 <= n ->
  (forall i, 0 <= i < n -> body i (I i) = Ret (I (i + 1))) ->
  for_loop body (seqZ 0 n) (I 0) = Ret (I n).
Proof.
  intros Hn Hbody.
  pose proof (for_loop_seqZ body I (Z.to_nat n) 0) as H.
  rewrite Z2Nat.id in H by lia. rewrite H; [f_equal|]. intros i Hi. apply Hbody. lia.
Qed.

Lemma map_const_replicate {A B : Type} (c : B) (l : list A) :
  map (fun _ => c) l = replicate (length l) c.
Proof. induction l as [|x l IH]; simpl; [reflexivity|]. now rewrite IH. Qed.

(** ** HyperLogLog: streams, Clear and Merge *)

Section HyperLogLogStreamFacts.
Import HyperLogLog.

Lemma hll_register_rank_range (p : Z) (data : list byte) :
  4 <= p <= 16 ->
  0 <= register_of p data < 2 ^ p /\ 1 <= rank_of p data <= 64 - p.
Proof.
  intros Hp. pose proof (Sum64a_range data) as Hh. fold (hashBytes data) in Hh.
  destruct (hll_split_hash p (hashBytes data) Hp Hh) as (Eidx & Hidx & Ew & Hr).
  unfold register_of, rank_of. cbv zeta. rewrite Eidx, Ew. split; [exact Hidx|].
  set (rest := hashBytes data mod 2 ^ (64 - p)) in *.
  assert (Hpp : 0 < 2 ^ p) by (apply Z.pow_pos_nonneg; lia).
  destruct (Z.eqb_spec (rest * 2 ^ p) 0) as [E0|Hne]; cbn [negb]; [lia|].
  assert (Hrest : 0 < rest) by nia.
  assert (Hw : 0 < rest * 2 ^ p < 2 ^ 64).
  { replace (2 ^ 64) with (2 ^ (64 - p) * 2 ^ p)
      by (rewrite <- Z.pow_add_r by lia; f_equal; lia).
    split; [nia|]. apply Z.mul_lt_mono_pos_r; lia. }
  rewrite countLeadingZeros_log2 by exact Hw.
  rewrite Z.log2_mul_pow2 by lia.
  assert (Hlog : 0 <= Z.log2 rest < 64 - p).
  { split; [apply Z.log2_nonneg|]. apply Z.log2_lt_pow2; lia. }
  rewrite (uint8_small (63 - (p + Z.log2 rest))) by lia.
  rewrite uint8_small by lia. lia.
Qed.

(** [Add] on a sketch whose registers are the table [f]. *)
Lemma hll_Add_tab (p n : Z) (f : Z -> Z) (al : float) (data : list byte) :
  4 <= p <= 16 ->
  HyperLogLog.Add (HyperLogLog.mk p n (tabulate (2 ^ p) f) al) data =
    Ret (HyperLogLog.mk p n
           (tabulate (2 ^ p)
              (fun i => if i =? register_of p data then Z.max (f i) (rank_of p data) else f i))
           al).
Proof.
  intros Hp. destruct (hll_register_rank_range p data Hp) as [Hidx Hrank].
  change (HyperLogLog.Add (HyperLogLog.mk p n (tabulate (2 ^ p) f) al) data)
    with (cur ← index (tabulate (2 ^ p) f) (register_of p data);
          if rank_of p data >? cur then
            buckets' ← store (tabulate (2 ^ p) f) (register_of p data) (rank_of p data);
            Ret (HyperLogLog.mk p n buckets' al)
          else Ret (HyperLogLog.mk p n (tabulate (2 ^ p) f) al)).
  rewrite index_tabulate by lia. rewrite bind_Ret.
  destruct (Z.gtb_spec (rank_of p data) (f (register_of p data))) as [Hgt|Hle].
  - rewrite store_tabulate by lia. rewrite bind_Ret. do 2 f_equal.
    apply tabulate_ext. intros i Hi. cbv beta.
    destruct (Z.eqb_spec i (register_of p data)) as [->|_]; [lia|reflexivity].
  - do 2 f_equal. apply tabulate_ext. intros i Hi. cbv beta.
    destruct (Z.eqb_spec i (register_of p data)) as [->|_]; [lia|reflexivity].
Qed.

Lemma hll_add_all_tab (p n : Z) (al : float) (items : list (list byte)) :
  4 <= p <= 16 ->
  forall f : Z -> Z,
  hll_add_all (HyperLogLog.mk p n (tabulate (2 ^ p) f) al) items =
    Ret (HyperLogLog.mk p n (tabulate (2 ^ p) (fun i => stream_rank p items i (f i))) al).
Proof.
  intros Hp. induction items as [|data items IH]; intros f.
  - reflexivity.
  - cbn [hll_add_all]. rewrite hll_Add_tab by exact Hp. rewrite bind_Ret.
    rewrite IH. reflexivity.
Qed.

Lemma hll_wf_as_tab (hll : HyperLogLog.t) :
  hll_wf hll ->
  exists f, hll = HyperLogLog.mk (precision hll) (m hll) (tabulate (2 ^ precision hll) f)
                    (alpha hll).
Proof.
  intros [Hp Hlen]. exists (fun i => default 0 (buckets hll !! Z.to_nat i)).
  rewrite <- (list_as_tabulate 0 _ _ Hlen). destruct hll; reflexivity.
Qed.

Lemma stream_rank_spec (p i : Z) (items : list (list byte)) :
  forall old,
  old <= stream_rank p items i old /\
  (forall d, d ∈ items -> register_of p d = i -> rank_of p d <= stream_rank p items i old) /\
  (stream_rank p items i old = old \/
   exists d, d ∈ items /\ register_of p d = i /\ stream_rank p items i old = rank_of p d).
Proof.
  induction items as [|a items IH]; intros old.
  - cbn. split; [lia|]. split; [|now left]. intros d Hd. inversion Hd.
  - change (stream_rank p (a :: items) i old)
      with (stream_rank p items i
              (if i =? register_of p a then Z.max old (rank_of p a) else old)).
    destruct (IH (if i =? register_of p a then Z.max old (rank_of p a) else old))
      as (Hge & Hall & Hex).
    destruct (Z.eqb_spec i (register_of p a)) as [Ei|Ei].
    + split; [lia|]. split.
      * intros d Hd Hreg. apply elem_of_cons in Hd as [->|Hd]; [lia|auto].
      * destruct Hex as [Hex|(d & Hd & Hreg & Hex)].
        -- destruct (Z.max_spec old (rank_of p a)) as [[_ Em]|[_ Em]].
           ++ right. exists a. split; [left|]. split; [congruence|]. congruence.
           ++ left. congruence.
        -- right. exists d. split; [now right|]. auto.
    + split; [lia|]. split.
      * intros d Hd Hreg. apply elem_of_cons in Hd as [->|Hd]; [congruence|auto].
      * destruct Hex as [Hex|(d & Hd & Hreg & Hex)]; [now left|].
        right. exists d. split; [now right|]. auto.
Qed.

Lemma stream_rank_incl (p i old : Z) (items1 items2 : list (list byte)) :
  (forall d, d ∈ items1 -> d ∈ items2) ->
  stream_rank p items1 i old <= stream_rank p items2 i old.
Proof.
  intros Hincl.
  destruct (stream_rank_spec p i items1 old) as (_ & _ & Hex).
  destruct (stream_rank_spec p i items2 old) as (Hge & Hall & _).
  destruct Hex as [->|(d & Hd & Hreg & ->)]; [exact Hge|].
  apply Hall; auto.
Qed.

Lemma stream_rank_app (p i old : Z) (items1 items2 : list (list byte)) :
  stream_rank p (items1 ++ items2) i old =
  stream_rank p items2 i (stream_rank p items1 i old).
Proof. unfold stream_rank. apply fold_left_app. Qed.

Lemma stream_rank_max (p i old : Z) (items : list (list byte)) :
  0 <= old -> 4 <= p <= 16 ->
  stream_rank p items i old = Z.max old (stream_rank p items i 0).
Proof.
  intros Hold Hp. revert old Hold. induction items as [|a items IH]; intros old Hold.
  - cbn. lia.
  - change (stream_rank p (a :: items) i old)
      with (stream_rank p items i
              (if i =? register_of p a then Z.max old (rank_of p a) else old)).
    change (stream_rank p (a :: items) i 0)
      with (stream_rank p items i
              (if i =? register_of p a then Z.max 0 (rank_of p a) else 0)).
    destruct (hll_register_rank_range p a Hp) as [_ Hr].
    destruct (Z.eqb_spec i (register_of p a)) as [Ei|Ei].
    + rewrite (IH (Z.max old (rank_of p a))) by lia.
      rewrite (IH (Z.max 0 (rank_of p a))) by lia. lia.
    + apply IH. exact Hold.
Qed.

Lemma effective_precision_range (p : Z) : 4 <= effective_precision p <= 16.
Proof.
  unfold effective_precision.
  destruct (Z.ltb_spec p 4); [simpl; lia|]. destruct (Z.gtb_spec p 16); simpl; lia.
Qed.

Lemma NewHyperLogLog_closed (p : Z) :
  NewHyperLogLog p =
    Ret (HyperLogLog.mk (effective_precision p) (2 ^ effective_precision p)
           (tabulate (2 ^ effective_precision p) (fun _ => 0))
           (calculateAlpha (2 ^ effective_precision p))).
Proof.
  pose proof (effective_precision_range p) as Hq.
  rewrite <- replicate_tabulate. rewrite <- NewHyperLogLog_in_range by exact Hq.
  unfold effective_precision.
  destruct (Z.ltb_spec p 4); [apply NewHyperLogLog_out_of_range; lia|].
  destruct (Z.gtb_spec p 16); [apply NewHyperLogLog_out_of_range; lia|reflexivity].
Qed.

(** The sketch of a stream, in closed form. *)
Lemma hll_of_stream_tab (p : Z) (items : list (list byte)) :
  hll_of_stream p items =
    Ret (HyperLogLog.mk (effective_precision p) (2 ^ effective_precision p)
           (tabulate (2 ^ effective_precision p)
              (fun i => stream_rank (effective_precision p) items i 0))
           (calculateAlpha (2 ^ effective_precision p))).
Proof.
  unfold hll_of_stream. rewrite NewHyperLogLog_closed, bind_Ret.
  apply hll_add_all_tab, effective_precision_range.
Qed.

(** X1.  The state of the cardinality sketch after a stream depends only on
    the set of items in the stream: two streams that hold the same items, in
    whatever order and with whatever repetitions, leave a sketch in the same
    state, and every [Add] of either stream returns. *)
Theorem hll_state_depends_on_item_set
    (hll : HyperLogLog.t) (items1 items2 : list (list byte)) :
  hll_wf hll ->
  (forall d, d ∈ items1 <-> d ∈ items2) ->
  exists hll', hll_add_all hll items1 = Ret hll' /\ hll_add_all hll items2 = Ret hll'.
Proof.
  intros Hwf Hsame. pose proof Hwf as [Hp _].
  destruct (hll_wf_as_tab hll Hwf) as [f ->]. cbn [precision] in Hp |- *.
  rewrite !hll_add_all_tab by exact Hp.
  eexists. split; [reflexivity|]. do 2 f_equal.
  apply tabulate_ext. intros i _. cbv beta.
  apply Z.le_antisymm; apply stream_rank_incl; intros d; apply Hsame.
Qed.

(** Witness for [hll_state_depends_on_item_set]: a stream and a reordering of
    it with a repetition. *)
Lemma hll_state_depends_on_item_set_witness :
  exists hll',
    hll_add_all (HyperLogLog.mk 4 16 (replicate 16%nat 0) (calculateAlpha 16))
      [["a"%byte]; ["b"%byte]; ["a"%byte]] = Ret hll' /\
    hll_add_all (HyperLogLog.mk 4 16 (replicate 16%nat 0) (calculateAlpha 16))
      [["b"%byte]; ["a"%byte]] = Ret hll'.
Proof.
  apply hll_state_depends_on_item_set.
  - split; simpl; [lia|reflexivity].
  - intros d. rewrite !elem_of_cons, !elem_of_nil. tauto.
Defined.

Lemma stats_step_max (bound : Z) (l : list Z) :
  Forall (fun r => 0 <= r <= bound) l ->
  forall e mx, 0 <= mx <= bound ->
  0 <= (fold_left stats_step l (e, mx)).2 <= bound.
Proof.
  induction 1 as [|r l Hr _ IH]; intros e mx Hmx; [exact Hmx|].
  cbn [fold_left stats_step]. apply IH. destruct (r >? mx); lia.
Qed.

(** X2.  Every register of a sketch built from a stream holds a value between
    0 and 64 - p, where p is the precision in effect; so does the largest
    register that [GetStats] reports.  The constructor and every [Add] of the
    stream return. *)
Theorem hll_registers_bounded (p : Z) (items : list (list byte)) :
  exists hll,
    hll_of_stream p items = Ret hll /\
    4 <= precision hll <= 16 /\
    Forall (fun r => 0 <= r <= 64 - precision hll) (buckets hll) /\
    0 <= MaxBucket (GetStats hll) <= 64 - precision hll.
Proof.
  pose proof (effective_precision_range p) as Hq.
  set (q := effective_precision p) in Hq.
  eexists. split; [apply hll_of_stream_tab|]. fold q. cbn [precision buckets].
  split; [exact Hq|].
  assert (Hall : Forall (fun r => 0 <= r <= 64 - q)
                   (tabulate (2 ^ q) (fun i => stream_rank q items i 0))).
  { apply Forall_tabulate. intros i _.
    destruct (stream_rank_spec q i items 0) as (Hge & _ & Hex).
    split; [exact Hge|].
    destruct Hex as [->|(d & _ & _ & ->)]; [lia|].
    now destruct (hll_register_rank_range q d Hq). }
  split; [exact Hall|].
  unfold GetStats. cbn [buckets].
  pose proof (stats_step_max (64 - q) _ Hall 0 0 ltac:(lia)) as Hmax.
  destruct (fold_left stats_step _ (0, 0)) as [e mx]. exact Hmax.
Qed.

(** [Clear] brings a sketch built from a stream back to the state the
    constructor gave it: adding a stream to the cleared sketch yields the
    very sketch that stream yields from a new one. *)
Theorem hll_clear_then_add (p : Z) (items1 items2 : list (list byte)) :
  exists hll,
    hll_of_stream p items1 = Ret hll /\
    NewHyperLogLog p = Ret (HyperLogLog.Clear hll) /\
    hll_add_all (HyperLogLog.Clear hll) items2 = hll_of_stream p items2.
Proof.
  pose proof (effective_precision_range p) as Hq.
  eexists. split; [apply hll_of_stream_tab|].
  assert (E : HyperLogLog.Clear
                (HyperLogLog.mk (effective_precision p) (2 ^ effective_precision p)
                   (tabulate (2 ^ effective_precision p)
                      (fun i => stream_rank (effective_precision p) items1 i 0))
                   (calculateAlpha (2 ^ effective_precision p)))
              = HyperLogLog.mk (effective_precision p) (2 ^ effective_precision p)
                  (tabulate (2 ^ effective_precision p) (fun _ => 0))
                  (calculateAlpha (2 ^ effective_precision p))).
  { unfold HyperLogLog.Clear. cbn [precision m buckets alpha]. f_equal.
    rewrite map_const_replicate, length_tabulate. apply replicate_tabulate. }
  rewrite E. split; [apply NewHyperLogLog_closed|].
  unfold hll_of_stream. rewrite NewHyperLogLog_closed, bind_Ret. reflexivity.
Qed.

End HyperLogLogStreamFacts.

Section HyperLogLogMergeFacts.
Import HyperLogLog sync.

(** The loop of [Merge] on two register tables of the length it runs to. *)
Lemma merge_registers_tab (p n pb nb : Z) (fa fb : Z -> Z) (ala alb : float) :
  0 <= n ->
  merge_registers (HyperLogLog.mk p n (tabulate n fa) ala)
                  (HyperLogLog.mk pb nb (tabulate n fb) alb) =
    Ret (HyperLogLog.mk p n (tabulate n (fun i => Z.max (fa i) (fb i))) ala).
Proof.
  intros Hn. unfold merge_registers. cbn [precision m buckets alpha].
  set (I := fun k : Z => tabulate n (fun i => if i <? k then Z.max (fa i) (fb i) else fa i)).
  replace (tabulate n fa) with (I 0).
  2:{ apply tabulate_ext. intros i Hi. destruct (Z.ltb_spec i 0); [lia|reflexivity]. }
  rewrite (for_loop_seqZ_0 _ I n Hn).
  - rewrite bind_Ret. do 2 f_equal. apply tabulate_ext. intros i Hi.
    destruct (Z.ltb_spec i n); [reflexivity|lia].
  - intros i Hi. unfold merge_register, I. cbn [buckets].
    rewrite (index_tabulate n fb) by lia. rewrite bind_Ret.
    rewrite index_tabulate by lia. rewrite bind_Ret.
    destruct (Z.ltb_spec i i); [lia|].
    destruct (Z.gtb_spec (fb i) (fa i)) as [Hgt|Hle].
    + rewrite store_tabulate by lia. f_equal. apply tabulate_ext. intros j Hj.
      destruct (Z.eqb_spec j i) as [->|Hji].
      * destruct (Z.ltb_spec i (i + 1)); lia.
      * destruct (Z.ltb_spec j i), (Z.ltb_spec j (i + 1)); try lia; reflexivity.
    + f_equal. apply tabulate_ext. intros j Hj.
      destruct (Z.eqb_spec j i) as [->|Hji].
      * destruct (Z.ltb_spec i i), (Z.ltb_spec i (i + 1)); lia.
      * destruct (Z.ltb_spec j i), (Z.ltb_spec j (i + 1)); try lia; reflexivity.
Qed.

(** X3.  Merging the sketch of one stream into the sketch of another, built
    with the same requested precision and held by a different object with no
    lock taken, returns without error, releases both locks, leaves the
    argument as it was and turns the receiver into the sketch of the two
    streams one after the other; its registers are the register-wise maximum
    of the two inputs. *)
Theorem hll_merge_is_stream_concatenation
    (p : Z) (items1 items2 : list (list byte))
    (h : heap HyperLogLog.t) (a b : positive) (A B : HyperLogLog.t) :
  a <> b ->
  h !! a = Some (Obj A Unlocked) ->
  h !! b = Some (Obj B Unlocked) ->
  hll_of_stream p items1 = Ret A ->
  hll_of_stream p items2 = Ret B ->
  exists AB,
    hll_of_stream p (items1 ++ items2) = Ret AB /\
    buckets AB = zip_with Z.max (buckets A) (buckets B) /\
    HyperLogLog.Merge h a b = Ret (<[a := Obj AB Unlocked]> h, None).
Proof.
  intros Hab Ha Hb HA HB.
  pose proof (effective_precision_range p) as Hq.
  rewrite hll_of_stream_tab in HA, HB. injection HA as <-. injection HB as <-.
  set (q := effective_precision p) in *.
  eexists. split; [apply hll_of_stream_tab|]. fold q. cbn [buckets].
  assert (Hmax : forall i, stream_rank q (items1 ++ items2) i 0
                           = Z.max (stream_rank q items1 i 0) (stream_rank q items2 i 0)).
  { intros i. rewrite stream_rank_app.
    apply stream_rank_max; [|exact Hq]. apply (stream_rank_spec q i items1 0). }
  split.
  - rewrite zip_with_tabulate. apply tabulate_ext. intros i _. apply Hmax.
  - unfold HyperLogLog.Merge, deref. rewrite Ha, Hb. cbn [bind mbind exec_bind value precision].
    rewrite Z.eqb_refl. cbn [negb].
    assert (Hn : 0 <= 2 ^ q) by (apply Z.pow_nonneg; lia).
    rewrite (locked_distinct h a b _ _ _ _ Hab Ha Hb (merge_registers_tab _ _ _ _ _ _ _ _ Hn)).
    rewrite bind_Ret.
    replace (tabulate (2 ^ q) (fun i => stream_rank q (items1 ++ items2) i 0))
      with (tabulate (2 ^ q)
              (fun i => Z.max (stream_rank q items1 i 0) (stream_rank q items2 i 0)))
      by (apply tabulate_ext; intros i _; symmetry; apply Hmax).
    reflexivity.
Qed.

(** Witness for [hll_merge_is_stream_concatenation]: precision 4, the
    streams abc, bar and kube, ab. *)
Lemma hll_merge_is_stream_concatenation_witness :
  exists AB,
    hll_of_stream 4 ([bytes_of_string "abc"; bytes_of_string "bar"]
                     ++ [bytes_of_string "kube"; bytes_of_string "ab"]) = Ret AB /\
    buckets AB = zip_with Z.max (buckets sketch_abc_bar) (buckets sketch_kube_ab) /\
    HyperLogLog.Merge sketch_heap 1 2 = Ret (<[1%positive := Obj AB Unlocked]> sketch_heap, None).
Proof.
  apply (hll_merge_is_stream_concatenation 4); try reflexivity. discriminate.
Defined.

(** X4.  The two ways [Merge] fails, for every sketch held by an object with
    no lock taken.  Merging the sketch into itself never returns: the call
    takes the write lock of the receiver and then waits for the read lock of
    the same mutex.  And every other unlocked sketch of a different
    precision is refused with ErrPrecisionMismatch before any lock is taken,
    the heap staying as it was. *)
Theorem hll_merge_failure_modes
    (h : heap HyperLogLog.t) (a : positive) (A : HyperLogLog.t) :
  h !! a = Some (Obj A Unlocked) ->
  HyperLogLog.Merge h a a = Blocked /\
  forall (b : positive) (B : HyperLogLog.t),
    h !! b = Some (Obj B Unlocked) ->
    precision A <> precision B ->
    HyperLogLog.Merge h a b = Ret (h, Some ErrPrecisionMismatch).
Proof.
  intros Ha. split.
  - unfold HyperLogLog.Merge, deref. rewrite Ha. cbn [bind mbind exec_bind value].
    rewrite Z.eqb_refl. cbn [negb]. rewrite (locked_same h a A _ Ha). reflexivity.
  - intros b B Hb Hp. unfold HyperLogLog.Merge, deref. rewrite Ha, Hb.
    cbn [bind mbind exec_bind value].
    destruct (Z.eqb_spec (precision A) (precision B)); [contradiction|reflexivity].
Qed.

(** Witness for [hll_merge_failure_modes]: a sketch of precision 4 and one
    of precision 5. *)
Lemma hll_merge_failure_modes_witness :
  HyperLogLog.Merge sketch_heap 1 1 = Blocked /\
  HyperLogLog.Merge sketch_heap 1 3 = Ret (sketch_heap, Some ErrPrecisionMismatch).
Proof.
  pose proof (hll_merge_failure_modes sketch_heap 1 sketch_abc_bar eq_refl)
    as [Hself Hother].
  split; [exact Hself|].
  apply (Hother 3%positive sketch_empty_5); [reflexivity|discriminate].
Defined.

End HyperLogLogMergeFacts.

(** ** CountMinSketch: streams modulo 2^32, Merge, Clear, degenerate shapes *)

Section CountMinSketchStreamFacts.
Import CountMinSketch sync.

Lemma cms_holds_ext (w d : Z) (cells cells' : Z -> Z -> Z) (cms : CountMinSketch.t) :
  cms_holds w d cells cms ->
  (forall i j, 0 <= i < d -> 0 <= j < w -> cells i j = cells' i j) ->
  cms_holds w d cells' cms.
Proof.
  intros (Ew & Ed & HA & HB & Hc) Hext. repeat (split; [assumption|]).
  rewrite Hc. apply tabulate_ext. intros i Hi. apply tabulate_ext. intros j Hj.
  apply Hext; assumption.
Qed.

Lemma cms_holds_shaped (w d : Z) (cells : Z -> Z -> Z) (cms : CountMinSketch.t) :
  0 <= w -> 0 <= d ->
  cms_holds w d cells cms ->
  cms_shaped w d cms /\
  forall i j, 0 <= i < d -> 0 <= j < w -> cells_of cms i j = cells i j.
Proof.
  intros Hw Hd Hcms.
  assert (Hcells : forall i j, 0 <= i < d -> 0 <= j < w -> cells_of cms i j = cells i j).
  { intros i j Hi Hj. unfold cells_of. destruct Hcms as (_ & _ & _ & _ & ->).
    rewrite lookup_tabulate by lia. cbn [default id].
    rewrite lookup_tabulate by lia. reflexivity. }
  split; [|exact Hcells]. unfold cms_shaped.
  apply (cms_holds_ext w d cells); [exact Hcms|].
  intros i j Hi Hj. symmetry. apply Hcells; assumption.
Qed.

Lemma uint32_add_l (x y : Z) : uint32 (uint32 x + y) = uint32 (x + y).
Proof. unfold uint32. apply Zplus_mod_idemp_l. Qed.

Lemma uint32_add_r (x y : Z) : uint32 (x + uint32 y) = uint32 (x + y).
Proof. unfold uint32. apply Zplus_mod_idemp_r. Qed.

Lemma uint64_add_l (x y : Z) : uint64 (uint64 x + y) = uint64 (x + y).
Proof. unfold uint64. apply Zplus_mod_idemp_l. Qed.

Lemma uint64_add_r (x y : Z) : uint64 (x + uint64 y) = uint64 (x + y).
Proof. unfold uint64. apply Zplus_mod_idemp_r. Qed.

(** A stream of updates on a sketch in constructor shape, with the 32-bit
    wrap of the counters and the 64-bit wrap of the total. *)
Lemma update_all_mod (w d : Z) (ops : list (list byte * Z)) :
  0 < w < 2 ^ 32 -> 0 <= d ->
  forall (cells : Z -> Z -> Z) (t0 : Z) (cms : CountMinSketch.t),
  cms_holds w d (fun i j => uint32 (cells i j)) cms -> total cms = uint64 t0 ->
  exists cms',
    update_all cms ops = Ret cms' /\
    cms_holds w d (fun i j => uint32 (cells i j + cell_sum w i j ops)) cms' /\
    total cms' = uint64 (t0 + stream_total ops).
Proof.
  intros Hw Hd. induction ops as [|[item cnt] ops IH]; intros cells t0 cms Hcms Ht.
  - exists cms. split; [reflexivity|]. cbn [cell_sum stream_total]. split.
    + apply (cms_holds_ext _ _ _ _ _ Hcms). intros i j _ _. now rewrite Z.add_0_r.
    + now rewrite Z.add_0_r.
  - destruct (Update_holds w d _ cms item cnt Hcms Hw Hd) as (cms1 & E1 & H1 & T1).
    destruct (IH (fun i j => cells i j
                             + (if bucket_of w i (CountMinSketch.hash item) =? j
                                then cnt else 0))
                 (t0 + cnt) cms1) as (cms' & E' & H' & T').
    { apply (cms_holds_ext _ _ _ _ _ H1). intros i j Hi Hj. unfold bumped.
      destruct (Z.ltb_spec i d); [|lia]. cbn [andb].
      rewrite (Z.eqb_sym (bucket_of w i (CountMinSketch.hash item)) j).
      destruct (Z.eqb_spec j (bucket_of w i (CountMinSketch.hash item))).
      - apply uint32_add_l.
      - now rewrite Z.add_0_r. }
    { rewrite T1, Ht. apply uint64_add_l. }
    exists cms'. split; [|split].
    + cbn [update_all]. rewrite E1, bind_Ret. exact E'.
    + apply (cms_holds_ext _ _ _ _ _ H'). intros i j _ _. cbn [cell_sum].
      f_equal. lia.
    + rewrite T'. cbn [stream_total]. f_equal. lia.
Qed.

Lemma cms_of_stream_holds (w d : Z) (ops : list (list byte * Z)) :
  0 < w < 2 ^ 32 -> 0 <= d ->
  exists cms,
    cms_of_stream w d ops = Ret cms /\
    cms_holds w d (fun i j => uint32 (cell_sum w i j ops)) cms /\
    total cms = uint64 (stream_total ops).
Proof.
  intros Hw Hd.
  destruct (update_all_mod w d ops Hw Hd (fun _ _ => 0) 0 (NewCountMinSketch w d))
    as (cms & E & H & T).
  - apply NewCountMinSketch_holds.
  - reflexivity.
  - exists cms. split; [exact E|]. split; [exact H|exact T].
Qed.

Lemma cell_sum_app (w i j : Z) (ops1 ops2 : list (list byte * Z)) :
  cell_sum w i j (ops1 ++ ops2) = cell_sum w i j ops1 + cell_sum w i j ops2.
Proof.
  induction ops1 as [|[item cnt] ops1 IH]; cbn [app cell_sum]; [reflexivity|].
  rewrite IH. lia.
Qed.

Lemma stream_total_app (ops1 ops2 : list (list byte * Z)) :
  stream_total (ops1 ++ ops2) = stream_total ops1 + stream_total ops2.
Proof.
  induction ops1 as [|[item cnt] ops1 IH]; cbn [app stream_total]; [reflexivity|].
  rewrite IH. lia.
Qed.

(** The two loops of [Merge] on two tables of the receiver's shape. *)
Lemma merge_counts_tab (w d : Z) (ca cb : Z -> Z -> Z) (A B : CountMinSketch.t) :
  0 <= w -> 0 <= d ->
  cms_holds w d ca A -> cms_holds w d cb B ->
  merge_counts A B =
    Ret (CountMinSketch.mk w d
           (tabulate d (fun i => tabulate w (fun j => uint32 (ca i j + cb i j))))
           (hashA (NewCountMinSketch w d)) (hashB (NewCountMinSketch w d))
           (uint64 (total A + total B))).
Proof.
  intros Hw Hd (EwA & EdA & HAA & HBA & HcA) (EwB & EdB & HAB & HBB & HcB).
  unfold merge_counts. rewrite EwA, EdA, HAA, HBA, HcA.
  set (O := fun k : Z =>
              tabulate d (fun i => tabulate w (fun j =>
                if i <? k then uint32 (ca i j + cb i j) else ca i j))).
  replace (tabulate d (fun i => tabulate w (ca i))) with (O 0).
  2:{ apply tabulate_ext. intros i Hi. apply tabulate_ext. intros j Hj.
      destruct (Z.ltb_spec i 0); [lia|reflexivity]. }
  rewrite (for_loop_seqZ_0 _ O d Hd).
  - rewrite bind_Ret. do 2 f_equal. apply tabulate_ext. intros i Hi.
    apply tabulate_ext. intros j Hj. destruct (Z.ltb_spec i d); [reflexivity|lia].
  - intros i Hi.
    set (I := fun k : Z =>
                tabulate d (fun i' => tabulate w (fun j =>
                  if (i' <? i) || ((i' =? i) && (j <? k))
                  then uint32 (ca i' j + cb i' j) else ca i' j))).
    replace (O i) with (I 0).
    2:{ apply tabulate_ext. intros i' Hi'. apply tabulate_ext. intros j Hj.
        destruct (Z.ltb_spec j 0); [lia|]. rewrite andb_false_r, orb_false_r.
        reflexivity. }
    replace (O (i + 1)) with (I w).
    2:{ apply tabulate_ext. intros i' Hi'. apply tabulate_ext. intros j Hj.
        destruct (Z.ltb_spec j w); [|lia]. rewrite andb_true_r.
        destruct (Z.ltb_spec i' i), (Z.eqb_spec i' i), (Z.ltb_spec i' (i + 1));
          try lia; reflexivity. }
    apply (for_loop_seqZ_0 _ I w Hw).
    intros j Hj. unfold merge_cell, I.
    rewrite index_tabulate by lia. rewrite bind_Ret.
    rewrite index_tabulate by lia. rewrite bind_Ret.
    rewrite HcB.
    rewrite (index_tabulate d (fun i => tabulate w (cb i))) by lia. rewrite bind_Ret.
    rewrite (index_tabulate w (cb i)) by lia. rewrite bind_Ret.
    rewrite store_tabulate by lia. rewrite bind_Ret.
    rewrite store_tabulate by lia. f_equal.
    apply tabulate_ext. intros i' Hi'. cbv beta.
    destruct (Z.eqb_spec i' i) as [->|Hne].
    + apply tabulate_ext. intros j' Hj'. cbv beta.
      rewrite ?Z.eqb_refl.
      destruct (Z.ltb_spec i i); [lia|]. cbn [orb andb].
      destruct (Z.eqb_spec j' j) as [->|Hnj].
      * destruct (Z.ltb_spec j j); [lia|]. destruct (Z.ltb_spec j (j + 1)); [|lia].
        reflexivity.
      * destruct (Z.ltb_spec j' j), (Z.ltb_spec j' (j + 1)); try lia; reflexivity.
    + apply tabulate_ext. intros j' Hj'. cbv beta. cbn [andb]. reflexivity.
Qed.

Lemma Merge_shaped (w d : Z) (ca cb : Z -> Z -> Z)
    (h : heap CountMinSketch.t) (a b : positive) (A B : CountMinSketch.t) :
  0 <= w -> 0 <= d ->
  a <> b ->
  h !! a = Some (Obj A Unlocked) ->
  h !! b = Some (Obj B Unlocked) ->
  cms_holds w d ca A -> cms_holds w d cb B ->
  CountMinSketch.Merge h a b =
    Ret (<[a := Obj (CountMinSketch.mk w d
                       (tabulate d (fun i => tabulate w (fun j => uint32 (ca i j + cb i j))))
                       (hashA (NewCountMinSketch w d)) (hashB (NewCountMinSketch w d))
                       (uint64 (total A + total B))) Unlocked]> h,
         None).
Proof.
  intros Hw Hd Hab Ha Hb HA HB.
  unfold CountMinSketch.Merge, deref. rewrite Ha, Hb.
  cbn [bind mbind exec_bind value].
  destruct HA as (EwA & EdA & HA'), HB as (EwB & EdB & HB').
  rewrite EwA, EwB, EdA, EdB, !Z.eqb_refl. cbn [negb orb].
  rewrite (locked_distinct h a b _ _ _ _ Hab Ha Hb
             (merge_counts_tab w d ca cb A B Hw Hd
                (conj EwA (conj EdA HA')) (conj EwB (conj EdB HB')))).
  reflexivity.
Qed.

End CountMinSketchStreamFacts.

Section CountMinSketchMergeFacts.
Import CountMinSketch sync.

(** X5.  Merging the sketch of one stream of updates into the sketch of
    another of the same shape, held by a different object with no lock
    taken, returns without error, releases both locks and turns the receiver
    into the sketch of the two streams one after the other: counters and
    total are those the concatenated stream gives, wrap-around included. *)
Theorem cms_merge_is_stream_concatenation
    (w d : Z) (ops1 ops2 : list (list byte * Z))
    (h : heap CountMinSketch.t) (a b : positive) (A B : CountMinSketch.t) :
  0 < w < 2 ^ 32 -> 0 <= d ->
  a <> b ->
  h !! a = Some (Obj A Unlocked) ->
  h !! b = Some (Obj B Unlocked) ->
  cms_of_stream w d ops1 = Ret A ->
  cms_of_stream w d ops2 = Ret B ->
  exists AB,
    cms_of_stream w d (ops1 ++ ops2) = Ret AB /\
    CountMinSketch.Merge h a b = Ret (<[a := Obj AB Unlocked]> h, None).
Proof.
  intros Hw Hd Hab Ha Hb EA EB.
  destruct (cms_of_stream_holds w d ops1 Hw Hd) as (A' & EA' & HA & TA).
  rewrite EA in EA'. injection EA' as <-.
  destruct (cms_of_stream_holds w d ops2 Hw Hd) as (B' & EB' & HB & TB).
  rewrite EB in EB'. injection EB' as <-.
  destruct (cms_of_stream_holds w d (ops1 ++ ops2) Hw Hd) as (AB & EAB & HAB & TAB).
  exists AB. split; [exact EAB|].
  rewrite (Merge_shaped w d _ _ h a b A B ltac:(lia) Hd Hab Ha Hb HA HB).
  do 4 f_equal.
  destruct HAB as (Ew & Ed & HhA & HhB & Hc). destruct AB as [w' d' c' hA' hB' t'].
  cbn [width depth count hashA hashB total] in *. subst w' d' hA' hB' c' t'.
  rewrite TA, TB. f_equal.
  - apply tabulate_ext. intros i Hi. apply tabulate_ext. intros j Hj.
    rewrite uint32_add_l, uint32_add_r, cell_sum_app. reflexivity.
  - rewrite uint64_add_l, uint64_add_r, stream_total_app. reflexivity.
Qed.

(** Witness for [cms_merge_is_stream_concatenation]: the 4 by 2 sketches of
    a:1 b:2 and of a:3. *)
Lemma cms_merge_is_stream_concatenation_witness :
  exists AB,
    cms_of_stream 4 2 ([(["a"%byte], 1); (["b"%byte], 2)] ++ [(["a"%byte], 3)]) = Ret AB /\
    CountMinSketch.Merge cms_heap 1 2 = Ret (<[1%positive := Obj AB Unlocked]> cms_heap, None).
Proof.
  apply (cms_merge_is_stream_concatenation 4 2 [(["a"%byte], 1); (["b"%byte], 2)]
           [(["a"%byte], 3)] cms_heap 1 2 cms_a1_b2 cms_a3);
    try reflexivity; lia.
Defined.

(** X6.  [Merge] is commutative on sketches of one shape: merging b into a
    leaves in a the very sketch that merging a into b leaves in b. *)
Theorem cms_merge_commutative
    (w d : Z) (h : heap CountMinSketch.t) (a b : positive) (A B : CountMinSketch.t) :
  0 <= w -> 0 <= d ->
  a <> b ->
  h !! a = Some (Obj A Unlocked) ->
  h !! b = Some (Obj B Unlocked) ->
  cms_shaped w d A -> cms_shaped w d B ->
  exists M,
    CountMinSketch.Merge h a b = Ret (<[a := Obj M Unlocked]> h, None) /\
    CountMinSketch.Merge h b a = Ret (<[b := Obj M Unlocked]> h, None).
Proof.
  intros Hw Hd Hab Ha Hb HA HB.
  eexists. split.
  - apply (Merge_shaped w d _ _ h a b A B Hw Hd Hab Ha Hb HA HB).
  - rewrite (Merge_shaped w d _ _ h b a B A Hw Hd ltac:(congruence) Hb Ha HB HA).
    do 4 f_equal. f_equal.
    + apply tabulate_ext. intros i Hi. apply tabulate_ext. intros j Hj.
      f_equal. lia.
    + f_equal. lia.
Qed.

(** Witness for [cms_merge_commutative]: the sketches of a:1 b:2 and a:3. *)
Lemma cms_merge_commutative_witness :
  exists M,
    CountMinSketch.Merge cms_heap 1 2 = Ret (<[1%positive := Obj M Unlocked]> cms_heap, None) /\
    CountMinSketch.Merge cms_heap 2 1 = Ret (<[2%positive := Obj M Unlocked]> cms_heap, None).
Proof.
  apply (cms_merge_commutative 4 2 cms_heap 1 2 cms_a1_b2 cms_a3);
    try lia; try discriminate; try reflexivity;
    unfold cms_shaped, cms_holds; repeat split; reflexivity.
Defined.

(** X7.  [Merge] is associative on sketches of one shape: merging b and then
    c into a gives a the same sketch as merging c into b first and then b
    into a. *)
Theorem cms_merge_associative
    (w d : Z) (h : heap CountMinSketch.t) (a b c : positive) (A B C : CountMinSketch.t) :
  0 <= w -> 0 <= d ->
  a <> b -> a <> c -> b <> c ->
  h !! a = Some (Obj A Unlocked) ->
  h !! b = Some (Obj B Unlocked) ->
  h !! c = Some (Obj C Unlocked) ->
  cms_shaped w d A -> cms_shaped w d B -> cms_shaped w d C ->
  exists M,
    (r ← CountMinSketch.Merge h a b; r' ← CountMinSketch.Merge r.1 a c; deref r'.1 a)
      = Ret (Obj M Unlocked) /\
    (r ← CountMinSketch.Merge h b c; r' ← CountMinSketch.Merge r.1 a b; deref r'.1 a)
      = Ret (Obj M Unlocked).
Proof.
  intros Hw Hd Hab Hac Hbc Ha Hb Hc HA HB HC.
  set (merged := fun (ca cb : Z -> Z -> Z) (tot : Z) =>
         CountMinSketch.mk w d
           (tabulate d (fun i => tabulate w (fun j => uint32 (ca i j + cb i j))))
           (hashA (NewCountMinSketch w d)) (hashB (NewCountMinSketch w d)) tot).
  assert (Hm : forall ca cb tot,
             cms_holds w d (fun i j => uint32 (ca i j + cb i j)) (merged ca cb tot)).
  { intros. unfold cms_holds. repeat split; reflexivity. }
  pose proof (Merge_shaped w d _ _ h a b A B Hw Hd Hab Ha Hb HA HB) as E1.
  fold (merged (cells_of A) (cells_of B) (uint64 (total A + total B))) in E1.
  pose proof (Merge_shaped w d _ _ h b c B C Hw Hd Hbc Hb Hc HB HC) as E2.
  fold (merged (cells_of B) (cells_of C) (uint64 (total B + total C))) in E2.
  set (AB := merged (cells_of A) (cells_of B) (uint64 (total A + total B))) in *.
  set (BC := merged (cells_of B) (cells_of C) (uint64 (total B + total C))) in *.
  assert (Hac' : (<[a := Obj AB Unlocked]> h) !! c = Some (Obj C Unlocked)).
  { rewrite lookup_insert_ne by exact Hac. exact Hc. }
  assert (Hba' : (<[b := Obj BC Unlocked]> h) !! a = Some (Obj A Unlocked)).
  { rewrite lookup_insert_ne by congruence. exact Ha. }
  pose proof (Merge_shaped w d _ _ _ a c AB C Hw Hd Hac (lookup_insert_eq _ _ _) Hac'
                (Hm _ _ _) HC) as E3.
  pose proof (Merge_shaped w d _ _ _ a b A BC Hw Hd Hab Hba' (lookup_insert_eq _ _ _)
                HA (Hm _ _ _)) as E4.
  exists (CountMinSketch.mk w d
            (tabulate d (fun i => tabulate w (fun j =>
               uint32 (cells_of A i j + cells_of B i j + cells_of C i j))))
            (hashA (NewCountMinSketch w d)) (hashB (NewCountMinSketch w d))
            (uint64 (total A + total B + total C))).
  split.
  - rewrite E1, bind_Ret. cbn [fst]. rewrite E3, bind_Ret. cbn [fst].
    unfold deref. rewrite lookup_insert_eq. subst AB BC merged. cbn [total]. cbv beta.
    rewrite uint64_add_l.
    replace (tabulate d (fun i => tabulate w (fun j =>
               uint32 (uint32 (cells_of A i j + cells_of B i j) + cells_of C i j))))
      with (tabulate d (fun i => tabulate w (fun j =>
               uint32 (cells_of A i j + cells_of B i j + cells_of C i j)))).
    { reflexivity. }
    apply tabulate_ext. intros i Hi. apply tabulate_ext. intros j Hj.
    now rewrite uint32_add_l.
  - rewrite E2, bind_Ret. cbn [fst]. rewrite E4, bind_Ret. cbn [fst].
    unfold deref. rewrite lookup_insert_eq. subst AB BC merged. cbn [total]. cbv beta.
    rewrite uint64_add_r, Z.add_assoc.
    replace (tabulate d (fun i => tabulate w (fun j =>
               uint32 (cells_of A i j + uint32 (cells_of B i j + cells_of C i j)))))
      with (tabulate d (fun i => tabulate w (fun j =>
               uint32 (cells_of A i j + cells_of B i j + cells_of C i j)))).
    { reflexivity. }
    apply tabulate_ext. intros i Hi. apply tabulate_ext. intros j Hj.
    rewrite uint32_add_r. f_equal. lia.
Qed.

(** Witness for [cms_merge_associative]: the sketches of a:1 b:2, a:3 and
    c:5. *)
Lemma cms_merge_associative_witness :
  exists M,
    (r ← CountMinSketch.Merge cms_heap 1 2; r' ← CountMinSketch.Merge r.1 1 3; deref r'.1 1)
      = Ret (Obj M Unlocked) /\
    (r ← CountMinSketch.Merge cms_heap 2 3; r' ← CountMinSketch.Merge r.1 1 2; deref r'.1 1)
      = Ret (Obj M Unlocked).
Proof.
  apply (cms_merge_associative 4 2 cms_heap 1 2 3 cms_a1_b2 cms_a3 cms_c5);
    try lia; try discriminate; try reflexivity;
    unfold cms_shaped, cms_holds; repeat split; reflexivity.
Defined.

(** X8.  The two ways [Merge] fails, for every sketch held by an object with
    no lock taken.  Merging the sketch into itself never returns: the call
    takes the write lock of the receiver and then waits for the read lock of
    the same mutex.  And every other unlocked sketch of a different width or
    depth is refused with ErrDimensionMismatch before any lock is taken, the
    heap staying as it was. *)
Theorem cms_merge_failure_modes
    (h : heap CountMinSketch.t) (a : positive) (A : CountMinSketch.t) :
  h !! a = Some (Obj A Unlocked) ->
  CountMinSketch.Merge h a a = Blocked /\
  forall (b : positive) (B : CountMinSketch.t),
    h !! b = Some (Obj B Unlocked) ->
    width A <> width B \/ depth A <> depth B ->
    CountMinSketch.Merge h a b = Ret (h, Some ErrDimensionMismatch).
Proof.
  intros Ha. split.
  - unfold CountMinSketch.Merge, deref. rewrite Ha. cbn [bind mbind exec_bind value].
    rewrite !Z.eqb_refl. cbn [negb orb]. rewrite (locked_same h a A _ Ha). reflexivity.
  - intros b B Hb Hshape. unfold CountMinSketch.Merge, deref. rewrite Ha, Hb.
    cbn [bind mbind exec_bind value].
    destruct (Z.eqb_spec (width A) (width B)), (Z.eqb_spec (depth A) (depth B));
      try reflexivity. tauto.
Qed.

(** Witness for [cms_merge_failure_modes]: a 4 by 2 and an 8 by 2 sketch. *)
Lemma cms_merge_failure_modes_witness :
  CountMinSketch.Merge cms_heap 1 1 = Blocked /\
  CountMinSketch.Merge cms_heap 1 4 = Ret (cms_heap, Some ErrDimensionMismatch).
Proof.
  pose proof (cms_merge_failure_modes cms_heap 1 cms_a1_b2 eq_refl) as [Hself Hother].
  split; [exact Hself|].
  apply (Hother 4%positive (NewCountMinSketch 8 2)); [reflexivity|left; discriminate].
Defined.

Lemma estimate_rows_upper (w d : Z) (cells : Z -> Z -> Z) (cms : CountMinSketch.t)
    (hash : Z) (n : nat) :
  cms_holds w d cells cms -> 0 < w < 2 ^ 32 ->
  forall k minCount, 0 <= k -> k + Z.of_nat n = d ->
  exists e, for_loop (estimate_row cms hash) (seqZ k (Z.of_nat n)) minCount = Ret e /\
            e <= minCount /\
            forall i, k <= i < d -> e <= cells i (bucket_of w i hash).
Proof.
  intros Hcms Hw. induction n as [|n IH]; intros k minCount Hk Hd.
  - simpl. exists minCount. split; [reflexivity|]. split; [lia|]. intros; lia.
  - rewrite seqZ_cons by lia. simpl for_loop.
    rewrite (estimate_row_holds w d cells) by (try assumption; lia).
    rewrite bind_Ret.
    replace (Z.pred (Z.of_nat (S n))) with (Z.of_nat n) by lia.
    destruct (IH (Z.succ k)
                (if cells k (bucket_of w k hash) <? minCount
                 then cells k (bucket_of w k hash) else minCount)
                ltac:(lia) ltac:(lia)) as (e & E & Hmin & Hall).
    exists e. split; [exact E|].
    destruct (Z.ltb_spec (cells k (bucket_of w k hash)) minCount) as [Hlt|Hge].
    + split; [lia|].
      intros i Hi. destruct (Z.eq_dec i k) as [->|Hne]; [lia|]. apply Hall. lia.
    + split; [lia|].
      intros i Hi. destruct (Z.eq_dec i k) as [->|Hne]; [lia|]. apply Hall. lia.
Qed.

(** X9.  The estimate of any item never exceeds the total of the stream, as
    long as that total stays below 2^32 and the sketch has at least one row;
    the total the sketch reports is then the exact sum of the counts. *)
Theorem cms_estimate_at_most_total
    (w d : Z) (ops : list (list byte * Z)) (item : list byte) :
  0 < w < 2 ^ 32 -> 0 < d ->
  Forall (fun op => 0 <= op.2) ops ->
  stream_total ops < 2 ^ 32 ->
  exists cms e,
    cms_of_stream w d ops = Ret cms /\
    CountMinSketch.Estimate cms item = Ret e /\
    e <= stream_total ops /\
    total cms = stream_total ops.
Proof.
  intros Hw Hd Hops Htotal.
  destruct (cms_of_stream_holds w d ops Hw ltac:(lia)) as (cms & E & Hcms & T).
  assert (Hcells : forall i j, 0 <= cell_sum w i j ops <= stream_total ops).
  { intros i j. apply (stream_facts w i [] ops Hops). }
  assert (Hcms' : cms_holds w d (fun i j => cell_sum w i j ops) cms).
  { apply (cms_holds_ext _ _ _ _ _ Hcms). intros i j _ _. apply uint32_small.
    specialize (Hcells i j). lia. }
  destruct (estimate_rows_upper w d _ cms (CountMinSketch.hash item) (Z.to_nat d)
              Hcms' Hw 0 MaxUint32 ltac:(lia) ltac:(lia)) as (e & Ee & _ & Hall).
  rewrite Z2Nat.id in Ee by lia.
  exists cms, e. split; [exact E|]. split.
  - unfold CountMinSketch.Estimate. destruct Hcms' as (_ & -> & _). exact Ee.
  - split.
    + specialize (Hall 0 ltac:(lia)).
      specialize (Hcells 0 (bucket_of w 0 (CountMinSketch.hash item))). lia.
    + rewrite T. apply uint64_small. specialize (Hcells 0 0). lia.
Qed.

(** Witness for [cms_estimate_at_most_total]: a 4 by 2 sketch and a stream
    of total 6. *)
Lemma cms_estimate_at_most_total_witness :
  exists cms e,
    cms_of_stream 4 2 [(["a"%byte], 1); (["b"%byte], 2); (["a"%byte], 3)] = Ret cms /\
    CountMinSketch.Estimate cms ["b"%byte] = Ret e /\
    e <= stream_total [(["a"%byte], 1); (["b"%byte], 2); (["a"%byte], 3)] /\
    total cms = stream_total [(["a"%byte], 1); (["b"%byte], 2); (["a"%byte], 3)].
Proof.
  apply (cms_estimate_at_most_total 4 2);
    [lia|lia|repeat constructor; simpl; lia|reflexivity].
Defined.

Lemma update_all_depth_0 (ops : list (list byte * Z)) :
  forall cms, depth cms = 0 ->
  exists cms', update_all cms ops = Ret cms' /\ depth cms' = 0.
Proof.
  induction ops as [|[item cnt] ops IH]; intros cms Hd.
  - exists cms. split; [reflexivity|exact Hd].
  - cbn [update_all]. unfold CountMinSketch.Update. rewrite Hd. cbn [seqZ for_loop].
    change (seqZ 0 0) with (@nil Z). cbn [for_loop]. rewrite bind_Ret. rewrite bind_Ret.
    apply IH. reflexivity.
Qed.

Lemma getBucket_width_0 (d hash : Z) :
  0 < d -> getBucket (NewCountMinSketch 0 d) hash 0 = Panic IntegerDivideByZero.
Proof.
  intros Hd. unfold getBucket, NewCountMinSketch. cbn [hashA hashB width].
  rewrite seqZ_cons by lia. reflexivity.
Qed.

(** X10.  Degenerate shapes.  A sketch of depth 0 accepts every update and
    answers 4294967295 for every item, whatever the stream; a sketch of
    width 0 with at least one row panics with a division by zero on every
    update and on every estimate. *)
Theorem cms_degenerate_shapes
    (w d : Z) (ops : list (list byte * Z)) (item : list byte) (cnt : Z) :
  0 < d ->
  (exists cms, cms_of_stream w 0 ops = Ret cms /\
               CountMinSketch.Estimate cms item = Ret 4294967295) /\
  CountMinSketch.Update (NewCountMinSketch 0 d) item cnt = Panic IntegerDivideByZero /\
  CountMinSketch.Estimate (NewCountMinSketch 0 d) item = Panic IntegerDivideByZero.
Proof.
  intros Hd. split; [|split].
  - destruct (update_all_depth_0 ops (NewCountMinSketch w 0) eq_refl) as (cms & E & Hd0).
    exists cms. split; [exact E|]. unfold CountMinSketch.Estimate. rewrite Hd0.
    reflexivity.
  - unfold CountMinSketch.Update. change (depth (NewCountMinSketch 0 d)) with d.
    rewrite seqZ_cons by lia. cbn [for_loop]. unfold update_row.
    rewrite getBucket_width_0 by exact Hd. reflexivity.
  - unfold CountMinSketch.Estimate. change (depth (NewCountMinSketch 0 d)) with d.
    rewrite seqZ_cons by lia. cbn [for_loop]. unfold estimate_row.
    rewrite getBucket_width_0 by exact Hd. reflexivity.
Qed.

(** Witness for [cms_degenerate_shapes]. *)
Lemma cms_degenerate_shapes_witness :
  (exists cms, cms_of_stream 8 0 [(["a"%byte], 1)] = Ret cms /\
               CountMinSketch.Estimate cms ["a"%byte] = Ret 4294967295) /\
  CountMinSketch.Update (NewCountMinSketch 0 2) ["a"%byte] 1 = Panic IntegerDivideByZero /\
  CountMinSketch.Estimate (NewCountMinSketch 0 2) ["a"%byte] = Panic IntegerDivideByZero.
Proof. apply (cms_degenerate_shapes 8 2 [(["a"%byte], 1)] ["a"%byte] 1). lia. Defined.

(** [Clear] brings a sketch built from a stream back to the state the
    constructor gave it; with at least one row, every estimate is then 0. *)
Theorem cms_clear_resets
    (w d : Z) (ops : list (list byte * Z)) (cms : CountMinSketch.t) (item : list byte) :
  0 < w < 2 ^ 32 -> 0 < d ->
  cms_of_stream w d ops = Ret cms ->
  CountMinSketch.Clear cms = NewCountMinSketch w d /\
  CountMinSketch.Estimate (CountMinSketch.Clear cms) item = Ret 0.
Proof.
  intros Hw Hd E.
  destruct (cms_of_stream_holds w d ops Hw ltac:(lia)) as (cms' & E' & Hcms & _).
  rewrite E in E'. injection E' as <-.
  assert (EC : CountMinSketch.Clear cms = NewCountMinSketch w d).
  { destruct Hcms as (Ew & Ed & HA & HB & _). unfold CountMinSketch.Clear.
    rewrite Ew, Ed, HA, HB. reflexivity. }
  split; [exact EC|]. rewrite EC.
  pose proof (NewCountMinSketch_holds w d) as Hnew.
  destruct (estimate_rows_upper w d _ _ (CountMinSketch.hash item) (Z.to_nat d)
              Hnew Hw 0 MaxUint32 ltac:(lia) ltac:(lia)) as (e & Ee & _ & Hall).
  destruct (estimate_rows_holds w d _ _ (CountMinSketch.hash item) 0 (Z.to_nat d)
              Hnew Hw ltac:(intros; lia) 0 MaxUint32 ltac:(lia) ltac:(lia)
              ltac:(unfold MaxUint32; lia)) as (e' & Ee' & Hlow).
  rewrite Ee in Ee'. injection Ee' as <-.
  rewrite Z2Nat.id in Ee by lia.
  unfold CountMinSketch.Estimate. cbn [depth NewCountMinSketch].
  rewrite Ee. f_equal. specialize (Hall 0 ltac:(lia)). cbv beta in Hall. lia.
Qed.

(** Witness for [cms_clear_resets]: the 4 by 2 sketch of a:1 b:2. *)
Lemma cms_clear_resets_witness :
  CountMinSketch.Clear cms_a1_b2 = NewCountMinSketch 4 2 /\
  CountMinSketch.Estimate (CountMinSketch.Clear cms_a1_b2) ["a"%byte] = Ret 0.
Proof.
  apply (cms_clear_resets 4 2 [(["a"%byte], 1); (["b"%byte], 2)]); try lia. reflexivity.
Defined.

End CountMinSketchMergeFacts.

(** ** BloomFilter: Clear, Union, the time-windowed variant *)

Section BloomFilterMoreFacts.
Import BloomFilter.

Lemma fmap_const_replicate {A B : Type} (c : B) (l : list A) :
  (fun _ => c) <$> l = replicate (length l) c.
Proof. induction l as [|x l IH]; simpl; [reflexivity|]. now f_equal. Qed.

Lemma Clear_closed (bf : BloomFilter.t) :
  length (bits bf) = Z.to_nat (size bf) ->
  BloomFilter.Clear bf = NewBloomFilter (size bf) (numHashes bf).
Proof.
  intros Hlen. unfold BloomFilter.Clear, NewBloomFilter.
  rewrite fmap_const_replicate, Hlen. reflexivity.
Qed.

Lemma Contains_new (sz k : Z) (item : list byte) :
  0 < sz -> BloomFilter.Contains (NewBloomFilter sz k) item = Ret (k <=? 0).
Proof.
  intros Hsz. unfold BloomFilter.Contains, getHashes. cbn [numHashes NewBloomFilter].
  destruct (Z.leb_spec k 0) as [Hk|Hk].
  - replace (seqZ 0 k) with (@nil Z); [reflexivity|].
    unfold seqZ. replace (Z.to_nat k) with 0%nat by lia. reflexivity.
  - rewrite seqZ_cons by lia. cbn [fmap list_fmap contains_loop size bits NewBloomFilter].
    unfold umod. destruct (Z.eqb_spec sz 0); [lia|]. rewrite bind_Ret.
    set (hash := uint32 (hash1 item + uint32 (0 * hash2 item))).
    assert (Hidx : 0 <= hash mod sz < sz) by (apply Z.mod_pos_bound; lia).
    rewrite (index_Ret _ _ false); [reflexivity|lia|].
    apply lookup_replicate_2. lia.
Qed.

(** X11.  After [Clear] a filter is in the state its constructor gave it and
    reports no item as present.  The one exception is a filter with no hash
    function, which reports every item as present, before and after. *)
Theorem bloom_clear_forgets (bf : BloomFilter.t) (item : list byte) :
  bloom_wf bf ->
  BloomFilter.Clear bf = NewBloomFilter (size bf) (numHashes bf) /\
  (0 < numHashes bf -> BloomFilter.Contains (BloomFilter.Clear bf) item = Ret false) /\
  (numHashes bf <= 0 ->
   BloomFilter.Contains bf item = Ret true /\
   BloomFilter.Contains (BloomFilter.Clear bf) item = Ret true).
Proof.
  intros [Hsz Hlen]. pose proof (Clear_closed bf Hlen) as EC.
  split; [exact EC|]. rewrite EC, (Contains_new _ _ item Hsz). split.
  - intros Hk. destruct (Z.leb_spec (numHashes bf) 0); [lia|reflexivity].
  - intros Hk. split.
    + unfold BloomFilter.Contains, getHashes.
      replace (seqZ 0 (numHashes bf)) with (@nil Z); [reflexivity|].
      unfold seqZ. replace (Z.to_nat (numHashes bf)) with 0%nat by lia. reflexivity.
    + destruct (Z.leb_spec (numHashes bf) 0); [reflexivity|lia].
Qed.

(** Witness for [bloom_clear_forgets]: the filter that holds one item. *)
Lemma bloom_clear_forgets_witness :
  BloomFilter.Clear one_item_filter = NewBloomFilter 4 1 /\
  (0 < 1 -> BloomFilter.Contains (BloomFilter.Clear one_item_filter) ["a"%byte] = Ret false) /\
  (1 <= 0 ->
   BloomFilter.Contains one_item_filter ["a"%byte] = Ret true /\
   BloomFilter.Contains (BloomFilter.Clear one_item_filter) ["a"%byte] = Ret true).
Proof.
  apply (bloom_clear_forgets one_item_filter ["a"%byte]). split; [reflexivity|reflexivity].
Defined.

Lemma contains_loop_true_inv (bf : BloomFilter.t) (hashes : list Z) :
  contains_loop bf hashes = Ret true ->
  Forall (fun hash => size bf <> 0 /\ bit_set (bits bf) (hash mod size bf)) hashes.
Proof.
  induction hashes as [|hash hashes IH]; intros H; [constructor|].
  cbn [contains_loop] in H. apply bind_Ret_inv in H as (idx & Hidx & H).
  apply umod_Ret_inv in Hidx as [Hsz ->].
  apply bind_Ret_inv in H as (bit & Hbit & H).
  apply index_Ret_inv in Hbit as [Hge Hlk].
  destruct bit; cbn [negb] in H; [|discriminate].
  constructor; [|apply IH; exact H]. split; [exact Hsz|]. split; assumption.
Qed.

(** The state of the heap after [k] rounds of the loop of [Union]. *)
Lemma union_loop (h : heap) (a b : positive) (A B : BloomFilter.t) (mb : RWMutex) :
  a <> b ->
  h !! a = Some (Obj A WriteLocked) ->
  h !! b = Some (Obj B mb) ->
  length (bits A) = Z.to_nat (size A) ->
  length (bits B) = Z.to_nat (size A) ->
  0 <= size A ->
  for_loop (or_bit a b) (seqZ 0 (size A)) h =
    Ret (<[a := Obj (BloomFilter.mk (zip_with orb (bits A) (bits B)) (size A)
                       (numHashes A) (numItems A)) WriteLocked]> h).
Proof.
  intros Hab Ha Hb HlenA HlenB Hsz.
  rewrite (list_as_tabulate false (size A) (bits A) HlenA).
  rewrite (list_as_tabulate false (size A) (bits B) HlenB).
  set (fa := fun i => default false (bits A !! Z.to_nat i)).
  set (fb := fun i => default false (bits B !! Z.to_nat i)).
  rewrite zip_with_tabulate.
  set (I := fun k : Z =>
              <[a := Obj (BloomFilter.mk
                            (tabulate (size A) (fun i => if i <? k then fa i || fb i else fa i))
                            (size A) (numHashes A) (numItems A)) WriteLocked]> h).
  assert (E0 : h = I 0).
  { unfold I. symmetry. apply insert_id. rewrite Ha. do 2 f_equal.
    destruct A as [bs sz nh ni]. cbn [bits size numHashes numItems] in *. f_equal.
    rewrite (list_as_tabulate false sz bs HlenA) at 1.
    apply tabulate_ext. intros i Hi. destruct (Z.ltb_spec i 0); [lia|reflexivity]. }
  rewrite E0 at 1. rewrite (for_loop_seqZ_0 _ I (size A) Hsz).
  - f_equal. unfold I. do 3 f_equal. apply tabulate_ext. intros i Hi.
    destruct (Z.ltb_spec i (size A)); [reflexivity|lia].
  - intros i Hi. unfold or_bit, deref, I.
    rewrite lookup_insert_eq, bind_Ret.
    rewrite lookup_insert_ne by exact Hab. rewrite Hb, bind_Ret.
    cbn [filter bits size numHashes numItems mutex].
    rewrite index_tabulate by lia. rewrite bind_Ret.
    rewrite (list_as_tabulate false (size A) (bits B) HlenB).
    rewrite (index_tabulate (size A)) by lia. rewrite bind_Ret.
    rewrite store_tabulate by lia. rewrite bind_Ret.
    f_equal. rewrite insert_insert_eq. do 3 f_equal.
    apply tabulate_ext. intros j Hj. cbv beta.
    destruct (Z.ltb_spec i i); [lia|].
    destruct (Z.eqb_spec j i) as [->|Hne].
    + destruct (Z.ltb_spec i (i + 1)); [reflexivity|lia].
    + destruct (Z.ltb_spec j i), (Z.ltb_spec j (i + 1)); try lia; reflexivity.
Qed.

End BloomFilterMoreFacts.

Section BloomFilterUnionFacts.
Import BloomFilter.

Lemma bit_set_zip_l (bs1 bs2 : list bool) (i : Z) :
  length bs1 = length bs2 -> bit_set bs1 i -> bit_set (zip_with orb bs1 bs2) i.
Proof.
  intros Hlen [Hi Hlk]. split; [exact Hi|].
  assert (Hlt : (Z.to_nat i < length bs2)%nat).
  { rewrite <- Hlen. apply lookup_lt_is_Some_1. eauto. }
  destruct (lookup_lt_is_Some_2 _ _ Hlt) as [y Hy].
  rewrite lookup_zip_with, Hlk, Hy. reflexivity.
Qed.

Lemma bit_set_zip_r (bs1 bs2 : list bool) (i : Z) :
  length bs1 = length bs2 -> bit_set bs2 i -> bit_set (zip_with orb bs1 bs2) i.
Proof.
  intros Hlen [Hi Hlk]. split; [exact Hi|].
  assert (Hlt : (Z.to_nat i < length bs1)%nat).
  { rewrite Hlen. apply lookup_lt_is_Some_1. eauto. }
  destruct (lookup_lt_is_Some_2 _ _ Hlt) as [x Hx].
  rewrite lookup_zip_with, Hlk, Hx. cbn. now rewrite orb_true_r.
Qed.

(** X12.  The union of two filters of one shape, held by different objects
    with no lock taken, returns without error and releases both locks; the
    receiver's bits become the bit-wise OR of the two vectors, so it reports
    an item as present whenever either input did.  The argument is left as
    it was. *)
Theorem bloom_union_contains
    (h : heap) (a b : positive) (A B : BloomFilter.t) :
  a <> b ->
  h !! a = Some (Obj A Unlocked) ->
  h !! b = Some (Obj B Unlocked) ->
  size A = size B -> numHashes A = numHashes B ->
  0 <= size A ->
  length (bits A) = Z.to_nat (size A) ->
  length (bits B) = Z.to_nat (size B) ->
  exists U,
    BloomFilter.Union h a b = Ret (<[a := Obj U Unlocked]> h, None) /\
    bits U = zip_with orb (bits A) (bits B) /\
    forall item,
      BloomFilter.Contains A item = Ret true \/ BloomFilter.Contains B item = Ret true ->
      BloomFilter.Contains U item = Ret true.
Proof.
  intros Hab Ha Hb Hsize Hnum Hsz HlenA HlenB.
  exists (BloomFilter.mk (zip_with orb (bits A) (bits B)) (size A) (numHashes A)
            (uint32 (numItems A + numItems B))).
  split; [|split; [reflexivity|]].
  - unfold BloomFilter.Union, deref. rewrite Ha, Hb, !bind_Ret.
    cbn [filter].
    rewrite (proj2 (Z.eqb_eq _ _) Hsize), (proj2 (Z.eqb_eq _ _) Hnum). cbn [negb orb].
    unfold Lock, deref. rewrite Ha, bind_Ret. cbn [mutex filter]. rewrite bind_Ret.
    set (h1 := <[a := Obj A WriteLocked]> h).
    assert (H1b : h1 !! b = Some (Obj B Unlocked))
      by (unfold h1; rewrite lookup_insert_ne by exact Hab; exact Hb).
    unfold RLock, deref. rewrite H1b, bind_Ret. cbn [mutex filter]. rewrite bind_Ret.
    set (h2 := <[b := Obj B (ReadLocked 1)]> h1).
    assert (H2a : h2 !! a = Some (Obj A WriteLocked)).
    { unfold h2. rewrite lookup_insert_ne by congruence. apply lookup_insert_eq. }
    assert (H2b : h2 !! b = Some (Obj B (ReadLocked 1))) by apply lookup_insert_eq.
    rewrite (union_loop h2 a b A B (ReadLocked 1) Hab H2a H2b HlenA
               ltac:(rewrite HlenB; congruence) Hsz).
    rewrite bind_Ret.
    set (A1 := BloomFilter.mk (zip_with orb (bits A) (bits B)) (size A) (numHashes A)
                 (numItems A)).
    set (h3 := <[a := Obj A1 WriteLocked]> h2).
    assert (H3a : h3 !! a = Some (Obj A1 WriteLocked)) by apply lookup_insert_eq.
    assert (H3b : h3 !! b = Some (Obj B (ReadLocked 1))).
    { unfold h3. rewrite lookup_insert_ne by exact Hab. exact H2b. }
    unfold add_items, deref. rewrite H3a, H3b, !bind_Ret.
    cbn [filter mutex A1 bits size numHashes numItems].
    set (U := BloomFilter.mk (zip_with orb (bits A) (bits B)) (size A) (numHashes A)
                (uint32 (numItems A + numItems B))).
    set (h4 := <[a := Obj U WriteLocked]> h3).
    assert (H4b : h4 !! b = Some (Obj B (ReadLocked 1))).
    { unfold h4. rewrite lookup_insert_ne by exact Hab. exact H3b. }
    unfold RUnlock, deref. rewrite H4b, bind_Ret. cbn [mutex filter]. rewrite bind_Ret.
    set (h5 := <[b := Obj B Unlocked]> h4).
    assert (H5a : h5 !! a = Some (Obj U WriteLocked)).
    { unfold h5, h4. rewrite lookup_insert_ne by congruence. apply lookup_insert_eq. }
    unfold Unlock, deref. rewrite H5a, bind_Ret. cbn [mutex filter]. rewrite bind_Ret.
    do 2 f_equal. apply map_eq. intros k.
    unfold h5, h4, h3, h2, h1. rewrite !lookup_insert.
    repeat case_decide; subst; congruence.
  - assert (Hlen : length (bits A) = length (bits B)) by (rewrite HlenA, HlenB; congruence).
    intros item [HA|HB]; apply contains_loop_true_inv in HA || apply contains_loop_true_inv in HB;
      unfold BloomFilter.Contains; apply contains_loop_true.
    + change (getHashes (BloomFilter.mk (zip_with orb (bits A) (bits B)) (size A)
                           (numHashes A) (uint32 (numItems A + numItems B))) item)
        with (getHashes A item).
      eapply Forall_impl; [exact HA|]. cbn [size bits]. intros hash [Hne Hbit].
      split; [exact Hne|]. apply bit_set_zip_l; assumption.
    + replace (getHashes (BloomFilter.mk (zip_with orb (bits A) (bits B)) (size A)
                            (numHashes A) (uint32 (numItems A + numItems B))) item)
        with (getHashes B item) by (unfold getHashes; cbn [numHashes]; now rewrite Hnum).
      eapply Forall_impl; [exact HB|]. cbn [size bits]. rewrite Hsize.
      intros hash [Hne Hbit]. split; [exact Hne|]. apply bit_set_zip_r; assumption.
Qed.

(** Witness for [bloom_union_contains]: two filters of four bits that hold
    one item each. *)
Lemma bloom_union_contains_witness :
  exists U,
    BloomFilter.Union bloom_heap 1 2 = Ret (<[1%positive := Obj U Unlocked]> bloom_heap, None) /\
    bits U = zip_with orb (bits one_item_filter) (bits other_item_filter) /\
    forall item,
      BloomFilter.Contains one_item_filter item = Ret true \/
      BloomFilter.Contains other_item_filter item = Ret true ->
      BloomFilter.Contains U item = Ret true.
Proof.
  apply (bloom_union_contains bloom_heap 1 2 one_item_filter other_item_filter);
    try reflexivity; discriminate.
Defined.

(** X13.  The two ways [Union] fails, for every filter held by an object
    with no lock taken.  The union of the filter with itself never returns:
    the call takes the write lock of the receiver and then waits for the
    read lock of the same mutex.  And every other unlocked filter of a
    different size or hash count is refused with an error before any lock is
    taken, the heap staying as it was. *)
Theorem bloom_union_failure_modes (h : heap) (a : positive) (A : BloomFilter.t) :
  h !! a = Some (Obj A Unlocked) ->
  BloomFilter.Union h a a = Blocked /\
  forall (b : positive) (B : BloomFilter.t),
    h !! b = Some (Obj B Unlocked) ->
    size A <> size B \/ numHashes A <> numHashes B ->
    BloomFilter.Union h a b = Ret (h, Some ErrUnionMismatch).
Proof.
  intros Ha. split; [exact (Union_same_object h a A Ha)|].
  intros b B Hb Hshape.
  unfold BloomFilter.Union, deref. rewrite Ha, Hb, !bind_Ret. cbn [filter].
  destruct (Z.eqb_spec (size A) (size B)), (Z.eqb_spec (numHashes A) (numHashes B));
    try reflexivity. tauto.
Qed.

(** Witness for [bloom_union_failure_modes]: a filter of four and one of
    eight bits. *)
Lemma bloom_union_failure_modes_witness :
  BloomFilter.Union bloom_heap 1 1 = Blocked /\
  BloomFilter.Union bloom_heap 1 3 = Ret (bloom_heap, Some ErrUnionMismatch).
Proof.
  pose proof (bloom_union_failure_modes bloom_heap 1 one_item_filter eq_refl)
    as [Hself Hother].
  split; [exact Hself|].
  apply (Hother 3%positive (NewBloomFilter 8 1)); [reflexivity|left; discriminate].
Defined.

End BloomFilterUnionFacts.

Section BloomFilterTimeWindowFacts.
Import BloomFilterTimeWindow.

Lemma Contains_total (bf : BloomFilter.t) (item : list byte) :
  bloom_wf bf -> exists b, BloomFilter.Contains bf item = Ret b.
Proof.
  intros [Hsz Hlen]. unfold BloomFilter.Contains.
  generalize (BloomFilter.getHashes bf item) as hashes.
  induction hashes as [|hash hashes IH]; [eexists; reflexivity|].
  cbn [BloomFilter.contains_loop]. unfold umod.
  destruct (Z.eqb_spec (BloomFilter.size bf) 0); [lia|]. rewrite bind_Ret.
  assert (Hidx : 0 <= hash mod BloomFilter.size bf < BloomFilter.size bf)
    by (apply Z.mod_pos_bound; lia).
  destruct (lookup_lt_is_Some_2 (BloomFilter.bits bf)
              (Z.to_nat (hash mod BloomFilter.size bf))) as [x Hx]; [lia|].
  rewrite (index_Ret _ _ x) by (try exact Hx; lia). rewrite bind_Ret.
  destruct x; cbn [negb]; [exact IH|eexists; reflexivity].
Qed.

Lemma Contains_after_Add (f f' : BloomFilter.t) (x item : list byte) :
  BloomFilter.Add f x = Ret f' ->
  BloomFilter.Contains f item = Ret true ->
  BloomFilter.Contains f' item = Ret true.
Proof.
  intros HAdd HC. apply Add_inv in HAdd as (Hs & Hn & Hl & Hmono & _).
  apply contains_loop_true_inv in HC. unfold BloomFilter.Contains.
  apply contains_loop_true.
  replace (BloomFilter.getHashes f' item) with (BloomFilter.getHashes f item)
    by (unfold BloomFilter.getHashes; now rewrite Hn).
  eapply Forall_impl; [exact HC|]. intros hash [Hne Hb]. rewrite Hs.
  split; [exact Hne|]. apply Hmono. exact Hb.
Qed.

Lemma contains_any_true (fs : list BloomFilter.t) (item : list byte) :
  Forall bloom_wf fs ->
  forall i f, fs !! i = Some f -> BloomFilter.Contains f item = Ret true ->
  contains_any fs item = Ret true.
Proof.
  induction 1 as [|g fs Hg _ IH]; intros i f Hi Hf; [discriminate|].
  cbn [contains_any]. destruct i as [|i].
  - injection Hi as ->. rewrite Hf. reflexivity.
  - destruct (Contains_total g item Hg) as [[|] ->]; rewrite bind_Ret; [reflexivity|].
    exact (IH i f Hi Hf).
Qed.

Lemma contains_any_new (n : nat) (sz k : Z) (item : list byte) :
  0 < sz -> 0 < k ->
  contains_any (replicate n (BloomFilter.NewBloomFilter sz k)) item = Ret false.
Proof.
  intros Hsz Hk. induction n as [|n IH]; [reflexivity|].
  cbn [replicate contains_any]. rewrite (Contains_new sz k item Hsz).
  destruct (Z.leb_spec k 0); [lia|]. rewrite bind_Ret. exact IH.
Qed.

Lemma NewBloomFilterTimeWindow_wf (W sz k : Z) :
  0 < W -> 8 * W <= maxAlloc -> 0 < sz ->
  NewBloomFilterTimeWindow W sz k =
    Ret (BloomFilterTimeWindow.mk
           (replicate (Z.to_nat W) (BloomFilter.NewBloomFilter sz k)) W 0) /\
  window_wf W sz k
    (BloomFilterTimeWindow.mk (replicate (Z.to_nat W) (BloomFilter.NewBloomFilter sz k)) W 0).
Proof.
  intros HW Hmem Hsz. split.
  - unfold NewBloomFilterTimeWindow. rewrite make_Ret by lia. reflexivity.
  - unfold window_wf. cbn [window current filters]. split; [reflexivity|].
    split; [lia|]. split; [apply length_replicate|].
    apply Forall_replicate. split; [apply NewBloomFilter_wf; exact Hsz|].
    split; reflexivity.
Qed.

Lemma window_Add_step (W sz k : Z) (w : BloomFilterTimeWindow.t) (item : list byte) :
  window_wf W sz k w ->
  exists f f',
    filters w !! Z.to_nat (current w) = Some f /\
    BloomFilter.Add f item = Ret f' /\
    BloomFilterTimeWindow.Add w item =
      Ret (BloomFilterTimeWindow.mk (<[Z.to_nat (current w) := f']> (filters w))
             (window w) (current w)) /\
    window_wf W sz k
      (BloomFilterTimeWindow.mk (<[Z.to_nat (current w) := f']> (filters w))
         (window w) (current w)).
Proof.
  intros (HW & Hc & Hlen & Hall).
  destruct (lookup_lt_is_Some_2 (filters w) (Z.to_nat (current w))) as [f Hf]; [lia|].
  pose proof (Forall_lookup_1 _ _ _ _ Hall Hf) as (Hwf & Hs & Hk).
  destruct (Add_total f item Hwf) as (f' & HAdd & Hwf').
  exists f, f'. split; [exact Hf|]. split; [exact HAdd|]. split.
  - unfold BloomFilterTimeWindow.Add.
    rewrite (index_Ret _ _ f) by (try exact Hf; lia).
    rewrite bind_Ret, HAdd, bind_Ret. rewrite store_Ret by lia. reflexivity.
  - unfold window_wf. cbn [window current filters].
    split; [exact HW|]. split; [exact Hc|]. split; [now rewrite length_insert|].
    apply Forall_insert; [exact Hall|].
    pose proof (Add_inv _ _ _ HAdd) as (Hs' & Hn' & _).
    split; [exact Hwf'|]. split; congruence.
Qed.

Lemma window_Rotate_step (W sz k : Z) (w : BloomFilterTimeWindow.t) :
  W < 2 ^ 63 ->
  window_wf W sz k w ->
  BloomFilterTimeWindow.Rotate w =
    Ret (BloomFilterTimeWindow.mk
           (<[Z.to_nat ((current w + 1) mod W) := BloomFilter.NewBloomFilter sz k]> (filters w))
           (window w) ((current w + 1) mod W)) /\
  window_wf W sz k
    (BloomFilterTimeWindow.mk
       (<[Z.to_nat ((current w + 1) mod W) := BloomFilter.NewBloomFilter sz k]> (filters w))
       (window w) ((current w + 1) mod W)).
Proof.
  intros Hint (HW & Hc & Hlen & Hall).
  assert (Hc' : 0 <= (current w + 1) mod W < W) by (apply Z.mod_pos_bound; lia).
  split.
  - unfold BloomFilterTimeWindow.Rotate, rem_int. rewrite HW.
    destruct (Z.eqb_spec W 0); [lia|]. rewrite bind_Ret.
    assert (E64 : int64 (current w + 1) = current w + 1).
    { unfold int64. rewrite Z.mod_small by lia. lia. }
    rewrite E64, Z.rem_mod_nonneg by lia.
    destruct (lookup_lt_is_Some_2 (filters w) (Z.to_nat ((current w + 1) mod W)))
      as [f Hf]; [lia|].
    pose proof (Forall_lookup_1 _ _ _ _ Hall Hf) as ([_ Hl] & Hs & Hk).
    rewrite (index_Ret _ _ f) by (try exact Hf; lia). rewrite bind_Ret.
    rewrite store_Ret by lia. rewrite bind_Ret.
    rewrite (Clear_closed f Hl), Hs, Hk. reflexivity.
  - unfold window_wf. cbn [window current filters].
    split; [exact HW|]. split; [exact Hc'|]. split; [now rewrite length_insert|].
    apply Forall_insert; [exact Hall|].
    destruct (lookup_lt_is_Some_2 (filters w) (Z.to_nat (current w))) as [f Hf]; [lia|].
    pose proof (Forall_lookup_1 _ _ _ _ Hall Hf) as ([Hsz _] & Hs & _).
    split; [apply NewBloomFilter_wf; lia|]. split; reflexivity.
Qed.

Lemma window_run_wf (W sz k : Z) (ops : list window_op) :
  W < 2 ^ 63 ->
  forall w, window_wf W sz k w ->
  exists w', window_run w ops = Ret w' /\ window_wf W sz k w'.
Proof.
  intros Hint. induction ops as [|op ops IH]; intros w Hwf.
  - exists w. split; [reflexivity|exact Hwf].
  - cbn [window_run]. destruct op as [item|]; cbn [window_step].
    + destruct (window_Add_step W sz k w item Hwf) as (f & f' & _ & _ & -> & Hwf').
      rewrite bind_Ret. apply IH. exact Hwf'.
    + destruct (window_Rotate_step W sz k w Hint Hwf) as [-> Hwf'].
      rewrite bind_Ret. apply IH. exact Hwf'.
Qed.

Lemma mod_shift_ne (W c0 r : Z) :
  0 <= c0 < W -> 0 < r < W -> (c0 + r) mod W <> c0.
Proof.
  intros Hc Hr E.
  pose proof (Z.div_mod (c0 + r) W ltac:(lia)) as Hdm. rewrite E in Hdm.
  assert (Hq : r = W * ((c0 + r) / W)) by lia.
  assert (0 < (c0 + r) / W < 1) by nia. lia.
Qed.

Lemma rotations_nonneg (ops : list window_op) : 0 <= rotations ops.
Proof. induction ops as [|[item|] ops IH]; cbn [rotations]; lia. Qed.

(** An item held by the filter at index [c0] stays held through fewer than
    [W] rotations. *)
Lemma window_run_retains (W sz k c0 : Z) (item : list byte) (ops : list window_op) :
  W < 2 ^ 63 -> 0 <= c0 < W ->
  forall w r,
  window_wf W sz k w ->
  0 <= r -> r + rotations ops < W ->
  current w = (c0 + r) mod W ->
  (exists f, filters w !! Z.to_nat c0 = Some f /\ BloomFilter.Contains f item = Ret true) ->
  exists w',
    window_run w ops = Ret w' /\ window_wf W sz k w' /\
    exists f, filters w' !! Z.to_nat c0 = Some f /\ BloomFilter.Contains f item = Ret true.
Proof.
  intros Hint Hc0. induction ops as [|op ops IH]; intros w r Hwf Hr Hrot Hcur Hheld.
  - exists w. split; [reflexivity|]. split; assumption.
  - cbn [window_run]. destruct op as [x|]; cbn [window_step rotations] in *.
    + destruct (window_Add_step W sz k w x Hwf) as (f & f' & Hf & HAdd & -> & Hwf').
      rewrite bind_Ret. apply (IH _ r Hwf' Hr Hrot Hcur).
      cbn [filters]. destruct Hheld as (g & Hg & HC).
      destruct (decide (Z.to_nat (current w) = Z.to_nat c0)) as [E|E].
      * exists f'. rewrite E in Hf |- *. split.
        -- apply list_lookup_insert_eq. apply lookup_lt_is_Some_1. eauto.
        -- rewrite Hg in Hf. injection Hf as <-. exact (Contains_after_Add _ _ _ _ HAdd HC).
      * exists g. split; [|exact HC]. rewrite list_lookup_insert_ne by exact E. exact Hg.
    + destruct (window_Rotate_step W sz k w Hint Hwf) as [-> Hwf'].
      rewrite bind_Ret.
      pose proof (rotations_nonneg ops) as Hn.
      assert (Hcur' : (current w + 1) mod W = (c0 + (r + 1)) mod W).
      { rewrite Hcur, Zplus_mod_idemp_l. f_equal. lia. }
      apply (IH _ (r + 1) Hwf' ltac:(lia) ltac:(lia) Hcur').
      cbn [filters]. destruct Hheld as (g & Hg & HC). exists g. split; [|exact HC].
      rewrite list_lookup_insert_ne; [exact Hg|].
      rewrite Hcur'. pose proof (mod_shift_ne W c0 (r + 1) Hc0 ltac:(lia)) as Hne.
      pose proof (Z.mod_pos_bound (c0 + (r + 1)) W ltac:(lia)). lia.
Qed.

(** X14.  The time-windowed filter keeps an item through fewer than W
    rotations: after any calls, an item added to a filter of W windows, each
    with at least one bit, is reported as present as long as fewer than W
    rotations follow its addition, whatever else is added in between.  All
    the calls return, the constructor included, for a number of windows
    within the allocation limit (8 bytes per window, [maxAlloc] in all). *)
Theorem bloom_window_retains
    (W sz k : Z) (before after : list window_op) (item : list byte) :
  0 < W -> 8 * W <= maxAlloc -> 0 < sz ->
  rotations after < W ->
  exists w0 w1 w2 w3,
    NewBloomFilterTimeWindow W sz k = Ret w0 /\
    window_run w0 before = Ret w1 /\
    BloomFilterTimeWindow.Add w1 item = Ret w2 /\
    window_run w2 after = Ret w3 /\
    BloomFilterTimeWindow.Contains w3 item = Ret true.
Proof.
  intros HW0 Hmem Hsz Hrot.
  assert (HW : 0 < W < 2 ^ 63) by (unfold maxAlloc in Hmem; lia).
  destruct (NewBloomFilterTimeWindow_wf W sz k ltac:(lia) Hmem Hsz) as [E0 Hwf0].
  destruct (window_run_wf W sz k before ltac:(lia) _ Hwf0) as (w1 & E1 & Hwf1).
  destruct (window_Add_step W sz k w1 item Hwf1) as (f & f' & Hf & HAdd & E2 & Hwf2).
  pose proof Hwf1 as (_ & Hc1 & Hlen1 & _).
  destruct (window_run_retains W sz k (current w1) item after ltac:(lia) Hc1 _ 0 Hwf2
              ltac:(lia) ltac:(lia)) as (w3 & E3 & Hwf3 & g & Hg & HC).
  { cbn [current]. rewrite Z.add_0_r, Z.mod_small by lia. reflexivity. }
  { cbn [filters]. exists f'. split.
    - apply list_lookup_insert_eq. lia.
    - apply (bloom_added_is_contained f f' f' item []); [exact HAdd|reflexivity]. }
  eexists _, w1, _, w3. split; [exact E0|]. split; [exact E1|]. split; [exact E2|].
  split; [exact E3|].
  unfold BloomFilterTimeWindow.Contains. destruct Hwf3 as (_ & _ & _ & Hall).
  apply (contains_any_true _ item) with (i := Z.to_nat (current w1)) (f := g);
    [|exact Hg|exact HC].
  eapply Forall_impl; [exact Hall|]. intros x Hx. apply Hx.
Qed.

(** Witness for [bloom_window_retains]: three windows, two rotations after
    the item. *)
Lemma bloom_window_retains_witness :
  exists w0 w1 w2 w3,
    NewBloomFilterTimeWindow 3 64 2 = Ret w0 /\
    window_run w0 [WAdd ["b"%byte]; WRotate] = Ret w1 /\
    BloomFilterTimeWindow.Add w1 ["a"%byte] = Ret w2 /\
    window_run w2 [WRotate; WAdd ["c"%byte]; WRotate] = Ret w3 /\
    BloomFilterTimeWindow.Contains w3 ["a"%byte] = Ret true.
Proof.
  apply (bloom_window_retains 3 64 2); [lia|unfold maxAlloc; lia|lia|reflexivity].
Defined.

(** After [r] rotations the [r] filters the cursor has passed are empty. *)
Lemma window_rotations_clear (W sz k c : Z) (n : nat) :
  0 < W < 2 ^ 63 ->
  forall w r,
  window_wf W sz k w -> 0 <= r ->
  current w = (c + r) mod W ->
  (forall j, 1 <= j <= r ->
     filters w !! Z.to_nat ((c + j) mod W) = Some (BloomFilter.NewBloomFilter sz k)) ->
  exists w',
    window_run w (replicate n WRotate) = Ret w' /\ window_wf W sz k w' /\
    current w' = (c + (r + Z.of_nat n)) mod W /\
    forall j, 1 <= j <= r + Z.of_nat n ->
      filters w' !! Z.to_nat ((c + j) mod W) = Some (BloomFilter.NewBloomFilter sz k).
Proof.
  intros HW. induction n as [|n IH]; intros w r Hwf Hr Hcur Hclear.
  - exists w. split; [reflexivity|]. split; [exact Hwf|].
    rewrite Z.add_0_r. split; assumption.
  - cbn [replicate window_run window_step].
    destruct (window_Rotate_step W sz k w ltac:(lia) Hwf) as [-> Hwf'].
    rewrite bind_Ret.
    assert (Hcur' : (current w + 1) mod W = (c + (r + 1)) mod W).
    { rewrite Hcur, Zplus_mod_idemp_l. f_equal. lia. }
    destruct (IH _ (r + 1) Hwf' ltac:(lia) Hcur') as (w' & E & Hwf'' & Hc'' & Hcl'').
    + cbn [filters]. intros j Hj. pose proof Hwf as (_ & _ & Hlen & _).
      pose proof (Z.mod_pos_bound (c + j) W ltac:(lia)).
      destruct (decide (j = r + 1)) as [->|Hne].
      * rewrite Hcur'. apply list_lookup_insert_eq. lia.
      * destruct (decide (Z.to_nat ((current w + 1) mod W) = Z.to_nat ((c + j) mod W)))
          as [E|E].
        -- rewrite E. apply list_lookup_insert_eq. lia.
        -- rewrite list_lookup_insert_ne by exact E. apply Hclear. lia.
    + exists w'. split; [exact E|]. split; [exact Hwf''|].
      replace (r + Z.of_nat (S n)) with (r + 1 + Z.of_nat n) by lia.
      split; assumption.
Qed.

(** X15.  W rotations in a row empty the time-windowed filter: every one of
    the W filters is back in the state its constructor gave it, the cursor
    is where it was, and, with at least one hash function, no item is
    reported as present. *)
Theorem bloom_window_forgets
    (W sz k : Z) (w : BloomFilterTimeWindow.t) (item : list byte) :
  0 < W < 2 ^ 63 -> 0 < k ->
  window_wf W sz k w ->
  exists w',
    window_run w (replicate (Z.to_nat W) WRotate) = Ret w' /\
    filters w' = replicate (Z.to_nat W) (BloomFilter.NewBloomFilter sz k) /\
    current w' = current w /\
    BloomFilterTimeWindow.Contains w' item = Ret false.
Proof.
  intros HW Hk Hwf. pose proof Hwf as (_ & Hc & Hlen & Hall).
  destruct (window_rotations_clear W sz k (current w) (Z.to_nat W) HW w 0 Hwf ltac:(lia))
    as (w' & E & Hwf' & Hc' & Hcl).
  { rewrite Z.add_0_r, Z.mod_small by lia. reflexivity. }
  { intros j Hj. lia. }
  assert (Hsz : 0 < sz).
  { destruct (lookup_lt_is_Some_2 (filters w) (Z.to_nat (current w))) as [f Hf]; [lia|].
    pose proof (Forall_lookup_1 _ _ _ _ Hall Hf) as ([Hsz _] & Hs & _). lia. }
  assert (Hfilters : filters w' = replicate (Z.to_nat W) (BloomFilter.NewBloomFilter sz k)).
  { pose proof Hwf' as (_ & _ & Hlen' & _).
    apply list_eq. intros i. destruct (decide (i < Z.to_nat W)%nat) as [Hi|Hi].
    - rewrite lookup_replicate_2 by exact Hi.
      set (idx := Z.of_nat i).
      set (j := if (idx - current w) mod W =? 0 then W else (idx - current w) mod W).
      pose proof (Z.mod_pos_bound (idx - current w) W ltac:(lia)) as Hb.
      assert (Hj : 1 <= j <= 0 + Z.of_nat (Z.to_nat W)).
      { unfold j. destruct (Z.eqb_spec ((idx - current w) mod W) 0); lia. }
      assert (Ej : (current w + j) mod W = idx).
      { unfold j. destruct (Z.eqb_spec ((idx - current w) mod W) 0) as [E0|E0].
        - rewrite <- (Z.mul_1_l W) at 1. rewrite Z.mod_add by lia.
          rewrite Z.mod_small by lia.
          pose proof (Z.div_mod (idx - current w) W ltac:(lia)) as Hdm.
          rewrite E0 in Hdm. unfold idx in *.
          assert (Hi' : 0 <= Z.of_nat i < W) by lia.
          set (q := (Z.of_nat i - current w) / W) in *.
          assert (-1 < q < 1) by nia. nia.
        - rewrite Zplus_mod_idemp_r.
          replace (current w + (idx - current w)) with idx by lia.
          apply Z.mod_small. unfold idx. lia. }
      specialize (Hcl j Hj). rewrite Ej in Hcl. unfold idx in Hcl.
      rewrite Nat2Z.id in Hcl. exact Hcl.
    - rewrite lookup_ge_None_2 by lia.
      symmetry. apply lookup_ge_None_2. rewrite length_replicate. lia. }
  exists w'. split; [exact E|]. split; [exact Hfilters|]. split.
  - rewrite Hc'. rewrite Z.add_0_l, Z2Nat.id by lia.
    rewrite <- (Z.mul_1_l W) at 1. rewrite Z.mod_add by lia. apply Z.mod_small. lia.
  - unfold BloomFilterTimeWindow.Contains. rewrite Hfilters.
    apply contains_any_new; assumption.
Qed.

(** Witness for [bloom_window_forgets]: three windows, the first of which
    holds an item. *)
Lemma bloom_window_forgets_witness :
  exists w',
    window_run (BloomFilterTimeWindow.mk
                  [one_item_filter; BloomFilter.NewBloomFilter 4 1;
                   BloomFilter.NewBloomFilter 4 1] 3 0)
      (replicate (Z.to_nat 3) WRotate) = Ret w' /\
    filters w' = replicate (Z.to_nat 3) (BloomFilter.NewBloomFilter 4 1) /\
    current w' = 0 /\
    BloomFilterTimeWindow.Contains w' ["a"%byte] = Ret false.
Proof.
  apply (bloom_window_forgets 3 4 1
           (BloomFilterTimeWindow.mk
              [one_item_filter; BloomFilter.NewBloomFilter 4 1;
               BloomFilter.NewBloomFilter 4 1] 3 0) ["a"%byte]); [lia|lia|].
  unfold window_wf. cbn [window current filters]. split; [reflexivity|].
  split; [lia|]. split; [reflexivity|].
  repeat constructor; cbn; lia.
Defined.

(** A time-windowed filter built with zero windows is accepted by the
    constructor and reports no item as present, but [Add] panics with an
    index out of range and [Rotate] with a division by zero; a negative
    number of windows makes the constructor itself panic. *)
Theorem bloom_window_without_windows (W sz k : Z) (item : list byte) :
  W <= 0 ->
  (W = 0 ->
   NewBloomFilterTimeWindow W sz k = Ret (BloomFilterTimeWindow.mk [] 0 0) /\
   BloomFilterTimeWindow.Contains (BloomFilterTimeWindow.mk [] 0 0) item = Ret false /\
   BloomFilterTimeWindow.Add (BloomFilterTimeWindow.mk [] 0 0) item = Panic IndexOutOfRange /\
   BloomFilterTimeWindow.Rotate (BloomFilterTimeWindow.mk [] 0 0) = Panic IntegerDivideByZero) /\
  (W < 0 -> NewBloomFilterTimeWindow W sz k = Panic MakesliceLenOutOfRange).
Proof.
  intros HW. split.
  - intros ->. repeat split; reflexivity.
  - intros Hneg. unfold NewBloomFilterTimeWindow, make, makeslice.
    destruct (Z.ltb_spec W 0); [reflexivity|lia].
Qed.

End BloomFilterTimeWindowFacts.

(** Witness for [bloom_window_without_windows]: zero windows. *)
Lemma bloom_window_without_windows_witness :
  (0 = 0 ->
   BloomFilterTimeWindow.NewBloomFilterTimeWindow 0 64 2 = Ret (BloomFilterTimeWindow.mk [] 0 0) /\
   BloomFilterTimeWindow.Contains (BloomFilterTimeWindow.mk [] 0 0) ["a"%byte] = Ret false /\
   BloomFilterTimeWindow.Add (BloomFilterTimeWindow.mk [] 0 0) ["a"%byte]
     = Panic IndexOutOfRange /\
   BloomFilterTimeWindow.Rotate (BloomFilterTimeWindow.mk [] 0 0) = Panic IntegerDivideByZero) /\
  (0 < 0 -> BloomFilterTimeWindow.NewBloomFilterTimeWindow 0 64 2
            = Panic MakesliceLenOutOfRange).
Proof. apply (bloom_window_without_windows 0 64 2 ["a"%byte]). lia. Defined.

(** * Further properties of the samplers *)

(** ** ReservoirSampler *)

Section ReservoirSamplerMoreFacts.
Import ReservoirSampler.

Lemma add_samples_below_capacity (stream : list MetricPoint) :
  forall rs,
  0 <= count rs ->
  count rs + Z.of_nat (length stream) < 2 ^ 64 ->
  Z.of_nat (length (samples rs)) + Z.of_nat (length stream) <= capacity rs ->
  add_samples rs stream =
    Ret (ReservoirSampler.mk (capacity rs) (samples rs ++ stream)
           (count rs + Z.of_nat (length stream)) (rng rs)).
Proof.
  induction stream as [|metric stream IH]; intros rs Hc Hn Hcap.
  - cbn [add_samples length]. rewrite app_nil_r, Z.add_0_r. destruct rs; reflexivity.
  - cbn [add_samples length] in *. unfold ReservoirSampler.Add.
    destruct (Z.ltb_spec (Z.of_nat (length (samples rs))) (capacity rs)); [|lia].
    rewrite bind_Ret. cbn [fst]. rewrite uint64_small by lia.
    rewrite IH; cbn [capacity samples count rng]; rewrite ?length_app; cbn [length]; try lia.
    rewrite <- app_assoc. do 2 f_equal. lia.
Qed.

(** X16.  A reservoir that is not yet full keeps every record, in the order
    of arrival and without drawing from its random generator: a stream of at
    most K records added to a new reservoir of capacity K, K within the
    allocation limit (8 bytes per slot, [maxAlloc] in all), is held exactly
    as it came, and the count is its length. *)
Theorem reservoir_fills_in_order
    (K : Z) (rng0 : rand.Rand) (stream : list MetricPoint) :
  Z.of_nat (length stream) <= K -> 8 * K <= maxAlloc ->
  exists rs0 rs,
    NewReservoirSampler K rng0 = Ret rs0 /\
    add_samples rs0 stream = Ret rs /\
    GetSamples rs = stream /\
    Count rs = Z.of_nat (length stream) /\
    rng rs = rng0.
Proof.
  intros Hlen Hmem.
  assert (HK : K < 2 ^ 63) by (unfold maxAlloc in Hmem; lia).
  rewrite NewReservoirSampler_Ret by lia.
  eexists _, _. split; [reflexivity|].
  rewrite add_samples_below_capacity; cbn [capacity samples count rng length]; try lia.
  split; [reflexivity|]. repeat split.
Qed.

(** Witness for [reservoir_fills_in_order]: two records, capacity 3. *)
Lemma reservoir_fills_in_order_witness :
  exists rs0 rs,
    NewReservoirSampler 3 (constant_rand 1) = Ret rs0 /\
    add_samples rs0 [cpu_metric "pod-1"; cpu_metric "pod-2"] = Ret rs /\
    GetSamples rs = [cpu_metric "pod-1"; cpu_metric "pod-2"] /\
    Count rs = Z.of_nat (length [cpu_metric "pod-1"; cpu_metric "pod-2"]) /\
    rng rs = constant_rand 1.
Proof. apply (reservoir_fills_in_order 3); [simpl; lia | unfold maxAlloc; lia]. Defined.

Lemma elem_of_insert_or {A : Type} (l : list A) (i : nat) (v x : A) :
  x ∈ <[i := v]> l -> x ∈ l \/ x = v.
Proof.
  revert i. induction l as [|y l IH]; intros i; [intros H; inversion H|].
  destruct i as [|i]; cbn [insert list_insert]; intros H;
    apply elem_of_cons in H as [->|H].
  - now right.
  - left. now right.
  - left. now left.
  - destruct (IH i H) as [Hl|Hv]; [left; now right|now right].
Qed.

(** One [Add] on a reservoir that has seen fewer than 2^63 - 1 records. *)
Lemma reservoir_Add_spec (rs : ReservoirSampler.t) (metric : MetricPoint) :
  0 <= count rs < 2 ^ 63 - 1 -> Size rs <= capacity rs ->
  exists rs' kept,
    ReservoirSampler.Add rs metric = Ret (rs', kept) /\
    capacity rs' = capacity rs /\
    count rs' = count rs + 1 /\
    Size rs' = (if Size rs <? capacity rs then Size rs + 1 else Size rs) /\
    (kept = None \/ kept = Some metric) /\
    forall x, x ∈ samples rs' -> x ∈ samples rs \/ x = metric.
Proof.
  intros Hcount Hsize. unfold ReservoirSampler.Add, Size in *.
  rewrite (uint64_small (count rs + 1)) by lia.
  destruct (Z.ltb_spec (Z.of_nat (length (samples rs))) (capacity rs)) as [Hlt|Hge].
  - eexists _, _. split; [reflexivity|]. cbn [capacity count samples].
    rewrite length_app. cbn [length]. repeat split; try lia; [now right|].
    intros x Hx. apply elem_of_app in Hx as [Hx|Hx]; [now left|].
    apply list_elem_of_singleton in Hx. now right.
  - unfold rand.Intn, int_of_uint64.
    destruct (Z.ltb_spec (count rs + 1) (2 ^ 63)); [|lia].
    destruct (Z.leb_spec (count rs + 1) 0); [lia|].
    destruct (rand.Int63 (rng rs)) as [x rng'] eqn:Ex. rewrite bind_Ret.
    pose proof (Z.mod_pos_bound x (count rs + 1) ltac:(lia)) as Hm.
    destruct (Z.ltb_spec (x mod (count rs + 1)) (capacity rs)) as [Hin|Hout].
    + rewrite store_Ret by lia. rewrite bind_Ret.
      eexists _, _. split; [reflexivity|]. cbn [capacity count samples].
      rewrite length_insert. repeat split; try lia; [now right|].
      intros y Hy. apply elem_of_insert_or in Hy. exact Hy.
    + eexists _, _. split; [reflexivity|]. cbn [capacity count samples].
      repeat split; try lia; [now left|]. intros y Hy. now left.
Qed.

Lemma add_samples_spec (stream : list MetricPoint) :
  forall rs,
  0 <= count rs -> count rs + Z.of_nat (length stream) < 2 ^ 63 ->
  Size rs <= capacity rs ->
  exists rs',
    add_samples rs stream = Ret rs' /\
    capacity rs' = capacity rs /\
    count rs' = count rs + Z.of_nat (length stream) /\
    Size rs' = Z.min (capacity rs) (Size rs + Z.of_nat (length stream)) /\
    forall x, x ∈ samples rs' -> x ∈ samples rs \/ x ∈ stream.
Proof.
  induction stream as [|metric stream IH]; intros rs Hc Hn Hsize.
  - exists rs. cbn [add_samples length]. repeat split; try lia. intros x Hx. now left.
  - cbn [add_samples length] in *.
    destruct (reservoir_Add_spec rs metric ltac:(lia) Hsize)
      as (rs1 & kept & E & Hcap & Hcount & Hsz & _ & Hin).
    rewrite E, bind_Ret. cbn [fst].
    destruct (IH rs1) as (rs' & E' & Hcap' & Hcount' & Hsz' & Hin').
    { lia. } { lia. }
    { rewrite Hsz, Hcap. destruct (Z.ltb_spec (Size rs) (capacity rs)); lia. }
    exists rs'. split; [exact E'|]. split; [congruence|]. split; [lia|]. split.
    + rewrite Hsz', Hsz, Hcap. destruct (Z.ltb_spec (Size rs) (capacity rs)); lia.
    + intros x Hx. destruct (Hin' x Hx) as [H1|H1].
      * destruct (Hin x H1) as [H2| ->]; [now left|right; now left].
      * right. now right.
Qed.

(** X17.  After n records (n below 2^63) a new reservoir of capacity K, K not
    negative and within the allocation limit (8 bytes per slot, [maxAlloc]
    in all), holds exactly min(K, n) samples, each of them a record of the
    stream, and its count is n, whatever the random generator draws; the
    constructor and every [Add] return. *)
Theorem reservoir_holds_stream_records
    (K : Z) (rng0 : rand.Rand) (stream : list MetricPoint) :
  0 <= K -> 8 * K <= maxAlloc -> Z.of_nat (length stream) < 2 ^ 63 ->
  exists rs0 rs,
    NewReservoirSampler K rng0 = Ret rs0 /\
    add_samples rs0 stream = Ret rs /\
    Size rs = Z.min K (Z.of_nat (length stream)) /\
    Count rs = Z.of_nat (length stream) /\
    forall x, x ∈ GetSamples rs -> x ∈ stream.
Proof.
  intros HK Hmem Hlen. rewrite NewReservoirSampler_Ret by assumption.
  destruct (add_samples_spec stream (ReservoirSampler.mk K [] 0 rng0))
    as (rs & E & Hcap & Hcount & Hsz & Hin); cbn [count capacity samples Size length];
    try lia.
  { unfold Size. cbn. lia. }
  eexists _, rs. split; [reflexivity|]. split; [exact E|].
  split; [rewrite Hsz; unfold Size; cbn; lia|]. split; [exact Hcount|].
  intros x Hx. destruct (Hin x Hx) as [H0|H0]; [inversion H0|exact H0].
Qed.

(** Witness for [reservoir_holds_stream_records]: three records, capacity 1. *)
Lemma reservoir_holds_stream_records_witness :
  exists rs0 rs,
    NewReservoirSampler 1 (constant_rand 1) = Ret rs0 /\
    add_samples rs0 [cpu_metric "pod-1"; cpu_metric "pod-2"; cpu_metric "pod-3"] = Ret rs /\
    Size rs = Z.min 1 (Z.of_nat (length [cpu_metric "pod-1"; cpu_metric "pod-2";
                                         cpu_metric "pod-3"])) /\
    Count rs = Z.of_nat (length [cpu_metric "pod-1"; cpu_metric "pod-2"; cpu_metric "pod-3"]) /\
    forall x, x ∈ GetSamples rs ->
              x ∈ [cpu_metric "pod-1"; cpu_metric "pod-2"; cpu_metric "pod-3"].
Proof.
  apply (reservoir_holds_stream_records 1); [lia | unfold maxAlloc; lia | simpl; lia].
Defined.

(** [GetRandomSample] answers nil exactly on an empty reservoir, which
    it leaves untouched, generator included; otherwise it returns one of the
    held samples and changes nothing but the generator.  [Clear] empties the
    reservoir and resets the count, keeping capacity and generator. *)
Theorem reservoir_random_sample_and_clear (rs : ReservoirSampler.t) :
  (samples rs = [] -> GetRandomSample rs = Ret (rs, None)) /\
  (samples rs <> [] ->
   exists rs' x,
     GetRandomSample rs = Ret (rs', Some x) /\ x ∈ samples rs /\
     samples rs' = samples rs /\ count rs' = count rs /\ capacity rs' = capacity rs) /\
  Size (Clear rs) = 0 /\ Count (Clear rs) = 0 /\
  capacity (Clear rs) = capacity rs /\ rng (Clear rs) = rng rs /\
  GetRandomSample (Clear rs) = Ret (Clear rs, None).
Proof.
  split; [|split].
  - intros E. unfold GetRandomSample. rewrite E. reflexivity.
  - intros Hne. unfold GetRandomSample, rand.Intn.
    destruct (samples rs) as [|s l] eqn:E; [contradiction|]. rewrite <- E in *.
    assert (Hpos : 0 < Z.of_nat (length (samples rs))) by (rewrite E; cbn; lia).
    destruct (Z.eqb_spec (Z.of_nat (length (samples rs))) 0); [lia|].
    destruct (Z.leb_spec (Z.of_nat (length (samples rs))) 0); [lia|].
    destruct (rand.Int63 (rng rs)) as [x rng'] eqn:Ex. rewrite bind_Ret.
    pose proof (Z.mod_pos_bound x _ Hpos) as Hm.
    destruct (lookup_lt_is_Some_2 (samples rs)
                (Z.to_nat (x mod Z.of_nat (length (samples rs))))) as [y Hy]; [lia|].
    rewrite (index_Ret _ _ y) by (try exact Hy; lia). rewrite bind_Ret.
    eexists _, y. split; [reflexivity|]. split; [|repeat split].
    apply list_elem_of_lookup. eauto.
  - repeat split.
Qed.

End ReservoirSamplerMoreFacts.

(** ** WeightedReservoirSampler *)

Section WeightedReservoirSamplerMoreFacts.
Import WeightedReservoirSampler.

Lemma min_key_range (rest : list WeightedSample) :
  forall i minIdx minKey,
  0 <= minIdx < i ->
  0 <= (min_key rest i minIdx minKey).1 < i + Z.of_nat (length rest).
Proof.
  induction rest as [|s rest IH]; intros i minIdx minKey Hi; cbn [min_key length].
  - cbn. lia.
  - destruct (PrimFloat.ltb (Key s) minKey).
    + specialize (IH (i + 1) i (Key s) ltac:(lia)). lia.
    + specialize (IH (i + 1) minIdx minKey ltac:(lia)). lia.
Qed.

(** One [AddWeighted] on a sampler of positive capacity. *)
Lemma AddWeighted_spec (Pow : float -> float -> float)
    (wrs : WeightedReservoirSampler.t) (metric : MetricPoint) (weight : float) :
  0 < capacity wrs ->
  Z.of_nat (length (samples wrs)) <= capacity wrs ->
  exists wrs',
    AddWeighted Pow wrs metric weight = Ret wrs' /\
    capacity wrs' = capacity wrs /\
    Z.of_nat (length (samples wrs')) <= capacity wrs /\
    forall s, s ∈ samples wrs' ->
      s ∈ samples wrs \/
      (Metric s = metric /\ Weight s = weight /\ PrimFloat.leb weight 0 = false).
Proof.
  intros Hcap Hlen. unfold AddWeighted.
  destruct (PrimFloat.leb weight 0) eqn:Ew.
  { exists wrs. repeat split; try lia. intros s Hs. now left. }
  destruct (rand.Float64 (rng wrs)) as [u rng'].
  set (sample := {| Metric := metric; Weight := weight;
                    Key := Pow u (PrimFloat.div 1 weight) |}).
  destruct (Z.ltb_spec (Z.of_nat (length (samples wrs))) (capacity wrs)) as [Hlt|Hge].
  - eexists. split; [reflexivity|]. cbn [capacity samples]. rewrite length_app.
    cbn [length]. repeat split; try lia.
    intros s Hs. apply elem_of_app in Hs as [Hs|Hs]; [now left|].
    apply list_elem_of_singleton in Hs as ->. right. repeat split.
  - destruct (samples wrs) as [|first rest] eqn:E; [cbn in Hge; lia|].
    rewrite (index_Ret _ _ first) by (reflexivity || lia). rewrite bind_Ret. cbn [tail].
    pose proof (min_key_range rest 1 0 (Key first) ltac:(lia)) as Hr.
    destruct (min_key rest 1 0 (Key first)) as [minIdx minKey]. cbn [fst] in Hr.
    cbn [Key sample]. destruct (PrimFloat.ltb minKey _).
    + rewrite store_Ret by (cbn [length]; lia). rewrite bind_Ret.
      eexists. split; [reflexivity|]. cbn [capacity samples].
      rewrite length_insert. repeat split; try lia.
      intros s Hs. apply elem_of_insert_or in Hs as [Hs| ->]; [now left|].
      right. repeat split.
    + eexists. split; [reflexivity|]. cbn [capacity samples].
      repeat split; try lia.
      intros s Hs. now left.
Qed.

(** X18.  A weighted reservoir of positive capacity K within the allocation
    limit (24 bytes per slot, [maxAlloc] in all) never panics and never
    holds more than K samples; every sample it holds is a record of the
    stream with the weight it came with, and that weight is not at or below
    zero (records with such weights never enter).  This holds for every
    power function and every sequence of draws. *)
Theorem weighted_reservoir_invariants
    (Pow : float -> float -> float) (K : Z) (rng0 : rand.Rand)
    (stream : list (MetricPoint * float)) :
  0 < K -> 24 * K <= maxAlloc ->
  exists wrs0 wrs,
    NewWeightedReservoirSampler K rng0 = Ret wrs0 /\
    add_weighted_all Pow wrs0 stream = Ret wrs /\
    Z.of_nat (length (GetWeightedSamples wrs)) <= K /\
    forall s, s ∈ GetWeightedSamples wrs ->
      (Metric s, Weight s) ∈ stream /\ PrimFloat.leb (Weight s) 0 = false.
Proof.
  intros HK Hmem. rewrite NewWeightedReservoirSampler_Ret by lia.
  eexists _.
  assert (Hgen : forall stream wrs,
             capacity wrs = K -> Z.of_nat (length (samples wrs)) <= K ->
             exists wrs',
               add_weighted_all Pow wrs stream = Ret wrs' /\
               Z.of_nat (length (samples wrs')) <= K /\
               forall s, s ∈ samples wrs' ->
                 s ∈ samples wrs \/
                 ((Metric s, Weight s) ∈ stream /\ PrimFloat.leb (Weight s) 0 = false)).
  { clear stream. induction stream as [|[metric weight] stream IH]; intros wrs Hc Hl.
    - exists wrs. split; [reflexivity|]. split; [exact Hl|]. intros s Hs. now left.
    - cbn [add_weighted_all].
      destruct (AddWeighted_spec Pow wrs metric weight ltac:(lia) ltac:(lia))
        as (wrs1 & E & Hc1 & Hl1 & Hin1).
      rewrite E, bind_Ret.
      destruct (IH wrs1 ltac:(congruence) ltac:(lia)) as (wrs' & E' & Hl' & Hin').
      exists wrs'. split; [exact E'|]. split; [exact Hl'|].
      intros s Hs. destruct (Hin' s Hs) as [H1|[H1 H2]].
      + destruct (Hin1 s H1) as [H3|(Hm & Hw & Hp)]; [now left|].
        right. rewrite Hm, Hw. split; [now left|exact Hp].
      + right. split; [now right|exact H2]. }
  destruct (Hgen stream (WeightedReservoirSampler.mk K [] rng0) eq_refl ltac:(cbn; lia))
    as (wrs & E & Hl & Hin).
  exists wrs. split; [reflexivity|]. split; [exact E|]. split; [exact Hl|].
  intros s Hs. destruct (Hin s Hs) as [H0|H0]; [inversion H0|exact H0].
Qed.

(** Witness for [weighted_reservoir_invariants]: capacity 1, two records. *)
Lemma weighted_reservoir_invariants_witness :
  exists wrs0 wrs,
    NewWeightedReservoirSampler 1 (constant_rand 1) = Ret wrs0 /\
    add_weighted_all (fun x _ => x) wrs0
      [(cpu_metric "pod-1", 1%float); (cpu_metric "pod-2", 2%float)] = Ret wrs /\
    Z.of_nat (length (GetWeightedSamples wrs)) <= 1 /\
    forall s, s ∈ GetWeightedSamples wrs ->
      (Metric s, Weight s) ∈ [(cpu_metric "pod-1", 1%float); (cpu_metric "pod-2", 2%float)] /\
      PrimFloat.leb (Weight s) 0 = false.
Proof.
  apply (weighted_reservoir_invariants (fun x _ => x) 1); [lia | unfold maxAlloc; lia].
Defined.

(** X19.  A weighted reservoir of capacity 0 is accepted by the constructor
    but panics with an index out of range on the first record whose weight
    is not at or below zero: with no room to append, [AddWeighted] reads the
    key of the first sample of an empty slice. *)
Theorem weighted_zero_capacity_panics
    (Pow : float -> float -> float) (rng0 : rand.Rand)
    (metric : MetricPoint) (weight : float) :
  PrimFloat.leb weight 0 = false ->
  exists wrs0,
    NewWeightedReservoirSampler 0 rng0 = Ret wrs0 /\
    AddWeighted Pow wrs0 metric weight = Panic IndexOutOfRange.
Proof.
  intros Hw. eexists. split; [reflexivity|].
  unfold AddWeighted. rewrite Hw. cbn [rng capacity samples].
  destruct (rand.Float64 rng0) as [u rng']. reflexivity.
Qed.

(** Witness for [weighted_zero_capacity_panics]: weight 1. *)
Lemma weighted_zero_capacity_panics_witness :
  exists wrs0,
    NewWeightedReservoirSampler 0 (constant_rand 1) = Ret wrs0 /\
    AddWeighted (fun x _ => x) wrs0 (cpu_metric "pod-1") 1%float = Panic IndexOutOfRange.
Proof. apply weighted_zero_capacity_panics. reflexivity. Defined.

End WeightedReservoirSamplerMoreFacts.

(** ** WindowStats *)

Section WindowStatsFacts.
Import WindowStats.

Lemma for_loop_returns {St : Type} (body : Z -> St -> exec St) (range : list Z) :
  (forall i s, i ∈ range -> exists s', body i s = Ret s') ->
  forall s, exists s', for_loop body range s = Ret s'.
Proof.
  induction range as [|i range IH]; intros Hbody s; [eexists; reflexivity|].
  cbn [for_loop]. destruct (Hbody i s ltac:(left)) as [s1 ->]. rewrite bind_Ret.
  apply IH. intros j s2 Hj. apply Hbody. now right.
Qed.

(** What [keep_from] finds: 0, or the offset of the first timestamp after the
    cutoff, every timestamp before it being at or before the cutoff. *)
Lemma keep_from_spec (timestamps : list Z) (cutoff : Z) :
  forall i, 0 <= i ->
  exists j : nat,
    (keep_from timestamps cutoff i = 0 \/ keep_from timestamps cutoff i = i + Z.of_nat j) /\
    ((j < length timestamps)%nat \/ (j = 0%nat /\ keep_from timestamps cutoff i = 0)) /\
    Forall (fun t => t <= cutoff) (take j timestamps).
Proof.
  induction timestamps as [|ts timestamps IH]; intros i Hi; cbn [keep_from].
  - exists 0%nat. split; [now left|]. split; [right; split; reflexivity|constructor].
  - destruct (Z.ltb_spec cutoff ts) as [Hlt|Hge].
    + exists 0%nat. split; [right; lia|]. split; [left; cbn; lia|constructor].
    + destruct (IH (i + 1) ltac:(lia)) as (j & Hk & Hj & Hall).
      destruct Hk as [Hk|Hk].
      * exists 0%nat. split; [now left|]. split; [left; cbn; lia|constructor].
      * exists (S j). split; [right; lia|]. split.
        -- destruct Hj as [Hj|[-> Hj]]; [left; cbn; lia|lia].
        -- cbn [take]. constructor; [lia|exact Hall].
Qed.

(** One [Add]: the reading is appended and a prefix of stale readings is
    dropped. *)
Lemma windowstats_add_step
    (ws : WindowStats.t) (value : float) (timestamp : Z) :
  length (values ws) = length (timestamps ws) ->
  exists ws' (n : nat),
    WindowStats.Add ws value timestamp = Ret ws' /\
    (n <= length (values ws))%nat /\
    values ws' = drop n (values ws) ++ [value] /\
    timestamps ws' = drop n (timestamps ws) ++ [timestamp] /\
    Forall (fun t => t <= timestamp - windowSize ws) (take n (timestamps ws)) /\
    windowSize ws' = windowSize ws.
Proof.
  intros Hlen. unfold WindowStats.Add, cleanup.
  cbn [values timestamps windowSize sum sumSquares].
  replace (timestamp + - windowSize ws) with (timestamp - windowSize ws) by lia.
  destruct (keep_from_spec (timestamps ws ++ [timestamp]) (timestamp - windowSize ws) 0
              ltac:(lia)) as (j & Hk & Hj & Hall).
  rewrite length_app in Hj. cbn [length] in Hj.
  assert (Hjn : (j <= length (timestamps ws))%nat) by lia.
  set (k := keep_from (timestamps ws ++ [timestamp]) (timestamp - windowSize ws) 0) in *.
  destruct (Z.ltb_spec 0 k) as [Hpos|Hzero].
  - assert (Ek : k = Z.of_nat j) by lia.
    destruct (for_loop_returns
                (fun i '(sum, sumSquares) =>
                   v ← index (values ws ++ [value]) i;
                   Ret (PrimFloat.sub sum v, PrimFloat.sub sumSquares (PrimFloat.mul v v)))
                (seqZ 0 k)) with (s := (PrimFloat.add (sum ws) value,
                                        PrimFloat.add (sumSquares ws) (PrimFloat.mul value value)))
      as [[sum' sq'] Eloop].
    { intros i [s1 s2] Hi. apply elem_of_seqZ in Hi.
      destruct (lookup_lt_is_Some_2 (values ws ++ [value]) (Z.to_nat i)) as [v Hv].
      { rewrite length_app. cbn [length]. lia. }
      rewrite (index_Ret _ _ v) by (try exact Hv; lia). rewrite bind_Ret. eauto. }
    rewrite Eloop, bind_Ret. unfold slice_from. rewrite !length_app. cbn [length].
    destruct (Z.ltb_spec k 0); [lia|].
    destruct (Z.ltb_spec (Z.of_nat (length (values ws) + 1)) k); [lia|].
    destruct (Z.ltb_spec (Z.of_nat (length (timestamps ws) + 1)) k); [lia|].
    cbn [orb]. rewrite !bind_Ret. rewrite Ek, Nat2Z.id.
    eexists _, j. split; [reflexivity|]. cbn [values timestamps windowSize].
    split; [lia|]. split; [apply drop_app_le; lia|]. split; [apply drop_app_le; lia|].
    split; [|reflexivity].
    rewrite take_app_le in Hall by lia. exact Hall.
  - eexists _, 0%nat. split; [reflexivity|]. cbn [values timestamps windowSize drop take].
    split; [lia|]. repeat split. constructor.
Qed.

(** X20.  One [Add] on a statistics window never panics.  It appends the
    reading and then drops a prefix of the older readings, never the reading
    just added; every dropped reading has a timestamp at or before the new
    timestamp minus the window size.  Values and timestamps stay aligned. *)
Theorem windowstats_add_evicts_stale_prefix
    (ws : WindowStats.t) (value : float) (timestamp : Z) :
  length (values ws) = length (timestamps ws) ->
  exists ws' (n : nat),
    WindowStats.Add ws value timestamp = Ret ws' /\
    (n <= length (values ws))%nat /\
    values ws' = drop n (values ws) ++ [value] /\
    timestamps ws' = drop n (timestamps ws) ++ [timestamp] /\
    Forall (fun t => t <= timestamp - windowSize ws) (take n (timestamps ws)) /\
    windowSize ws' = windowSize ws.
Proof. apply windowstats_add_step. Qed.

(** Witness for [windowstats_add_evicts_stale_prefix]: a new window. *)
Lemma windowstats_add_evicts_stale_prefix_witness :
  exists ws' (n : nat),
    WindowStats.Add (NewWindowStats 60) 1%float 100 = Ret ws' /\
    (n <= length (values (NewWindowStats 60)))%nat /\
    values ws' = drop n (values (NewWindowStats 60)) ++ [1%float] /\
    timestamps ws' = drop n (timestamps (NewWindowStats 60)) ++ [100] /\
    Forall (fun t => t <= 100 - windowSize (NewWindowStats 60))
           (take n (timestamps (NewWindowStats 60))) /\
    windowSize ws' = windowSize (NewWindowStats 60).
Proof. apply (windowstats_add_evicts_stale_prefix (NewWindowStats 60)). reflexivity. Defined.

Lemma add_values_spec (readings : list (float * Z)) :
  forall ws,
  length (values ws) = length (timestamps ws) ->
  exists ws',
    add_values ws readings = Ret ws' /\
    length (values ws') = length (timestamps ws') /\
    windowSize ws' = windowSize ws /\
    forall v t, last readings = Some (v, t) ->
                last (values ws') = Some v /\ last (timestamps ws') = Some t.
Proof.
  induction readings as [|[value timestamp] readings IH]; intros ws Hlen.
  - exists ws. split; [reflexivity|]. split; [exact Hlen|]. split; [reflexivity|].
    intros v t H. discriminate.
  - cbn [add_values].
    destruct (windowstats_add_step ws value timestamp Hlen)
      as (ws1 & n & E & Hn & Hv & Ht & _ & Hw).
    rewrite E, bind_Ret.
    assert (Hlen1 : length (values ws1) = length (timestamps ws1)).
    { rewrite Hv, Ht, !length_app, !length_drop. cbn [length]. lia. }
    destruct (IH ws1 Hlen1) as (ws' & E' & Hlen' & Hw' & Hlast).
    exists ws'. split; [exact E'|]. split; [exact Hlen'|]. split; [congruence|].
    intros v t H. destruct readings as [|r readings].
    + cbn in H. injection H as <- <-. cbn [add_values] in E'. injection E' as <-.
      rewrite Hv, Ht, !last_snoc. split; reflexivity.
    + apply Hlast. exact H.
Qed.

End WindowStatsFacts.

Section WindowStatsStreamFacts.
Import WindowStats.

(** X21.  A statistics window fed any stream of readings never panics; its
    values and timestamps stay aligned and the latest reading is always
    held.  After the first reading a new window holds exactly that value and
    reports variance 0. *)
Theorem windowstats_stream_total (w : Z) (readings : list (float * Z)) :
  exists ws,
    add_values (NewWindowStats w) readings = Ret ws /\
    length (values ws) = length (timestamps ws) /\
    (forall v t, last readings = Some (v, t) ->
                 last (values ws) = Some v /\ last (timestamps ws) = Some t) /\
    (forall v t, readings = [(v, t)] -> values ws = [v] /\ GetVariance ws = 0%float).
Proof.
  destruct (add_values_spec readings (NewWindowStats w) eq_refl)
    as (ws & E & Hlen & _ & Hlast).
  exists ws. split; [exact E|]. split; [exact Hlen|]. split; [exact Hlast|].
  intros v t ->. cbn [add_values] in E.
  destruct (windowstats_add_step (NewWindowStats w) v t eq_refl)
    as (ws1 & n & E1 & _ & Hv & _).
  rewrite E1, bind_Ret in E. injection E as <-.
  cbn [values NewWindowStats] in Hv. rewrite drop_nil in Hv. cbn [app] in Hv.
  split; [exact Hv|]. unfold GetVariance. rewrite Hv. reflexivity.
Qed.

End WindowStatsStreamFacts.

(** ** AdaptiveSampler: no panic, counters *)

Section AdaptiveSamplerMoreFacts.
Import AdaptiveSampler.

Lemma ShouldSample_fields (s : AdaptiveSampler.t) (metric : MetricPoint) :
  config (ShouldSample s metric).1 = config s /\
  reservoirs (ShouldSample s metric).1 = reservoirs s /\
  statistics (ShouldSample s metric).1 = statistics s /\
  anomalyDetector (ShouldSample s metric).1 = anomalyDetector s /\
  totalProcessed (ShouldSample s metric).1 = uint64 (totalProcessed s + 1) /\
  totalSampled (ShouldSample s metric).1 =
    (if (ShouldSample s metric).2 then uint64 (totalSampled s + 1) else totalSampled s) /\
  (ShouldSample s metric).2 =
    PrimFloat.ltb (rand.Float64 (rng s)).1 (calculateSamplingRate s metric).
Proof.
  unfold ShouldSample. destruct (rand.Float64 (rng s)) as [u rng']. cbn.
  repeat split.
Qed.

(** One [Sample] on a sampler that has processed fewer than 2^63 - 1
    records. *)
Lemma Sample_ok (s : AdaptiveSampler.t) (n : Z) (metric : MetricPoint) (fresh : rand.Rand) :
  sampler_ok s n -> 0 <= n < 2 ^ 63 - 1 ->
  exists s' kept,
    AdaptiveSampler.Sample s metric fresh = Ret (s', kept, bool_decide (is_Some kept)) /\
    sampler_ok s' (n + 1) /\
    config s' = config s /\
    (kept = None \/ kept = Some metric) /\
    ((ShouldSample s metric).2 = false ->
     kept = None /\ reservoirs s' = reservoirs s /\ statistics s' = statistics s).
Proof.
  intros (Hp & Hs & Hsize & Hres & Hstat) Hn.
  destruct (ShouldSample_fields s metric) as (Fc & Fr & Fst & Fa & Fp & Fs & Fadm).
  unfold AdaptiveSampler.Sample.
  destruct (ShouldSample s metric) as [s1 admitted]. cbn [fst snd] in *.
  assert (Hp1 : totalProcessed s1 = n + 1) by (rewrite Fp, Hp; apply uint64_small; lia).
  assert (Hs1 : 0 <= totalSampled s1 <= n + 1).
  { rewrite Fs. destruct admitted; [rewrite uint64_small by lia|]; lia. }
  destruct admitted; cbn [negb].
  2:{ exists s1, None. split; [reflexivity|]. split; [|split; [exact Fc|split; [now left|]]].
      - unfold sampler_ok. rewrite Fc, Fr, Fst.
        split; [exact Hp1|]. split; [exact Hs1|]. split; [exact Hsize|].
        split; [|exact Hstat].
        eapply map_Forall_impl; [exact Hres|]. cbn. intros _ rs (H1 & H2 & H3).
        split; [exact H1|]. split; [exact H2|lia].
      - intros _. split; [reflexivity|]. split; assumption. }
  (* admitted *)
  unfold updateStatistics.
  set (stats0 := match statistics s1 !! getStratum metric with
                 | Some stats => stats
                 | None => WindowStats.NewWindowStats (WindowSize (config s1))
                 end).
  assert (Hlen0 : length (WindowStats.values stats0) = length (WindowStats.timestamps stats0)).
  { unfold stats0. rewrite Fst.
    destruct (statistics s !! getStratum metric) as [st|] eqn:Est; [|reflexivity].
    exact (Hstat _ _ Est). }
  destruct (windowstats_add_step stats0 (Value metric) (Timestamp metric) Hlen0)
    as (stats' & k & Eadd & _ & Hv & Ht & _).
  rewrite Eadd, !bind_Ret.
  assert (Hlen' : length (WindowStats.values stats') = length (WindowStats.timestamps stats')).
  { rewrite Hv, Ht, !length_app, !length_drop. cbn [length]. lia. }
  unfold getOrCreateReservoir. cbn [reservoirs config statistics anomalyDetector rng
                                      totalProcessed totalSampled].
  rewrite Fr, Fc.
  assert (Hnew : exists s2 reservoir,
             (match reservoirs s !! getStratum metric with
              | Some reservoir =>
                  Ret ({| config := config s; reservoirs := reservoirs s;
                          statistics := <[getStratum metric := stats']> (statistics s1);
                          anomalyDetector := anomalyDetector s1; rng := rng s1;
                          totalProcessed := totalProcessed s1;
                          totalSampled := totalSampled s1 |}, reservoir)
              | None =>
                  reservoir ← ReservoirSampler.NewReservoirSampler
                                (ReservoirSize (config s)) fresh;
                  Ret ({| config := config s;
                          reservoirs := <[getStratum metric := reservoir]> (reservoirs s);
                          statistics := <[getStratum metric := stats']> (statistics s1);
                          anomalyDetector := anomalyDetector s1; rng := rng s1;
                          totalProcessed := totalProcessed s1;
                          totalSampled := totalSampled s1 |}, reservoir)
              end) = Ret (s2, reservoir) /\
             config s2 = config s /\
             statistics s2 = <[getStratum metric := stats']> (statistics s1) /\
             totalProcessed s2 = totalProcessed s1 /\
             totalSampled s2 = totalSampled s1 /\
             ReservoirSampler.capacity reservoir = ReservoirSize (config s) /\
             ReservoirSampler.Size reservoir <= ReservoirSampler.capacity reservoir /\
             0 <= ReservoirSampler.count reservoir <= n /\
             map_Forall (fun _ rs =>
                 ReservoirSampler.capacity rs = ReservoirSize (config s) /\
                 ReservoirSampler.Size rs <= ReservoirSampler.capacity rs /\
                 0 <= ReservoirSampler.count rs <= n) (reservoirs s2)).
  { destruct (reservoirs s !! getStratum metric) as [r|] eqn:Er.
    - eexists _, r. split; [reflexivity|]. cbn.
      destruct (Hres _ _ Er) as (H1 & H2 & H3).
      repeat (split; [first [reflexivity|assumption|lia]|]). exact Hres.
    - rewrite NewReservoirSampler_Ret by lia. rewrite bind_Ret.
      eexists _, _. split; [reflexivity|]. cbn. unfold ReservoirSampler.Size. cbn.
      repeat (split; [first [reflexivity|assumption|lia]|]).
      apply map_Forall_insert_2; [|exact Hres]. cbn. repeat split; lia. }
  destruct Hnew as (s2 & reservoir & -> & Hc2 & Hst2 & Hp2 & Hs2 & Hcap & Hsz & Hcnt & Hall).
  rewrite bind_Ret.
  destruct (reservoir_Add_spec reservoir metric ltac:(lia) Hsz)
    as (reservoir' & kept & EAdd & Hcap' & Hcnt' & Hsz' & Hkept & _).
  rewrite EAdd, bind_Ret.
  eexists _, kept. split; [reflexivity|]. split; [|split; [exact Hc2|split; [exact Hkept|]]].
  - unfold sampler_ok. cbn [config reservoirs statistics totalProcessed totalSampled].
    rewrite Hp2, Hs2, Hc2, Hst2, Fst.
    split; [exact Hp1|]. split; [exact Hs1|]. split; [exact Hsize|]. split.
    + apply map_Forall_insert_2.
      * split; [congruence|]. split; [|lia]. rewrite Hsz', Hcap'.
        destruct (Z.ltb_spec (ReservoirSampler.Size reservoir)
                    (ReservoirSampler.capacity reservoir)); lia.
      * eapply map_Forall_impl; [exact Hall|]. cbn. intros _ rs (H1 & H2 & H3).
        split; [exact H1|]. split; [exact H2|lia].
    + apply map_Forall_insert_2; [exact Hlen'|exact Hstat].
  - intros Hfalse. discriminate.
Qed.

Lemma sample_all_ok (stream : list (MetricPoint * rand.Rand)) :
  forall s n,
  sampler_ok s n -> 0 <= n -> n + Z.of_nat (length stream) < 2 ^ 63 ->
  exists s',
    sample_all s stream = Ret s' /\
    sampler_ok s' (n + Z.of_nat (length stream)) /\
    config s' = config s.
Proof.
  induction stream as [|[metric fresh] stream IH]; intros s n Hok Hn Hlen.
  - exists s. cbn [sample_all length Z.of_nat]. rewrite Z.add_0_r.
    split; [reflexivity|]. split; [exact Hok|reflexivity].
  - cbn [sample_all length] in *.
    destruct (Sample_ok s n metric fresh Hok ltac:(lia)) as (s1 & kept & E & Hok1 & Hc1 & _).
    rewrite E, bind_Ret. cbn [fst].
    destruct (IH s1 (n + 1) Hok1 ltac:(lia) ltac:(lia)) as (s' & E' & Hok' & Hc').
    exists s'. split; [exact E'|]. split; [|congruence].
    replace (n + Z.of_nat (S (length stream))) with (n + 1 + Z.of_nat (length stream)) by lia.
    exact Hok'.
Qed.

Lemma NewAdaptiveSampler_ok (config0 : SamplingConfig) (rng0 : rand.Rand) :
  0 <= ReservoirSize config0 -> 8 * ReservoirSize config0 <= maxAlloc ->
  sampler_ok (NewAdaptiveSampler config0 rng0) 0.
Proof.
  intros Hsize Hmem. unfold sampler_ok, NewAdaptiveSampler. cbn [config totalProcessed
    totalSampled reservoirs statistics].
  split; [reflexivity|]. split; [lia|]. split; [lia|].
  split; apply map_Forall_empty.
Qed.

(** X22.  The adaptive sampler never panics: with a reservoir size that is
    not negative and within the allocation limit (8 bytes per slot,
    [maxAlloc] in all), every record of a stream shorter than 2^63 is
    processed.  Afterwards the processed counter is the length of the stream, the
    sampled counter lies between 0 and the processed counter, every stratum
    holds at most the configured number of samples, and the configuration is
    unchanged. *)
Theorem sampler_never_panics
    (config0 : SamplingConfig) (rng0 : rand.Rand) (stream : list (MetricPoint * rand.Rand)) :
  0 <= ReservoirSize config0 -> 8 * ReservoirSize config0 <= maxAlloc ->
  Z.of_nat (length stream) < 2 ^ 63 ->
  exists s,
    sample_all (NewAdaptiveSampler config0 rng0) stream = Ret s /\
    totalProcessed s = Z.of_nat (length stream) /\
    0 <= totalSampled s <= totalProcessed s /\
    config s = config0 /\
    forall stratum samples,
      GetSamples s stratum = Some samples ->
      Z.of_nat (length samples) <= ReservoirSize config0.
Proof.
  intros Hsize Hmem Hlen.
  destruct (sample_all_ok stream (NewAdaptiveSampler config0 rng0) 0
              (NewAdaptiveSampler_ok config0 rng0 Hsize Hmem) ltac:(lia) ltac:(lia))
    as (s & E & (Hp & Hs & _ & Hres & _) & Hc).
  rewrite Z.add_0_l in *.
  exists s. split; [exact E|]. split; [exact Hp|]. split; [lia|]. split; [exact Hc|].
  intros stratum samples. unfold GetSamples.
  destruct (reservoirs s !! stratum) as [rs|] eqn:Ers; [|discriminate].
  intros [= <-]. destruct (Hres _ _ Ers) as (H1 & H2 & _).
  unfold ReservoirSampler.GetSamples, ReservoirSampler.Size in *. rewrite Hc in H1.
  cbn in H1. lia.
Qed.

(** Witness for [sampler_never_panics]: the default rates, two records. *)
Lemma sampler_never_panics_witness :
  exists s,
    sample_all fresh_sampler
      [(cpu_metric "pod-1", constant_rand 1); (cpu_metric "pod-2", constant_rand 1)] = Ret s /\
    totalProcessed s = Z.of_nat (length [(cpu_metric "pod-1", constant_rand 1);
                                         (cpu_metric "pod-2", constant_rand 1)]) /\
    0 <= totalSampled s <= totalProcessed s /\
    config s = config fresh_sampler /\
    forall stratum samples,
      GetSamples s stratum = Some samples -> Z.of_nat (length samples) <= 10000.
Proof.
  apply (sampler_never_panics (config fresh_sampler) (constant_rand 0));
    unfold maxAlloc; simpl; lia.
Defined.

End AdaptiveSamplerMoreFacts.

(** * Further properties of the engine *)

Section EngineIngestFacts.
Import QueryEngine.

Lemma append_capped_length (l : list MetricPoint) (sampled : MetricPoint) :
  (length (append_capped l sampled) <= 1000)%nat.
Proof.
  unfold append_capped.
  destruct (Z.ltb_spec 1000 (Z.of_nat (length (l ++ [sampled])))) as [Hlt|Hge].
  - rewrite length_drop. lia.
  - lia.
Qed.

(** One [ProcessMetric] on an engine that has been handed fewer than
    2^63 - 1 records. *)
Lemma ProcessMetric_ok (qe : QueryEngine.t) (n : Z) (metric : MetricPoint)
    (fresh : rand.Rand) :
  engine_ok qe n -> 0 <= n < 2 ^ 63 - 1 ->
  exists qe', ProcessMetric qe metric fresh = Ret qe' /\ engine_ok qe' (n + 1).
Proof.
  intros (Hwf & Hs & Ht & Hsamples) Hn.
  destruct (Sample_ok (sampler qe) n metric fresh Hs Hn)
    as (s' & kept & E & Hs' & _ & Hkept & _).
  unfold ProcessMetric. rewrite E, bind_Ret.
  set (qe1 := QueryEngine.mk (hll qe) (cms qe) (bloom qe) s' (samples qe) (stats qe)).
  assert (Hwf1 : engine_wf qe1) by exact Hwf.
  assert (Ht' : uint64 (TotalSamples (stats qe) + 1) = n + 1)
    by (rewrite Ht; apply uint64_small; lia).
  destruct Hkept as [->| ->].
  - rewrite bool_decide_eq_false_2 by (intros [x Hx]; discriminate).
    rewrite bind_Ret. eexists. split; [reflexivity|].
    unfold engine_ok. cbn [hll cms bloom sampler samples stats TotalSamples].
    split; [exact Hwf|]. split; [exact Hs'|]. split; [exact Ht'|exact Hsamples].
  - rewrite bool_decide_eq_true_2 by eauto.
    destruct (updateDataStructures_total qe1 metric Hwf1)
      as (hll' & cms' & bloom' & _ & _ & _ & Eu & Hwf').
    rewrite Eu, !bind_Ret. eexists. split; [reflexivity|].
    unfold engine_ok. cbn [hll cms bloom sampler samples stats TotalSamples qe1].
    split; [apply Hwf'|]. split; [exact Hs'|]. split; [exact Ht'|].
    apply map_Forall_insert_2; [apply append_capped_length|exact Hsamples].
Qed.

Lemma process_all_ok (stream : list (MetricPoint * rand.Rand)) :
  forall qe n,
  engine_ok qe n -> 0 <= n -> n + Z.of_nat (length stream) < 2 ^ 63 ->
  exists qe', process_all qe stream = Ret qe' /\
              engine_ok qe' (n + Z.of_nat (length stream)).
Proof.
  induction stream as [|[metric fresh] stream IH]; intros qe n Hok Hn Hlen.
  - exists qe. cbn [process_all length Z.of_nat]. rewrite Z.add_0_r.
    split; [reflexivity|exact Hok].
  - cbn [process_all length] in *.
    destruct (ProcessMetric_ok qe n metric fresh Hok ltac:(lia)) as (qe1 & E & Hok1).
    rewrite E, bind_Ret.
    destruct (IH qe1 (n + 1) Hok1 ltac:(lia) ltac:(lia)) as (qe' & E' & Hok').
    exists qe'. split; [exact E'|].
    replace (n + Z.of_nat (S (length stream))) with (n + 1 + Z.of_nat (length stream)) by lia.
    exact Hok'.
Qed.

(** X23.  The engine never panics on ingest.  An engine built with a
    positive sketch width, at least one bit in the membership filter and a
    reservoir size that is not negative and within the allocation limit
    (8 bytes per slot, [maxAlloc] in all) processes every record of a stream
    shorter than 2^63; afterwards the total-samples counter and the
    sampler's processed counter are the length of the stream, whether or not
    the records were admitted, and no sample list holds more than 1000
    entries. *)
Theorem engine_ingest_never_panics
    (config : QueryEngineConfig) (now : Z) (rng0 : rand.Rand)
    (stream : list (MetricPoint * rand.Rand)) :
  0 < CMSWidth config < 2 ^ 32 -> 0 <= CMSDepth config -> 0 < BloomSize config ->
  0 <= AdaptiveSampler.ReservoirSize (SamplingConfig config) ->
  8 * AdaptiveSampler.ReservoirSize (SamplingConfig config) <= maxAlloc ->
  Z.of_nat (length stream) < 2 ^ 63 ->
  exists qe0 qe,
    NewQueryEngine config now rng0 = Ret qe0 /\
    process_all qe0 stream = Ret qe /\
    TotalSamples (stats qe) = Z.of_nat (length stream) /\
    AdaptiveSampler.totalProcessed (sampler qe) = Z.of_nat (length stream) /\
    map_Forall (fun _ l => (length l <= 1000)%nat) (samples qe).
Proof.
  intros Hw Hd Hb Hsize Hmem Hlen.
  destruct (NewQueryEngine_wf config now rng0 Hw Hd Hb) as (qe0 & E0 & Hwf0).
  assert (Hok0 : engine_ok qe0 0).
  { unfold NewQueryEngine in E0.
    destruct (NewHyperLogLog_returns (HLLPrecision config)) as (hll0 & Eh).
    rewrite Eh, bind_Ret in E0. injection E0 as <-.
    split; [exact Hwf0|]. cbn [sampler stats samples TotalSamples].
    split; [apply NewAdaptiveSampler_ok; assumption|]. split; [reflexivity|].
    apply map_Forall_empty. }
  destruct (process_all_ok stream qe0 0 Hok0 ltac:(lia) ltac:(lia))
    as (qe & E & (_ & (Hp & _) & Ht & Hsamples)).
  rewrite Z.add_0_l in *.
  exists qe0, qe. split; [exact E0|]. split; [exact E|]. split; [exact Ht|].
  split; [exact Hp|exact Hsamples].
Qed.

(** Witness for [engine_ingest_never_panics]: the small engine, two
    records. *)
Lemma engine_ingest_never_panics_witness :
  exists qe0 qe,
    NewQueryEngine small_config 0 (constant_rand 0) = Ret qe0 /\
    process_all qe0 [(cpu_metric "pod-1", constant_rand 1);
                     (cpu_metric "pod-2", constant_rand 1)] = Ret qe /\
    TotalSamples (stats qe) = Z.of_nat (length [(cpu_metric "pod-1", constant_rand 1);
                                                (cpu_metric "pod-2", constant_rand 1)]) /\
    AdaptiveSampler.totalProcessed (sampler qe)
      = Z.of_nat (length [(cpu_metric "pod-1", constant_rand 1);
                          (cpu_metric "pod-2", constant_rand 1)]) /\
    map_Forall (fun _ l => (length l <= 1000)%nat) (samples qe).
Proof.
  apply (engine_ingest_never_panics small_config 0); unfold maxAlloc; simpl; lia.
Defined.



End EngineIngestFacts.

Section EngineQueryFacts.
Import QueryEngine.

Variable ParseFloat : string -> option float.
Variables executeCountDistinct executeSum executeAverage executeTopK
          executeMembership executeFrequencyCount
  : QueryEngine.t -> QueryRequest -> exec (option QueryResult * option error).

(** X25.  A request whose query type is none of the seven known ones is
    answered with the error "unsupported query type" naming the type: no
    handler runs, no result is returned, nothing panics, and the engine is
    left as it was except that the query has been counted. *)
Theorem unknown_query_type_is_an_error
    (qe : QueryEngine.t) (request : QueryRequest) (processingTime now : Z) :
  Forall (fun t => QueryType request <> t) known_query_types ->
  ExecuteQuery ParseFloat executeCountDistinct executeSum executeAverage executeTopK
    executeMembership executeFrequencyCount qe request processingTime now
  = Ret (count_query qe, None, Some (ErrUnsupportedQueryType (QueryType request))).
Proof.
  intros Hunknown. unfold known_query_types in Hunknown.
  repeat match goal with
         | H : Forall _ (_ :: _) |- _ => apply Forall_cons in H as [?H H]
         end.
  unfold ExecuteQuery, processQuery.
  repeat match goal with
         | H : QueryType request <> ?t |- _ =>
             rewrite (proj2 (String.eqb_neq (QueryType request) t) H); clear H
         end.
  reflexivity.
Qed.

End EngineQueryFacts.

Section EngineFilterFacts.
Import QueryEngine.




End EngineFilterFacts.

(** Witness for [unknown_query_type_is_an_error]: the query type foo. *)
Lemma unknown_query_type_is_an_error_witness :
  QueryEngine.ExecuteQuery parse_integer_literal no_handler no_handler no_handler
    no_handler no_handler no_handler small_engine
    (with_type (percentile_request "SELECT 1") "foo") 5 7
  = Ret (count_query small_engine, None, Some (ErrUnsupportedQueryType "foo")).
Proof.
  apply (unknown_query_type_is_an_error parse_integer_literal no_handler no_handler
           no_handler no_handler no_handler no_handler small_engine
           (with_type (percentile_request "SELECT 1") "foo") 5 7).
  repeat constructor; discriminate.
Defined.

(** ** The sampling rate is clamped *)

Section SamplingRateFacts.
Import AdaptiveSampler.

Lemma SFcompare_refl_not_nan (x : spec_float) :
  SFeqb x x = false -> x = S754_nan.
Proof.
  destruct x as [s|s| |s m e]; cbn; try discriminate; try reflexivity.
  - destruct s; discriminate.
  - rewrite Z.compare_refl, Pos.compare_cont_refl. destruct s; discriminate.
Qed.

Lemma is_nan_Prim2SF (x : float) : is_nan x = true -> Prim2SF x = S754_nan.
Proof.
  unfold is_nan. rewrite FloatAxioms.eqb_spec. intros H. apply SFcompare_refl_not_nan.
  now destruct (SFeqb (Prim2SF x) (Prim2SF x)).
Qed.

Lemma ltb_nan_r (u r : float) : is_nan r = true -> PrimFloat.ltb u r = false.
Proof.
  intros H. rewrite ltb_spec, (is_nan_Prim2SF r H). unfold SFltb.
  destruct (Prim2SF u); reflexivity.
Qed.

(** [math.Min(math.Max(b, 0.001), 1.0)]: NaN exactly when [b] is, and
    otherwise between 0.001 and 1. *)
Lemma clamp_range (b : float) :
  is_nan (Float64.Min (Float64.Max b 0.001) 1) = is_nan b /\
  (is_nan b = false ->
   PrimFloat.leb 0.001 (Float64.Min (Float64.Max b 0.001) 1) = true /\
   PrimFloat.leb (Float64.Min (Float64.Max b 0.001) 1) 1 = true).
Proof.
  assert (Hz : PrimFloat.eqb b zero && PrimFloat.eqb b 0.001 = false).
  { rewrite !FloatAxioms.eqb_spec. destruct (Prim2SF b) as [s|s| |s m e];
      try destruct s; reflexivity. }
  assert (Hz1 : PrimFloat.eqb b zero && PrimFloat.eqb b 1 = false).
  { rewrite !FloatAxioms.eqb_spec. destruct (Prim2SF b) as [s|s| |s m e];
      try destruct s; reflexivity. }
  unfold Float64.Max. rewrite Hz.
  change (PrimFloat.eqb 0.001 infinity) with false.
  change (is_nan 0.001) with false. rewrite !orb_false_r.
  destruct (PrimFloat.eqb b infinity) eqn:E1.
  { assert (is_nan b = false) as ->.
    { unfold is_nan. rewrite FloatAxioms.eqb_spec in *. destruct (Prim2SF b) as [s|s| |s m e];
        try discriminate; destruct s; try discriminate; reflexivity. }
    split; [reflexivity|]. intros _. split; reflexivity. }
  destruct (is_nan b) eqn:E2.
  { split; [reflexivity|]. discriminate. }
  split.
  - destruct (PrimFloat.ltb 0.001 b) eqn:E4; [|reflexivity].
    unfold Float64.Min. rewrite Hz1, E2.
    change (PrimFloat.eqb 1 neg_infinity) with false. change (is_nan 1) with false.
    rewrite !orb_false_r.
    assert (PrimFloat.eqb b neg_infinity = false) as ->.
    { rewrite ltb_spec in E4. rewrite FloatAxioms.eqb_spec.
      destruct (Prim2SF b) as [s|s| |s m e]; try discriminate; destruct s;
        try discriminate; reflexivity. }
    destruct (PrimFloat.ltb b 1); [exact E2|reflexivity].
  - intros _. destruct (PrimFloat.ltb 0.001 b) eqn:E4; [|split; reflexivity].
    unfold Float64.Min. rewrite Hz1, E2.
    change (PrimFloat.eqb 1 neg_infinity) with false. change (is_nan 1) with false.
    rewrite !orb_false_r.
    assert (PrimFloat.eqb b neg_infinity = false) as ->.
    { rewrite ltb_spec in E4. rewrite FloatAxioms.eqb_spec.
      destruct (Prim2SF b) as [s|s| |s m e]; try discriminate; destruct s;
        try discriminate; reflexivity. }
    destruct (PrimFloat.ltb b 1) eqn:E5.
    + split; apply float_ltb_leb; assumption.
    + split; reflexivity.
Qed.

(** X27.  The sampling rate the adaptive sampler computes is clamped: it is
    either NaN, in which case the record is not admitted whatever the draw,
    or a value between 0.001 and 1. *)
Theorem sampling_rate_is_clamped (s : AdaptiveSampler.t) (metric : MetricPoint) :
  (is_nan (calculateSamplingRate s metric) = true /\ (ShouldSample s metric).2 = false) \/
  (PrimFloat.leb 0.001 (calculateSamplingRate s metric) = true /\
   PrimFloat.leb (calculateSamplingRate s metric) 1 = true).
Proof.
  destruct (is_nan (calculateSamplingRate s metric)) eqn:Enan.
  - left. split; [reflexivity|].
    destruct (ShouldSample_fields s metric) as (_ & _ & _ & _ & _ & _ & ->).
    apply ltb_nan_r. exact Enan.
  - right. revert Enan. unfold calculateSamplingRate. cbv zeta.
    match goal with
    | |- is_nan (Float64.Min (Float64.Max ?b _) _) = false -> _ =>
        intros Enan; destruct (clamp_range b) as [Hn Hr]; apply Hr; congruence
    end.
Qed.

End SamplingRateFacts.

(** ** QueryEngine: a percentile that is not a number *)

Section PercentileNaNFacts.
Import QueryEngine.

Variable ParseFloat : string -> option float.

Variables executeCountDistinct executeSum executeAverage executeTopK
          executeMembership executeFrequencyCount
  : QueryEngine.t -> QueryRequest -> exec (option QueryResult * option error).

Lemma ltb_nan_l (r u : float) : is_nan r = true -> PrimFloat.ltb r u = false.
Proof. intros H. rewrite ltb_spec, (is_nan_Prim2SF r H). reflexivity. Qed.

Lemma div_nan_l (x y : float) :
  Prim2SF x = S754_nan -> Prim2SF (PrimFloat.div x y) = S754_nan.
Proof. intros H. rewrite div_spec, H. destruct (Prim2SF y); reflexivity. Qed.

Lemma mul_nan_l (x y : float) :
  Prim2SF x = S754_nan -> Prim2SF (PrimFloat.mul x y) = S754_nan.
Proof. intros H. rewrite mul_spec, H. destruct (Prim2SF y); reflexivity. Qed.

(** With NaN for a percentile neither comparison of the range test holds;
    the index is NaN, [int] of its floor and of its ceiling is the smallest
    int, and [values[lowerIndex]] is out of range. *)
Lemma executePercentile_nan (qe : QueryEngine.t) (request : QueryRequest) :
  getFilteredSamples qe request <> [] ->
  is_nan (extractPercentileValue ParseFloat (Query request)) = true ->
  executePercentile ParseFloat qe request = Panic IndexOutOfRange.
Proof.
  intros Hne Hnan. unfold executePercentile.
  destruct (getFilteredSamples qe request) as [|sample rest]; [contradiction|].
  cbn [length]. destruct (Z.eqb_spec (Z.of_nat (S (length rest))) 0) as [E|_]; [lia|].
  rewrite (ltb_nan_l _ _ Hnan), (ltb_nan_r _ _ Hnan). cbn [orb].
  set (values := sort.Float64s (Value <$> sample :: rest)).
  set (index_ := PrimFloat.mul _ _).
  assert (Hidx : Prim2SF index_ = S754_nan).
  { unfold index_. apply mul_nan_l, div_nan_l, is_nan_Prim2SF, Hnan. }
  unfold math.FloorZ, math.CeilZ, math.finite_parts. rewrite Hidx.
  cbn [math.to_int]. rewrite Z.eqb_refl. reflexivity.
Qed.

(** C7.  A percentile text that parses to NaN, which lies outside [0, 100],
    is not rejected.  Over a non-empty set of filter-matching samples
    neither [percentileValue < 0] nor [percentileValue > 100] holds at NaN,
    so [executePercentile] goes on to index the sorted values with [int] of
    a NaN and panics with an index out of range: [ExecuteQuery] returns
    neither the error "invalid percentile value" nor anything else. *)
Theorem percentile_nan_not_rejected
    (qe : QueryEngine.t) (request : QueryRequest) (processingTime now : Z) :
  QueryType request = metrics.Percentile ->
  getFilteredSamples qe request <> [] ->
  is_nan (extractPercentileValue ParseFloat (Query request)) = true ->
  ExecuteQuery ParseFloat executeCountDistinct executeSum executeAverage executeTopK
    executeMembership executeFrequencyCount qe request processingTime now
  = Panic IndexOutOfRange.
Proof.
  intros Htype Hne Hnan. unfold ExecuteQuery, processQuery. rewrite Htype.
  rewrite executePercentile_nan by assumption. reflexivity.
Qed.

End PercentileNaNFacts.

(** Witness for [percentile_nan_not_rejected]: [PERCENTILE(NaN)] over one
    sample. *)
Lemma percentile_nan_not_rejected_witness :
  QueryEngine.ExecuteQuery parse_literal_or_nan no_handler no_handler no_handler
    no_handler no_handler no_handler engine_with_sample
    (percentile_request "PERCENTILE(NaN) cpu_usage") 5 7
  = Panic IndexOutOfRange.
Proof.
  apply (percentile_nan_not_rejected parse_literal_or_nan no_handler no_handler
           no_handler no_handler no_handler no_handler engine_with_sample
           (percentile_request "PERCENTILE(NaN) cpu_usage") 5 7 eq_refl).
  - vm_compute. discriminate.
  - vm_compute. reflexivity.
Defined.

(** ** StratifiedSampler *)

Section StratifiedSamplerFacts.
Import StratifiedSampler.

Lemma calculateStratumCapacity_closed (ss : StratifiedSampler.t) :
  0 <= totalCapacity ss < 2 ^ 63 ->
  Z.of_nat (size (strata ss)) < 2 ^ 63 - 1 ->
  calculateStratumCapacity ss =
    Ret (totalCapacity ss / (Z.of_nat (size (strata ss)) + 1)).
Proof.
  intros Ht Hn. unfold calculateStratumCapacity.
  assert (E : quo_int (totalCapacity ss) (max 1 (int64 (Z.of_nat (size (strata ss)) + 1)))
              = Ret (totalCapacity ss / (Z.of_nat (size (strata ss)) + 1))).
  { assert (E64 : int64 (Z.of_nat (size (strata ss)) + 1) = Z.of_nat (size (strata ss)) + 1).
    { unfold int64. rewrite Z.mod_small by lia. lia. }
    rewrite E64. unfold max, quo_int.
    destruct (Z.gtb_spec 1 (Z.of_nat (size (strata ss)) + 1)); [lia|].
    destruct (Z.eqb_spec (Z.of_nat (size (strata ss)) + 1) 0); [lia|].
    rewrite Z.quot_div_nonneg by lia. f_equal.
    unfold int64. 
    assert (0 <= totalCapacity ss / (Z.of_nat (size (strata ss)) + 1) <= totalCapacity ss).
    { split; [apply Z.div_pos; lia|]. apply Z.div_le_upper_bound; nia. }
    rewrite Z.mod_small by lia. lia. }
  rewrite E. destruct (allocation ss =? EqualAllocation); [reflexivity|].
  destruct (allocation ss =? OptimalAllocation); reflexivity.
Qed.

(** One [AddToStratum] on a sampler that has seen fewer than 2^63 - 1
    records. *)
Lemma AddToStratum_ok (total : Z) (ss : StratifiedSampler.t) (n : Z)
    (stratum : string) (metric : MetricPoint) (fresh : rand.Rand) :
  0 <= total < 2 ^ 63 -> 8 * total <= maxAlloc ->
  strata_ok total ss n -> 0 <= n < 2 ^ 63 - 1 ->
  Z.of_nat (size (strata ss)) <= n ->
  exists ss',
    AddToStratum ss stratum metric fresh = Ret ss' /\
    strata_ok total ss' (n + 1) /\
    allocation ss' = allocation ss /\
    Z.of_nat (size (strata ss')) <= n + 1 /\
    (strata ss !! stratum = None ->
     exists rs, strata ss' !! stratum = Some rs /\
                ReservoirSampler.capacity rs = total / (Z.of_nat (size (strata ss)) + 1)).
Proof.
  intros Htotal Hmem (Ht & Hall) Hn Hsize. unfold AddToStratum.
  assert (Hweak : forall m k : Z, k <= m ->
            forall (i : string) (rs : ReservoirSampler.t),
            ((exists j, 1 <= j <= k /\ ReservoirSampler.capacity rs = total / j) /\
             ReservoirSampler.Size rs <= ReservoirSampler.capacity rs /\
             0 <= ReservoirSampler.count rs <= n) ->
            (exists j, 1 <= j <= m /\ ReservoirSampler.capacity rs = total / j) /\
            ReservoirSampler.Size rs <= ReservoirSampler.capacity rs /\
            0 <= ReservoirSampler.count rs <= n + 1).
  { intros m k Hkm i rs ((j & Hj & Hc) & Hs & Hcnt).
    split; [exists j; split; [lia|exact Hc]|]. split; [exact Hs|lia]. }
  destruct (strata ss !! stratum) as [rs|] eqn:Ers.
  - rewrite bind_Ret, Ers.
    destruct (Hall _ _ Ers) as ((j & Hj & Hc) & Hs & Hcnt).
    destruct (reservoir_Add_spec rs metric ltac:(lia) Hs)
      as (rs' & kept & E & Hcap' & Hcnt' & Hsz' & _ & _).
    rewrite E, bind_Ret. eexists. split; [reflexivity|].
    cbn [strata totalCapacity allocation].
    assert (Esize : size (<[stratum := rs']> (strata ss)) = size (strata ss)).
    { apply map_size_insert_Some. rewrite Ers. eauto. }
    split; [|split; [reflexivity|split; [rewrite Esize; lia|intros; discriminate]]].
    split; [exact Ht|]. cbn [strata]. rewrite Esize.
    apply map_Forall_insert_2.
    + split; [exists j; split; [lia|congruence]|]. split; [|lia].
      rewrite Hsz', Hcap'.
      destruct (Z.ltb_spec (ReservoirSampler.Size rs) (ReservoirSampler.capacity rs)); lia.
    + eapply map_Forall_impl; [exact Hall|]. apply Hweak. lia.
  - rewrite calculateStratumCapacity_closed by (rewrite ?Ht; lia).
    rewrite bind_Ret, Ht.
    assert (Hcap : 0 <= total / (Z.of_nat (size (strata ss)) + 1))
      by (apply Z.div_pos; lia).
    assert (Hcap_le : total / (Z.of_nat (size (strata ss)) + 1) <= total)
      by (apply Z.div_le_upper_bound; nia).
    rewrite NewReservoirSampler_Ret by lia.
    rewrite !bind_Ret. cbn [strata totalCapacity allocation].
    rewrite lookup_insert_eq.
    set (rs0 := ReservoirSampler.mk (total / (Z.of_nat (size (strata ss)) + 1)) [] 0 fresh).
    destruct (reservoir_Add_spec rs0 metric ltac:(cbn; lia) ltac:(unfold ReservoirSampler.Size; cbn; lia))
      as (rs' & kept & E & Hcap' & Hcnt' & Hsz' & _ & _).
    rewrite E, bind_Ret. eexists. split; [reflexivity|].
    cbn [strata totalCapacity allocation]. rewrite insert_insert_eq.
    assert (Esize : size (<[stratum := rs']> (strata ss)) = S (size (strata ss))).
    { apply map_size_insert_None. exact Ers. }
    split; [|split; [reflexivity|split; [rewrite Esize; lia|]]].
    + split; [reflexivity|]. cbn [strata]. rewrite Esize.
      apply map_Forall_insert_2.
      * split; [exists (Z.of_nat (size (strata ss)) + 1); split;
                 [rewrite Nat2Z.inj_succ; clear; lia|exact Hcap']|].
        assert (Hs0 : ReservoirSampler.Size rs0 = 0) by reflexivity.
        assert (Hc0 : ReservoirSampler.capacity rs0
                      = total / (Z.of_nat (size (strata ss)) + 1)) by reflexivity.
        assert (Hn0 : ReservoirSampler.count rs0 = 0) by reflexivity.
        split; [|lia]. rewrite Hsz', Hcap', Hs0, Hc0.
        destruct (Z.ltb_spec 0 (total / (Z.of_nat (size (strata ss)) + 1))); lia.
      * eapply map_Forall_impl; [exact Hall|]. apply Hweak. lia.
    + intros _. exists rs'. split; [apply lookup_insert_eq|exact Hcap'].
Qed.

(** X28.  A stratified sampler with a total capacity that is not negative
    and within the allocation limit (8 bytes per slot, [maxAlloc] in all)
    never panics on a stream shorter than 2^63 - 1.  Every stratum has a
    capacity totalCapacity / j for a rank j between 1 and the number of
    strata, and never holds more samples than that.  A record for a stratum
    not yet present creates a reservoir of capacity totalCapacity / (k + 1),
    k being the number of strata present: the first stratum receives the
    whole capacity, and the allocation strategy plays no part. *)
Theorem stratified_capacities
    (total strategy : Z) (stream : list (string * MetricPoint * rand.Rand)) :
  0 <= total -> 8 * total <= maxAlloc ->
  Z.of_nat (length stream) < 2 ^ 63 - 1 ->
  exists ss,
    add_to_strata (NewStratifiedSampler total strategy) stream = Ret ss /\
    (forall stratum samples,
       GetStratumSamples ss stratum = Some samples ->
       exists j, 1 <= j <= Z.of_nat (length (GetAllStrata ss)) /\
                 Z.of_nat (length samples) <= total / j) /\
    (forall stratum metric fresh,
       GetStratumSamples ss stratum = None ->
       exists ss' rs,
         AddToStratum ss stratum metric fresh = Ret ss' /\
         strata ss' !! stratum = Some rs /\
         ReservoirSampler.capacity rs = total / (Z.of_nat (length (GetAllStrata ss)) + 1)).
Proof.
  intros Htotal0 Hmem Hlen.
  assert (Htotal : 0 <= total < 2 ^ 63) by (unfold maxAlloc in Hmem; lia).
  assert (Hgen : forall stream ss n,
             strata_ok total ss n -> 0 <= n -> n + Z.of_nat (length stream) < 2 ^ 63 - 1 ->
             Z.of_nat (size (strata ss)) <= n ->
             exists ss', add_to_strata ss stream = Ret ss' /\
                         strata_ok total ss' (n + Z.of_nat (length stream)) /\
                         Z.of_nat (size (strata ss')) <= n + Z.of_nat (length stream)).
  { clear stream Hlen. induction stream as [|[[stratum metric] fresh] stream IH];
      intros ss n Hok Hn Hlen Hsize.
    - exists ss. cbn [add_to_strata length Z.of_nat]. rewrite Z.add_0_r.
      split; [reflexivity|]. split; [exact Hok|exact Hsize].
    - cbn [add_to_strata length] in *.
      destruct (AddToStratum_ok total ss n stratum metric fresh Htotal Hmem Hok ltac:(lia) Hsize)
        as (ss1 & E & Hok1 & _ & Hsize1 & _).
      rewrite E, bind_Ret.
      destruct (IH ss1 (n + 1) Hok1 ltac:(lia) ltac:(lia) Hsize1)
        as (ss' & E' & Hok' & Hsize').
      exists ss'. split; [exact E'|].
      replace (n + Z.of_nat (S (length stream))) with (n + 1 + Z.of_nat (length stream)) by lia.
      split; [exact Hok'|exact Hsize']. }
  destruct (Hgen stream (NewStratifiedSampler total strategy) 0)
    as (ss & E & Hok & Hsize).
  { split; [reflexivity|]. apply map_Forall_empty. }
  { lia. } { lia. } { cbn. rewrite map_size_empty. lia. }
  rewrite Z.add_0_l in *.
  assert (Hstrata : length (GetAllStrata ss) = size (strata ss)).
  { unfold GetAllStrata. now rewrite length_fmap, length_map_to_list. }
  exists ss. split; [exact E|]. split.
  - intros stratum samples. unfold GetStratumSamples.
    destruct (strata ss !! stratum) as [rs|] eqn:Ers; [|discriminate].
    intros [= <-]. destruct Hok as (_ & Hall).
    destruct (Hall _ _ Ers) as ((j & Hj & Hc) & Hs & _).
    exists j. rewrite Hstrata.
    split; [exact Hj|]. unfold ReservoirSampler.Size, ReservoirSampler.GetSamples in *. lia.
  - intros stratum metric fresh. unfold GetStratumSamples.
    destruct (strata ss !! stratum) as [rs|] eqn:Ers; [discriminate|]. intros _.
    destruct (AddToStratum_ok total ss _ stratum metric fresh Htotal Hmem Hok ltac:(lia) Hsize)
      as (ss1 & E1 & _ & _ & _ & Hnew).
    destruct (Hnew Ers) as (rs & Hrs & Hcap).
    exists ss1, rs. split; [exact E1|]. split; [exact Hrs|]. rewrite Hstrata. exact Hcap.
Qed.

(** Witness for [stratified_capacities]: total capacity 10, two strata. *)
Lemma stratified_capacities_witness :
  exists ss,
    add_to_strata (NewStratifiedSampler 10 EqualAllocation)
      [("a"%string, cpu_metric "pod-1", constant_rand 1);
       ("b"%string, cpu_metric "pod-2", constant_rand 1)] = Ret ss /\
    (forall stratum samples,
       GetStratumSamples ss stratum = Some samples ->
       exists j, 1 <= j <= Z.of_nat (length (GetAllStrata ss)) /\
                 Z.of_nat (length samples) <= 10 / j) /\
    (forall stratum metric fresh,
       GetStratumSamples ss stratum = None ->
       exists ss' rs,
         AddToStratum ss stratum metric fresh = Ret ss' /\
         strata ss' !! stratum = Some rs /\
         ReservoirSampler.capacity rs = 10 / (Z.of_nat (length (GetAllStrata ss)) + 1)).
Proof. apply (stratified_capacities 10 EqualAllocation); unfold maxAlloc; simpl; lia. Defined.

End StratifiedSamplerFacts.


(** ** TimeBasedSampler: the ordering of the window keys *)

Section SortFacts.
Import TimeBasedSampler.

(** A counting loop that keeps an invariant indexed by the round. *)
Lemma for_loop_inv {St : Type} (Inv : Z -> St -> Prop) (body : Z -> St -> exec St) (n : nat) :
  forall k s,
  (forall i s, k <= i < k + Z.of_nat n -> Inv i s ->
               exists s', body i s = Ret s' /\ Inv (i + 1) s') ->
  Inv k s ->
  exists s', for_loop body (seqZ k (Z.of_nat n)) s = Ret s' /\ Inv (k + Z.of_nat n) s'.
Proof.
  induction n as [|n IH]; intros k s Hbody Hinv.
  - exists s. split; [reflexivity|]. now rewrite Z.add_0_r.
  - rewrite seqZ_cons by lia. cbn [for_loop].
    destruct (Hbody k s ltac:(lia) Hinv) as (s1 & E1 & Hinv1). rewrite E1, bind_Ret.
    replace (Z.pred (Z.of_nat (S n))) with (Z.of_nat n) by lia.
    replace (Z.succ k) with (k + 1) by lia.
    destruct (IH (k + 1) s1) as (s' & E' & Hinv'); [|exact Hinv1|].
    + intros i s2 Hi. apply Hbody. lia.
    + exists s'. split; [exact E'|].
      replace (k + Z.of_nat (S n)) with (k + 1 + Z.of_nat n) by lia. exact Hinv'.
Qed.

Lemma insert_swap_Permutation (rest : list Z) (k : nat) (m y : Z) :
  rest !! k = Some y -> y :: <[k := m]> rest ≡ₚ m :: rest.
Proof.
  revert k. induction rest as [|z rest IH]; intros k Hk; [discriminate|].
  destruct k as [|k]; cbn in *.
  - injection Hk as ->. apply perm_swap.
  - rewrite (perm_swap z y). rewrite (IH k Hk). apply perm_swap.
Qed.

Lemma StronglySorted_snoc (l : list Z) (m : Z) :
  StronglySorted Z.ge l -> (forall x, x ∈ l -> m <= x) -> StronglySorted Z.ge (l ++ [m]).
Proof.
  induction 1 as [|x l Hs IH Hx]; intros Hm; cbn.
  - repeat constructor.
  - constructor.
    + apply IH. intros y Hy. apply Hm. now right.
    + apply Forall_app. split; [exact Hx|]. constructor; [|constructor].
      specialize (Hm x ltac:(left)). lia.
Qed.

(** One round of the outer loop: the largest key of the part from [i] on is
    brought to position [i]. *)
Lemma sort_inner (l0 : list Z) (i : Z) :
  0 <= i < Z.of_nat (length l0) ->
  exists m rest,
    for_loop (swap_if_less i) (seqZ (i + 1) (Z.of_nat (length l0) - (i + 1))) l0
      = Ret (take (Z.to_nat i) l0 ++ m :: rest) /\
    m :: rest ≡ₚ drop (Z.to_nat i) l0 /\
    Forall (fun z => z <= m) rest.
Proof.
  intros Hi.
  set (n := Z.of_nat (length l0)) in *.
  set (Inv := fun (J : Z) (l : list Z) =>
                exists m rest,
                  l = take (Z.to_nat i) l0 ++ m :: rest /\
                  m :: rest ≡ₚ drop (Z.to_nat i) l0 /\
                  Forall (fun z => z <= m) (take (Z.to_nat (J - i - 1)) rest)).
  assert (Hlen_take : length (take (Z.to_nat i) l0) = Z.to_nat i).
  { rewrite length_take. lia. }
  destruct (for_loop_inv Inv (swap_if_less i) (Z.to_nat (n - (i + 1))) (i + 1) l0)
    as (l' & E & (m & rest & -> & Hperm & Hall)).
  - intros j l Hj (m & rest & -> & Hperm & Hall).
    assert (Hlen_rest : length rest = Z.to_nat (n - i - 1)).
    { apply Permutation_length in Hperm. rewrite length_drop in Hperm. cbn in Hperm.
      unfold n. lia. }
    destruct (lookup_lt_is_Some_2 rest (Z.to_nat (j - i - 1))) as [y Hy]; [lia|].
    unfold swap_if_less.
    rewrite (index_Ret _ i m).
    2:{ lia. }
    2:{ rewrite lookup_app_r by lia. rewrite Hlen_take, Nat.sub_diag. reflexivity. }
    rewrite bind_Ret. rewrite (index_Ret _ j y).
    2:{ lia. }
    2:{ rewrite lookup_app_r by lia. rewrite Hlen_take.
        replace (Z.to_nat j - Z.to_nat i)%nat with (S (Z.to_nat (j - i - 1))) by lia.
        exact Hy. }
    rewrite bind_Ret.
    destruct (Z.ltb_spec m y) as [Hlt|Hge].
    + rewrite store_Ret.
      2:{ lia. }
      2:{ rewrite length_app. cbn [length]. lia. }
      rewrite bind_Ret. rewrite store_Ret.
      2:{ lia. }
      2:{ rewrite length_insert, length_app. cbn [length]. lia. }
      eexists. split; [reflexivity|]. exists y, (<[Z.to_nat (j - i - 1) := m]> rest).
      split; [|split].
      * rewrite insert_app_r_alt by lia. rewrite Hlen_take, Nat.sub_diag. cbn [insert list_insert].
        rewrite insert_app_r_alt by lia. rewrite Hlen_take.
        replace (Z.to_nat j - Z.to_nat i)%nat with (S (Z.to_nat (j - i - 1))) by lia.
        reflexivity.
      * rewrite <- Hperm. apply insert_swap_Permutation. exact Hy.
      * replace (Z.to_nat (j + 1 - i - 1)) with (S (Z.to_nat (j - i - 1))) by lia.
        rewrite (take_S_r _ _ m) by (apply list_lookup_insert_eq; lia).
        rewrite take_insert_ge by lia.
        apply Forall_app. split.
        -- eapply Forall_impl; [exact Hall|]. cbn. intros z Hz. lia.
        -- constructor; [lia|constructor].
    + eexists. split; [reflexivity|]. exists m, rest. split; [reflexivity|].
      split; [exact Hperm|].
      replace (Z.to_nat (j + 1 - i - 1)) with (S (Z.to_nat (j - i - 1))) by lia.
      rewrite (take_S_r _ _ y) by exact Hy.
      apply Forall_app. split; [exact Hall|]. constructor; [lia|constructor].
  - unfold Inv.
    destruct (lookup_lt_is_Some_2 l0 (Z.to_nat i)) as [m Hm]; [lia|].
    exists m, (drop (S (Z.to_nat i)) l0). split; [|split].
    + symmetry. apply take_drop_middle. exact Hm.
    + rewrite <- (drop_S _ _ _ Hm). reflexivity.
    + replace (Z.to_nat (i + 1 - i - 1)) with 0%nat by lia. constructor.
  - rewrite Z2Nat.id in E by lia. exists m, rest. split; [exact E|]. split; [exact Hperm|].
    assert (Hlen_rest : length rest = Z.to_nat (n - i - 1)).
    { apply Permutation_length in Hperm. rewrite length_drop in Hperm. cbn in Hperm.
      unfold n. lia. }
    rewrite Z2Nat.id in Hall by lia.
    replace (Z.to_nat (i + 1 + (n - (i + 1)) - i - 1)) with (length rest) in Hall by lia.
    rewrite firstn_all in Hall. exact Hall.
Qed.

(** The nested loops return the keys ordered from the largest to the
    smallest. *)
Lemma sort_descending_sorts (keys : list Z) :
  exists sorted,
    sort_descending keys = Ret sorted /\
    sorted ≡ₚ keys /\ StronglySorted Z.ge sorted.
Proof.
  unfold sort_descending. set (n := Z.of_nat (length keys)).
  set (Inv := fun (I : Z) (l : list Z) =>
                l ≡ₚ keys /\
                StronglySorted Z.ge (take (Z.to_nat I) l) /\
                forall x y, x ∈ take (Z.to_nat I) l -> y ∈ drop (Z.to_nat I) l -> y <= x).
  destruct (for_loop_inv Inv
              (fun i keys => for_loop (swap_if_less i) (seqZ (i + 1) (n - (i + 1))) keys)
              (Z.to_nat (n - 1)) 0 keys) as (l' & E & Hperm & Hsorted & Hcross).
  - intros i l Hi (Hperm & Hsorted & Hcross).
    assert (Hlen : Z.of_nat (length l) = n).
    { apply Permutation_length in Hperm. unfold n. lia. }
    destruct (sort_inner l i ltac:(lia)) as (m & rest & E & Hp & Hall).
    rewrite Hlen in E. eexists. split; [exact E|].
    assert (Hlen_take : length (take (Z.to_nat i) l) = Z.to_nat i).
    { rewrite length_take. lia. }
    assert (Htake : take (Z.to_nat (i + 1)) (take (Z.to_nat i) l ++ m :: rest)
                    = take (Z.to_nat i) l ++ [m]).
    { replace (Z.to_nat (i + 1)) with (length (take (Z.to_nat i) l) + 1)%nat by lia.
      rewrite take_app_add'; [reflexivity|reflexivity]. }
    assert (Hdrop : drop (Z.to_nat (i + 1)) (take (Z.to_nat i) l ++ m :: rest) = rest).
    { replace (Z.to_nat (i + 1)) with (length (take (Z.to_nat i) l) + 1)%nat by lia.
      rewrite drop_app_add'; [reflexivity|reflexivity]. }
    split; [|split].
    + rewrite Hp. rewrite take_drop. exact Hperm.
    + rewrite Htake. apply StronglySorted_snoc; [exact Hsorted|].
      intros x Hx. apply (Hcross x m Hx). rewrite <- Hp. now left.
    + rewrite Htake, Hdrop. intros x y Hx Hy.
      apply elem_of_app in Hx as [Hx|Hx].
      * apply (Hcross x y Hx). rewrite <- Hp. now right.
      * apply list_elem_of_singleton in Hx as ->.
        rewrite Forall_forall in Hall. apply Hall. exact Hy.
  - unfold Inv. cbn [Z.to_nat take drop]. split; [reflexivity|]. split; [constructor|].
    intros x y Hx. inversion Hx.
  - exists l'. split; [|split; [exact Hperm|]].
    + destruct (Z.le_gt_cases 1 n) as [Hn|Hn].
      * rewrite Z2Nat.id in E by lia. exact E.
      * replace (seqZ 0 (n - 1)) with (@nil Z).
        2:{ unfold seqZ. replace (Z.to_nat (n - 1)) with 0%nat by lia. reflexivity. }
        replace (Z.to_nat (n - 1)) with 0%nat in E by lia. exact E.
    + assert (Hlen : Z.of_nat (length l') = n).
      { apply Permutation_length in Hperm. unfold n. lia. }
      destruct (Z.le_gt_cases 1 n) as [Hn|Hn].
      * rewrite <- (take_drop (Z.to_nat (0 + Z.of_nat (Z.to_nat (n - 1)))) l').
        destruct (drop (Z.to_nat (0 + Z.of_nat (Z.to_nat (n - 1)))) l') as [|z [|z' tl]] eqn:Ed.
        -- rewrite app_nil_r. exact Hsorted.
        -- apply StronglySorted_snoc; [exact Hsorted|].
           intros x Hx. apply (Hcross x z Hx). now left.
        -- apply (f_equal length) in Ed. rewrite length_drop in Ed. cbn in Ed. lia.
      * destruct l' as [|z tl]; [constructor|]. cbn in Hlen. lia.
Qed.

End SortFacts.

(** ** TimeBasedSampler: eviction *)

Section TimeBasedSamplerFacts.
Import TimeBasedSampler.

Lemma elem_of_keys {A : Type} (ws : gmap Z A) (k : Z) :
  k ∈ (map_to_list ws).*1 <-> is_Some (ws !! k).
Proof.
  rewrite list_elem_of_fmap. split.
  - intros ([k' v] & -> & Hin). apply elem_of_map_to_list in Hin. cbn. eauto.
  - intros [v Hv]. exists (k, v). split; [reflexivity|]. now apply elem_of_map_to_list.
Qed.

(** A list ordered from the largest to the smallest, without repetition,
    ends with its two smallest elements. *)
Lemma sorted_tail_two (l : list Z) (k1 k2 : Z) :
  StronglySorted Z.ge l -> NoDup l ->
  k1 ∈ l -> k2 ∈ l -> k1 < k2 ->
  (forall x, x ∈ l -> x = k1 \/ x = k2 \/ k2 < x) ->
  exists rest, l = rest ++ [k2; k1].
Proof.
  induction 1 as [|x l Hs IH Hx]; intros Hnd H1 H2 Hlt Hall; [inversion H1|].
  apply NoDup_cons in Hnd as [Hnx Hnd]. rewrite Forall_forall in Hx.
  destruct (Hall x ltac:(left)) as [->|[->|Hgt]].
  - exfalso. apply elem_of_cons in H2 as [->|H2]; [lia|]. specialize (Hx _ H2). lia.
  - apply elem_of_cons in H1 as [->|H1]; [lia|].
    exists []. cbn. f_equal.
    destruct l as [|y l]; [inversion H1|].
    assert (y = k1) as ->.
    { destruct (Hall y ltac:(right; left)) as [->|[->|Hy]]; [reflexivity| |].
      - exfalso. apply Hnx. now left.
      - specialize (Hx y ltac:(left)). lia. }
    destruct l as [|z l]; [reflexivity|]. exfalso.
    apply NoDup_cons in Hnd as [Hny _].
    destruct (Hall z ltac:(right; right; left)) as [->|[->|Hz]].
    + apply Hny. now left.
    + apply Hnx. right. now left.
    + specialize (Hx z ltac:(right; left)). lia.
  - apply elem_of_cons in H1 as [->|H1]; [lia|].
    apply elem_of_cons in H2 as [->|H2]; [lia|].
    destruct (IH Hnd H1 H2 Hlt) as [rest ->].
    + intros y Hy. apply Hall. now right.
    + exists (x :: rest). reflexivity.
Qed.

(** [cleanupOldWindows] on a sampler that holds one window more than
    [maxWindows]: the two oldest windows go. *)
Lemma cleanup_evicts_two (tbs : TimeBasedSampler.t) (k1 k2 : Z) :
  1 <= maxWindows tbs < 2 ^ 62 ->
  Z.of_nat (size (windows tbs)) = maxWindows tbs + 1 ->
  k1 < k2 ->
  is_Some (windows tbs !! k1) -> is_Some (windows tbs !! k2) ->
  (forall k, is_Some (windows tbs !! k) -> k = k1 \/ k = k2 \/ k2 < k) ->
  cleanupOldWindows tbs =
    Ret (TimeBasedSampler.mk (windowSize tbs) (delete k2 (delete k1 (windows tbs)))
           (maxWindows tbs) (samplerConfig tbs)).
Proof.
  intros Hmax Hsize Hlt H1 H2 Hall. unfold cleanupOldWindows.
  destruct (sort_descending_sorts ((map_to_list (windows tbs)).*1))
    as (sorted & -> & Hperm & Hsorted).
  rewrite bind_Ret.
  assert (Hlen : Z.of_nat (length sorted) = maxWindows tbs + 1).
  { rewrite (Permutation_length Hperm), length_fmap, length_map_to_list. exact Hsize. }
  destruct (sorted_tail_two sorted k1 k2 Hsorted) as [rest Erest]; try assumption.
  - rewrite Hperm. apply NoDup_fst_map_to_list.
  - rewrite Hperm. now apply elem_of_keys.
  - rewrite Hperm. now apply elem_of_keys.
  - intros x Hx. apply Hall. apply elem_of_keys. now rewrite <- Hperm.
  - rewrite Hlen.
    assert (E2 : int64 (int64 (maxWindows tbs + 1 - maxWindows tbs) + 1) = 2).
    { replace (maxWindows tbs + 1 - maxWindows tbs) with 1 by lia. reflexivity. }
    rewrite E2. rewrite Z.min_l by lia.
    change (seqZ 0 2) with [0; 1]. cbn [for_loop].
    assert (Hrest : Z.of_nat (length rest) = maxWindows tbs - 1).
    { rewrite Erest, length_app in Hlen. cbn [length] in Hlen. lia. }
    rewrite (index_Ret sorted (maxWindows tbs + 1 - 1 - 0) k1).
    2:{ lia. }
    2:{ rewrite Erest. rewrite lookup_app_r by lia.
        replace (Z.to_nat (maxWindows tbs + 1 - 1 - 0) - length rest)%nat with 1%nat by lia.
        reflexivity. }
    rewrite !bind_Ret.
    rewrite (index_Ret sorted (maxWindows tbs + 1 - 1 - 1) k2).
    2:{ lia. }
    2:{ rewrite Erest. rewrite lookup_app_r by lia.
        replace (Z.to_nat (maxWindows tbs + 1 - 1 - 1) - length rest)%nat with 0%nat by lia.
        reflexivity. }
    rewrite !bind_Ret. reflexivity.
Qed.

(** X29.  What [Add] does on a full time-windowed sampler when a record
    opens a new window, the capacity configured for a window being not
    negative and within the allocation limit (8 bytes per slot, [maxAlloc]
    in all).  The sampler then holds one window too many and the
    cleanup removes the two oldest of them, not one: if the new window is
    one of these two, [Add] panics with a nil dereference; otherwise it
    returns, the two oldest windows are gone, the new window is in place and
    the sampler holds maxWindows - 1 windows. *)
Theorem timebased_add_when_full
    (tbs : TimeBasedSampler.t) (metric : MetricPoint) (fresh : rand.Rand) (key k1 k2 : Z) :
  window_key tbs (Timestamp metric) = Ret key ->
  windows tbs !! key = None ->
  1 <= maxWindows tbs < 2 ^ 62 ->
  Z.of_nat (size (windows tbs)) = maxWindows tbs ->
  0 <= Capacity (samplerConfig tbs) -> 8 * Capacity (samplerConfig tbs) <= maxAlloc ->
  k1 < k2 ->
  (k1 = key \/ is_Some (windows tbs !! k1)) ->
  (k2 = key \/ is_Some (windows tbs !! k2)) ->
  (forall k, k = key \/ is_Some (windows tbs !! k) -> k = k1 \/ k = k2 \/ k2 < k) ->
  (key = k1 \/ key = k2 -> TimeBasedSampler.Add tbs metric fresh = Panic NilDereference) /\
  (k2 < key ->
   exists tbs' reservoir,
     TimeBasedSampler.Add tbs metric fresh = Ret tbs' /\
     windows tbs' = <[key := reservoir]> (delete k2 (delete k1 (windows tbs))) /\
     Z.of_nat (size (windows tbs')) = maxWindows tbs - 1 /\
     maxWindows tbs' = maxWindows tbs).
Proof.
  intros Hkey Hnew Hmax Hsize Hcap Hmem Hlt H1 H2 Hall.
  unfold TimeBasedSampler.Add. rewrite Hkey, bind_Ret, Hnew.
  rewrite NewReservoirSampler_Ret by assumption. rewrite bind_Ret.
  set (rs0 := ReservoirSampler.mk (Capacity (samplerConfig tbs)) [] 0 fresh).
  cbn [maxWindows windows].
  assert (Hsize1 : size (<[key := rs0]> (windows tbs)) = S (size (windows tbs))).
  { apply map_size_insert_None. exact Hnew. }
  rewrite Hsize1.
  destruct (Z.ltb_spec (maxWindows tbs) (Z.of_nat (S (size (windows tbs))))); [|lia].
  set (tbs1 := TimeBasedSampler.mk (windowSize tbs) (<[key := rs0]> (windows tbs))
                 (maxWindows tbs) (samplerConfig tbs)).
  assert (Hin : forall k, is_Some (windows tbs1 !! k) <-> k = key \/ is_Some (windows tbs !! k)).
  { intros k. cbn [windows tbs1]. rewrite lookup_insert_is_Some. split.
    - intros [->|[_ Hk]]; [now left|now right].
    - intros [->|Hk]; [now left|].
      destruct (decide (key = k)) as [->|Hne]; [now left|right; split; assumption]. }
  rewrite (cleanup_evicts_two tbs1 k1 k2).
  2:{ exact Hmax. }
  2:{ cbn [windows maxWindows tbs1]. rewrite Hsize1. lia. }
  2:{ exact Hlt. }
  2:{ apply Hin. exact H1. }
  2:{ apply Hin. exact H2. }
  2:{ intros k Hk. apply Hall. apply Hin. exact Hk. }
  rewrite bind_Ret. cbn [windows maxWindows windowSize samplerConfig tbs1].
  split.
  - intros [-> | ->].
    + rewrite lookup_delete_ne by lia. rewrite lookup_delete_eq. reflexivity.
    + rewrite lookup_delete_eq. reflexivity.
  - intros Hgt.
    assert (Hk1 : is_Some (windows tbs !! k1)) by (destruct H1 as [->|H1]; [lia|exact H1]).
    assert (Hk2 : is_Some (windows tbs !! k2)) by (destruct H2 as [->|H2]; [lia|exact H2]).
    rewrite lookup_delete_ne by lia. rewrite lookup_delete_ne by lia.
    rewrite lookup_insert_eq.
    destruct (reservoir_Add_spec rs0 metric ltac:(cbn; lia)
                ltac:(unfold ReservoirSampler.Size; cbn; lia))
      as (rs' & kept & E & _).
    rewrite E, bind_Ret. eexists _, rs'. split; [reflexivity|].
    cbn [windows maxWindows].
    assert (Ewin : <[key := rs']> (delete k2 (delete k1 (<[key := rs0]> (windows tbs))))
                   = <[key := rs']> (delete k2 (delete k1 (windows tbs)))).
    { apply map_eq. intros k. destruct (decide (k = key)) as [->|Hne].
      - rewrite !lookup_insert_eq. reflexivity.
      - rewrite !lookup_insert_ne by congruence.
        destruct (decide (k = k2)) as [->|Hne2]; [rewrite !lookup_delete_eq; reflexivity|].
        rewrite !(lookup_delete_ne _ k2) by congruence.
        destruct (decide (k = k1)) as [->|Hne1]; [rewrite !lookup_delete_eq; reflexivity|].
        rewrite !(lookup_delete_ne _ k1) by congruence.
        rewrite lookup_insert_ne by congruence. reflexivity. }
    rewrite Ewin. split; [reflexivity|]. split; [|reflexivity].
    rewrite map_size_insert_None.
    2:{ rewrite lookup_delete_ne by lia. rewrite lookup_delete_ne by lia. exact Hnew. }
    assert (Hk2' : is_Some (delete k1 (windows tbs) !! k2)).
    { rewrite lookup_delete_ne by lia. exact Hk2. }
    pose proof (map_size_delete_Some k1 (windows tbs) Hk1) as Hs1.
    pose proof (map_size_ne_0_lookup_2 (windows tbs) k1 Hk1) as Hp1.
    pose proof (map_size_delete_Some k2 (delete k1 (windows tbs)) Hk2') as Hs2.
    pose proof (map_size_ne_0_lookup_2 (delete k1 (windows tbs)) k2 Hk2') as Hp2.
    lia.
Qed.

(** Witness for [timebased_add_when_full]: windows of one minute, at most
    two of them; a record of minute 2 arrives when minutes 0 and 1 are held. *)
Lemma timebased_add_when_full_witness :
  (-1035593278 = -1035593280 \/ -1035593278 = -1035593279 ->
   TimeBasedSampler.Add full_minute_sampler (cpu_metric_at minute_2) (constant_rand 1)
     = Panic NilDereference) /\
  (-1035593279 < -1035593278 ->
   exists tbs' reservoir,
     TimeBasedSampler.Add full_minute_sampler (cpu_metric_at minute_2) (constant_rand 1)
       = Ret tbs' /\
     windows tbs' = <[(-1035593278) := reservoir]>
                      (delete (-1035593279) (delete (-1035593280) (windows full_minute_sampler))) /\
     Z.of_nat (size (windows tbs')) = maxWindows full_minute_sampler - 1 /\
     maxWindows tbs' = maxWindows full_minute_sampler).
Proof.
  apply (timebased_add_when_full full_minute_sampler (cpu_metric_at minute_2) (constant_rand 1)
           (-1035593278) (-1035593280) (-1035593279)).
  - vm_compute. reflexivity.
  - vm_compute. reflexivity.
  - cbn. lia.
  - vm_compute. reflexivity.
  - cbn. lia.
  - unfold maxAlloc. cbn. lia.
  - lia.
  - right. vm_compute. eauto.
  - right. vm_compute. eauto.
  - intros k [->|Hk]; [lia|].
    unfold full_minute_sampler in Hk. cbn [windows] in Hk.
    apply lookup_insert_is_Some in Hk as [<-|[_ Hk]]; [lia|].
    destruct Hk as [r Hk]. apply lookup_singleton_Some in Hk as [<- _]. lia.
Defined.

End TimeBasedSamplerFacts.

(** ** TimeBasedSampler: the most recent windows *)

Section TimeBasedSamplerQueryFacts.
Import TimeBasedSampler.

Lemma StronglySorted_ge_NoDup_gt (l : list Z) :
  StronglySorted Z.ge l -> NoDup l -> StronglySorted Z.gt l.
Proof.
  induction 1 as [|x l Hs IH Hx]; intros Hnd; constructor.
  - apply IH. now apply NoDup_cons in Hnd as [_ Hnd].
  - apply NoDup_cons in Hnd as [Hnx _].
    rewrite Forall_forall in Hx. apply Forall_forall. intros y Hy.
    specialize (Hx y Hy). assert (x <> y) by (intros ->; contradiction). lia.
Qed.

(** X30.  [GetRecentSamples] always returns, and its result does not depend
    on the order in which the map of windows is iterated: it is the
    concatenation of the samples of the [numWindows] windows with the
    largest keys, from the most recent window to the oldest.  With
    [numWindows] zero or negative the result is empty; with [numWindows]
    above the number of windows every window contributes. *)
Theorem timebased_recent_samples (tbs : TimeBasedSampler.t) (numWindows : Z) :
  exists sorted,
    (forall key, key ∈ sorted <-> is_Some (windows tbs !! key)) /\
    StronglySorted Z.gt sorted /\
    GetRecentSamples tbs numWindows =
      Ret (flat_map (window_samples tbs) (take (Z.to_nat numWindows) sorted)).
Proof.
  unfold GetRecentSamples.
  destruct (sort_descending_sorts ((map_to_list (windows tbs)).*1))
    as (sorted & -> & Hperm & Hsorted).
  exists sorted. split; [|split].
  - intros key. rewrite Hperm. apply elem_of_keys.
  - apply StronglySorted_ge_NoDup_gt; [exact Hsorted|].
    rewrite Hperm. apply NoDup_fst_map_to_list.
  - rewrite bind_Ret.
    set (n := Z.of_nat (length sorted)).
    set (m := StratifiedSampler.min numWindows n).
    assert (Hm : m = Z.min numWindows n).
    { unfold m, StratifiedSampler.min. destruct (Z.ltb_spec numWindows n); lia. }
    destruct (Z.le_gt_cases m 0) as [Hle|Hpos].
    + rewrite seqZ_nil by lia. cbn [for_loop].
      destruct (Z.le_gt_cases numWindows 0) as [Hw|Hw].
      * replace (Z.to_nat numWindows) with 0%nat by lia. reflexivity.
      * destruct sorted as [|key sorted]; [now rewrite take_nil|].
        unfold n in Hm. cbn [length] in Hm. lia.
    + set (I := fun k : Z => flat_map (window_samples tbs) (take (Z.to_nat k) sorted)).
      change (@nil MetricPoint) with (I 0).
      rewrite for_loop_seqZ_0 with (I := I); [|lia|].
      * unfold I. f_equal. f_equal.
        destruct (Z.le_gt_cases numWindows n) as [Hn|Hn].
        -- f_equal. lia.
        -- rewrite !firstn_all2; [reflexivity| |]; unfold n in *; lia.
      * intros i Hi. unfold n in *.
        destruct (lookup_lt_is_Some_2 sorted (Z.to_nat i) ltac:(lia)) as [key Ekey].
        rewrite (index_Ret sorted i key) by (lia || exact Ekey). rewrite bind_Ret.
        unfold I. replace (Z.to_nat (i + 1)) with (S (Z.to_nat i)) by lia.
        rewrite (take_S_r _ _ _ Ekey), flat_map_app. cbn [flat_map].
        rewrite app_nil_r. unfold window_samples.
        destruct (windows tbs !! key) as [reservoir|]; [reflexivity|].
        now rewrite app_nil_r.
Qed.

End TimeBasedSamplerQueryFacts.

(** A late record on a full sampler: the sampler of minutes 0 and 1 receives
    a record of the minute before minute 0, whose window is the oldest of
    the three and is removed before the record reaches it. *)
Example timebased_late_record_panics :
  TimeBasedSampler.Add full_minute_sampler (cpu_metric_at (-60000000000)) (constant_rand 1)
    = Panic NilDereference.
Proof. vm_compute. reflexivity. Qed.
